(** * RDebugger: the debugger engine of Rkernel

    A shallow embedding of [src/debugger/RDebugger.cpp].  The interpreter's
    objects ([SEXP]) are modelled by identity together with the two pieces of
    mutable state the engine touches on them: the debug bit ([RDEBUG]) and the
    attribute list ([Rf_getAttrib] / [Rf_setAttrib]).  The engine itself is a
    record of the fields of the [RDebugger] singleton; every member function
    is a computation in a small monad of state, exceptions and observable
    events. *)

From stdpp Require Import gmap strings list sorting.

Local Open Scope Z_scope.
Local Open Scope string_scope.
Local Open Scope list_scope.

(** ** Interpreter objects *)

(** Address of a [std::map] node, that is, the identity of the
    [BreakpointInfo] stored in it. *)
Abbreviation ptr := N (only parsing).

Inductive SEXP : Type :=
| R_NilValue : SEXP
| Obj (id : N) : SEXP          (* srcref, srcfile, environment, call, closure *)
| Lgl (b : bool) : SEXP        (* logical scalar *)
| ExtPtr (p : ptr) : SEXP.     (* EXTPTRSXP wrapping a BreakpointInfo* *)

#[global] Instance SEXP_eq_dec : EqDecision SEXP.
Proof. solve_decision. Defined.

#[global] Instance SEXP_countable : Countable SEXP.
Proof.
  refine (inj_countable'
    (fun s => match s with
              | R_NilValue => inl (inl tt) | Obj i => inl (inr i)
              | Lgl b => inr (inl b) | ExtPtr p => inr (inr p) end)
    (fun t => match t with
              | inl (inl _) => R_NilValue | inl (inr i) => Obj i
              | inr (inl b) => Lgl b | inr (inr p) => ExtPtr p end) _).
  by intros [].
Defined.

(** The symbols of [RI] used as attribute names. *)
Inductive Attr : Type :=
| breakpointInfoAttr | stopHereFlagAttr | srcfileAttr | srcrefAttr
| isPhysicalFileFlag | stackBottomAttr | realEnvAttr.

#[global] Instance Attr_eq_dec : EqDecision Attr.
Proof. solve_decision. Defined.

#[global] Instance Attr_countable : Countable Attr.
Proof.
  refine (inj_countable'
    (fun a => match a with
              | breakpointInfoAttr => 0%nat | stopHereFlagAttr => 1%nat
              | srcfileAttr => 2%nat | srcrefAttr => 3%nat
              | isPhysicalFileFlag => 4%nat | stackBottomAttr => 5%nat
              | realEnvAttr => 6%nat end)
    (fun n => match n with
              | 0%nat => breakpointInfoAttr | 1%nat => stopHereFlagAttr
              | 2%nat => srcfileAttr | 3%nat => srcrefAttr
              | 4%nat => isPhysicalFileFlag | 5%nat => stackBottomAttr
              | _ => realEnvAttr end) _).
  by intros [].
Defined.

(** [toSEXP(true)] *)
Definition toSEXP (b : bool) : SEXP := Lgl b.

(** ** Data of the engine *)

Inductive DebuggerCommand : Type :=
| CONTINUE | STEP_INTO | FORCE_STEP_INTO | STEP_OVER | STEP_OUT | PAUSE | STOP.

#[global] Instance DebuggerCommand_eq_dec : EqDecision DebuggerCommand.
Proof. solve_decision. Defined.

Record BreakpointInfo : Type := {
  bp_suspend : bool;
  bp_evaluateAndLog : string;
  bp_condition : string;
}.

Record InternalBreakpointInfo : Type := {
  ibi_srcref : SEXP;
  ibi_info : BreakpointInfo;
}.

Record RDebuggerStackFrame : Type := {
  sf_fileId : string;
  sf_line : Z;
  sf_environment : SEXP;
  sf_functionName : string;
}.

(** [None] in [cd_srcref] is the C null pointer that [buildStack] tests for. *)
Record ContextDump : Type := {
  cd_call : SEXP;
  cd_function : SEXP;
  cd_srcref : option SEXP;
  cd_environment : SEXP;
}.

(** One entry of the interpreter's context chain.  [isCallContext] is the
    answer of the helper of that name; [ctx_cloenv] is the identity of the
    environment object of the context (the interpreter never builds a context
    without one), and [ctx_srcref] may be the C null pointer. *)
Record RContext : Type := {
  isCallContext : bool;
  ctx_call : SEXP;
  ctx_function : SEXP;
  ctx_srcref : option SEXP;
  ctx_cloenv : N;
}.

Definition getCall (ctx : RContext) : SEXP := ctx_call ctx.
Definition getFunction (ctx : RContext) : SEXP := ctx_function ctx.
Definition getEnvironment (ctx : RContext) : SEXP := Obj (ctx_cloenv ctx).

(** The fields of the [RDebugger] singleton followed by the interpreter state
    it reads and writes.  The two-level [std::map] of breakpoints is a map from
    file and line to the address of the node, and [infoNodes] holds the nodes:
    a [BreakpointInfo&] or [BreakpointInfo*] is such an address. The context
    chain [R_GlobalContext] is listed innermost first. *)
Record World : Type := {
  _isEnabled : bool;
  breakpointsMuted : bool;
  currentCommand : DebuggerCommand;
  runToPositionTarget : SEXP;
  breakpoints : gmap string (gmap Z ptr);
  infoNodes : gmap ptr InternalBreakpointInfo;
  nextNode : ptr;
  stack : list RDebuggerStackFrame;
  lastErrorStackDump : list ContextDump;
  lastError : option SEXP;
  R_interrupts_pending : bool;
  R_Srcref : option SEXP;
  R_GlobalContext : list RContext;
  rdebug : gset SEXP;
  attrib : gmap (SEXP * Attr) SEXP;
}.

Definition set_isEnabled (v : bool) (w : World) : World :=
  {| _isEnabled := v;
     breakpointsMuted := breakpointsMuted w;
     currentCommand := currentCommand w;
     runToPositionTarget := runToPositionTarget w;
     breakpoints := breakpoints w;
     infoNodes := infoNodes w;
     nextNode := nextNode w;
     stack := stack w;
     lastErrorStackDump := lastErrorStackDump w;
     lastError := lastError w;
     R_interrupts_pending := R_interrupts_pending w;
     R_Srcref := R_Srcref w;
     R_GlobalContext := R_GlobalContext w;
     rdebug := rdebug w;
     attrib := attrib w |}.

Definition set_breakpointsMuted (v : bool) (w : World) : World :=
  {| _isEnabled := _isEnabled w;
     breakpointsMuted := v;
     currentCommand := currentCommand w;
     runToPositionTarget := runToPositionTarget w;
     breakpoints := breakpoints w;
     infoNodes := infoNodes w;
     nextNode := nextNode w;
     stack := stack w;
     lastErrorStackDump := lastErrorStackDump w;
     lastError := lastError w;
     R_interrupts_pending := R_interrupts_pending w;
     R_Srcref := R_Srcref w;
     R_GlobalContext := R_GlobalContext w;
     rdebug := rdebug w;
     attrib := attrib w |}.

Definition set_currentCommand (v : DebuggerCommand) (w : World) : World :=
  {| _isEnabled := _isEnabled w;
     breakpointsMuted := breakpointsMuted w;
     currentCommand := v;
     runToPositionTarget := runToPositionTarget w;
     breakpoints := breakpoints w;
     infoNodes := infoNodes w;
     nextNode := nextNode w;
     stack := stack w;
     lastErrorStackDump := lastErrorStackDump w;
     lastError := lastError w;
     R_interrupts_pending := R_interrupts_pending w;
     R_Srcref := R_Srcref w;
     R_GlobalContext := R_GlobalContext w;
     rdebug := rdebug w;
     attrib := attrib w |}.

Definition set_runToPositionTarget (v : SEXP) (w : World) : World :=
  {| _isEnabled := _isEnabled w;
     breakpointsMuted := breakpointsMuted w;
     currentCommand := currentCommand w;
     runToPositionTarget := v;
     breakpoints := breakpoints w;
     infoNodes := infoNodes w;
     nextNode := nextNode w;
     stack := stack w;
     lastErrorStackDump := lastErrorStackDump w;
     lastError := lastError w;
     R_interrupts_pending := R_interrupts_pending w;
     R_Srcref := R_Srcref w;
     R_GlobalContext := R_GlobalContext w;
     rdebug := rdebug w;
     attrib := attrib w |}.

Definition set_breakpoints (v : gmap string (gmap Z ptr)) (w : World) : World :=
  {| _isEnabled := _isEnabled w;
     breakpointsMuted := breakpointsMuted w;
     currentCommand := currentCommand w;
     runToPositionTarget := runToPositionTarget w;
     breakpoints := v;
     infoNodes := infoNodes w;
     nextNode := nextNode w;
     stack := stack w;
     lastErrorStackDump := lastErrorStackDump w;
     lastError := lastError w;
     R_interrupts_pending := R_interrupts_pending w;
     R_Srcref := R_Srcref w;
     R_GlobalContext := R_GlobalContext w;
     rdebug := rdebug w;
     attrib := attrib w |}.

Definition set_infoNodes (v : gmap ptr InternalBreakpointInfo) (w : World) : World :=
  {| _isEnabled := _isEnabled w;
     breakpointsMuted := breakpointsMuted w;
     currentCommand := currentCommand w;
     runToPositionTarget := runToPositionTarget w;
     breakpoints := breakpoints w;
     infoNodes := v;
     nextNode := nextNode w;
     stack := stack w;
     lastErrorStackDump := lastErrorStackDump w;
     lastError := lastError w;
     R_interrupts_pending := R_interrupts_pending w;
     R_Srcref := R_Srcref w;
     R_GlobalContext := R_GlobalContext w;
     rdebug := rdebug w;
     attrib := attrib w |}.

Definition set_nextNode (v : ptr) (w : World) : World :=
  {| _isEnabled := _isEnabled w;
     breakpointsMuted := breakpointsMuted w;
     currentCommand := currentCommand w;
     runToPositionTarget := runToPositionTarget w;
     breakpoints := breakpoints w;
     infoNodes := infoNodes w;
     nextNode := v;
     stack := stack w;
     lastErrorStackDump := lastErrorStackDump w;
     lastError := lastError w;
     R_interrupts_pending := R_interrupts_pending w;
     R_Srcref := R_Srcref w;
     R_GlobalContext := R_GlobalContext w;
     rdebug := rdebug w;
     attrib := attrib w |}.

Definition set_stack (v : list RDebuggerStackFrame) (w : World) : World :=
  {| _isEnabled := _isEnabled w;
     breakpointsMuted := breakpointsMuted w;
     currentCommand := currentCommand w;
     runToPositionTarget := runToPositionTarget w;
     breakpoints := breakpoints w;
     infoNodes := infoNodes w;
     nextNode := nextNode w;
     stack := v;
     lastErrorStackDump := lastErrorStackDump w;
     lastError := lastError w;
     R_interrupts_pending := R_interrupts_pending w;
     R_Srcref := R_Srcref w;
     R_GlobalContext := R_GlobalContext w;
     rdebug := rdebug w;
     attrib := attrib w |}.

Definition set_lastErrorStackDump (v : list ContextDump) (w : World) : World :=
  {| _isEnabled := _isEnabled w;
     breakpointsMuted := breakpointsMuted w;
     currentCommand := currentCommand w;
     runToPositionTarget := runToPositionTarget w;
     breakpoints := breakpoints w;
     infoNodes := infoNodes w;
     nextNode := nextNode w;
     stack := stack w;
     lastErrorStackDump := v;
     lastError := lastError w;
     R_interrupts_pending := R_interrupts_pending w;
     R_Srcref := R_Srcref w;
     R_GlobalContext := R_GlobalContext w;
     rdebug := rdebug w;
     attrib := attrib w |}.

Definition set_lastError (v : option SEXP) (w : World) : World :=
  {| _isEnabled := _isEnabled w;
     breakpointsMuted := breakpointsMuted w;
     currentCommand := currentCommand w;
     runToPositionTarget := runToPositionTarget w;
     breakpoints := breakpoints w;
     infoNodes := infoNodes w;
     nextNode := nextNode w;
     stack := stack w;
     lastErrorStackDump := lastErrorStackDump w;
     lastError := v;
     R_interrupts_pending := R_interrupts_pending w;
     R_Srcref := R_Srcref w;
     R_GlobalContext := R_GlobalContext w;
     rdebug := rdebug w;
     attrib := attrib w |}.

Definition set_R_interrupts_pending (v : bool) (w : World) : World :=
  {| _isEnabled := _isEnabled w;
     breakpointsMuted := breakpointsMuted w;
     currentCommand := currentCommand w;
     runToPositionTarget := runToPositionTarget w;
     breakpoints := breakpoints w;
     infoNodes := infoNodes w;
     nextNode := nextNode w;
     stack := stack w;
     lastErrorStackDump := lastErrorStackDump w;
     lastError := lastError w;
     R_interrupts_pending := v;
     R_Srcref := R_Srcref w;
     R_GlobalContext := R_GlobalContext w;
     rdebug := rdebug w;
     attrib := attrib w |}.

Definition set_R_Srcref (v : option SEXP) (w : World) : World :=
  {| _isEnabled := _isEnabled w;
     breakpointsMuted := breakpointsMuted w;
     currentCommand := currentCommand w;
     runToPositionTarget := runToPositionTarget w;
     breakpoints := breakpoints w;
     infoNodes := infoNodes w;
     nextNode := nextNode w;
     stack := stack w;
     lastErrorStackDump := lastErrorStackDump w;
     lastError := lastError w;
     R_interrupts_pending := R_interrupts_pending w;
     R_Srcref := v;
     R_GlobalContext := R_GlobalContext w;
     rdebug := rdebug w;
     attrib := attrib w |}.

Definition set_R_GlobalContext (v : list RContext) (w : World) : World :=
  {| _isEnabled := _isEnabled w;
     breakpointsMuted := breakpointsMuted w;
     currentCommand := currentCommand w;
     runToPositionTarget := runToPositionTarget w;
     breakpoints := breakpoints w;
     infoNodes := infoNodes w;
     nextNode := nextNode w;
     stack := stack w;
     lastErrorStackDump := lastErrorStackDump w;
     lastError := lastError w;
     R_interrupts_pending := R_interrupts_pending w;
     R_Srcref := R_Srcref w;
     R_GlobalContext := v;
     rdebug := rdebug w;
     attrib := attrib w |}.

Definition set_rdebug (v : gset SEXP) (w : World) : World :=
  {| _isEnabled := _isEnabled w;
     breakpointsMuted := breakpointsMuted w;
     currentCommand := currentCommand w;
     runToPositionTarget := runToPositionTarget w;
     breakpoints := breakpoints w;
     infoNodes := infoNodes w;
     nextNode := nextNode w;
     stack := stack w;
     lastErrorStackDump := lastErrorStackDump w;
     lastError := lastError w;
     R_interrupts_pending := R_interrupts_pending w;
     R_Srcref := R_Srcref w;
     R_GlobalContext := R_GlobalContext w;
     rdebug := v;
     attrib := attrib w |}.

Definition set_attrib (v : gmap (SEXP * Attr) SEXP) (w : World) : World :=
  {| _isEnabled := _isEnabled w;
     breakpointsMuted := breakpointsMuted w;
     currentCommand := currentCommand w;
     runToPositionTarget := runToPositionTarget w;
     breakpoints := breakpoints w;
     infoNodes := infoNodes w;
     nextNode := nextNode w;
     stack := stack w;
     lastErrorStackDump := lastErrorStackDump w;
     lastError := lastError w;
     R_interrupts_pending := R_interrupts_pending w;
     R_Srcref := R_Srcref w;
     R_GlobalContext := R_GlobalContext w;
     rdebug := rdebug w;
     attrib := v |}.

(** ** Computations of the engine *)

(** What an [RError] carries: the text of [what()]. *)
Abbreviation RError := string (only parsing).

Inductive Outcome (A : Type) : Type :=
| Ok (a : A)
| Throw (e : RError).
Arguments Ok {A} a.
Arguments Throw {A} e.

(** What the engine does that is visible outside of it. *)
Inductive Event : Type :=
| EvCondition (text : string) (env : SEXP)  (* a condition is parsed and evaluated *)
| EvLog (text : string) (env : SEXP)        (* a log expression is parsed and evaluated *)
| EvMessage (text : string)                 (* RI->message *)
| EvInterrupt                               (* the pending interrupt is raised *)
| EvSuspend (frames : list RDebuggerStackFrame). (* rpiService->debugPromptHandler() *)

(** A computation runs from a state to an outcome, the state it leaves and
    the events it produced, oldest first.  A thrown error keeps the state
    reached so far. *)
Definition M (A : Type) : Type := World -> Outcome A * World * list Event.

Definition ret {A} (a : A) : M A := fun w => (Ok a, w, []).

Definition bind {A B} (m : M A) (k : A -> M B) : M B := fun w =>
  match m w with
  | (Ok a, w1, ev1) =>
      match k a w1 with (r, w2, ev2) => (r, w2, ev1 ++ ev2) end
  | (Throw e, w1, ev1) => (Throw e, w1, ev1)
  end.

Definition get : M World := fun w => (Ok w, w, []).
Definition modify (f : World -> World) : M unit := fun w => (Ok tt, f w, []).
Definition emit (e : Event) : M unit := fun w => (Ok tt, w, [e]).
Definition throw {A} (e : RError) : M A := fun w => (Throw e, w, []).
Definition liftOutcome {A} (r : Outcome A) : M A := fun w => (r, w, []).

(** [try { m } catch (RError const& e) { h e }] *)
Definition try_catch {A} (m : M A) (h : RError -> M A) : M A := fun w =>
  match m w with
  | (Ok a, w1, ev1) => (Ok a, w1, ev1)
  | (Throw e, w1, ev1) =>
      match h e w1 with (r, w2, ev2) => (r, w2, ev1 ++ ev2) end
  end.

Declare Scope engine_scope.
Delimit Scope engine_scope with engine.
Local Open Scope engine_scope.
Notation "'let*' x ':=' m 'in' k" := (bind m (fun x => k))
  (at level 10, x name, m at level 100, k at level 200) : engine_scope.
Notation "m '>>' k" := (bind m (fun _ => k))
  (at level 100, k at level 200, right associativity) : engine_scope.

(** ** The interpreter and the collaborators of the engine

    Functions the engine calls but does not define: the source reference
    resolver ([sourceFileManager]), accessors of interpreter objects, the
    parser and evaluator, and the host's blocking prompt.  The evaluator of
    condition and log expressions may read the state; what such an expression
    does to the state is not covered. *)
Class Interpreter : Type := {
  getStepSrcref : string -> Z -> SEXP;
  getFunctionSrcref : SEXP -> string -> SEXP;
  srcrefToPosition : SEXP -> string * Z;
  getCallFunctionName : SEXP -> string;
  getBlockSrcrefs : SEXP -> SEXP;
  getSrcref : SEXP -> Z -> SEXP;
  CAR : SEXP -> SEXP;
  parseCode : string -> Outcome SEXP;
  evalq : SEXP -> SEXP -> World -> Outcome SEXP;
  asLogical : SEXP -> Outcome SEXP;
  asBool : SEXP -> bool;
  getPrintedValue : SEXP -> Outcome string;
  Rf_eval : SEXP -> SEXP -> M SEXP;
  debugPromptHandler : M unit;
  defaultBreakpointInfo : BreakpointInfo;
}.

(** ** Debug bit and attributes *)

Definition RDEBUG (w : World) (x : SEXP) : bool := bool_decide (x ∈ rdebug w).

Definition SET_RDEBUG (x : SEXP) (v : bool) : M unit :=
  modify (fun w => set_rdebug (if v then rdebug w ∪ {[x]} else rdebug w ∖ {[x]}) w).

Definition Rf_getAttrib (w : World) (x : SEXP) (name : Attr) : SEXP :=
  default R_NilValue (attrib w !! (x, name)).

(** Setting an attribute to [R_NilValue] removes it, on any object; setting
    one on [R_NilValue] is an error of the interpreter. *)
Definition Rf_setAttrib (x : SEXP) (name : Attr) (val : SEXP) : M unit :=
  if decide (val = R_NilValue) then
    modify (fun w => set_attrib (delete (x, name) (attrib w)) w)
  else if decide (x = R_NilValue) then
    throw "attempt to set an attribute on NULL"
  else
    modify (fun w => set_attrib (<[(x, name) := val]> (attrib w)) w).

(** Modelled from the spec: [WithDebuggerEnabled], whose declaration is not
    part of the sources; a scoped toggle of the enabled flag that restores the
    prior value when the scope is left, also by an exception. *)
Definition WithDebuggerEnabled {A} (b : bool) (m : M A) : M A := fun w =>
  match m (set_isEnabled b w) with
  | (r, w1, ev) => (r, set_isEnabled (_isEnabled w) w1, ev)
  end.

(** Modelled from the spec: [R_CheckUserInterrupt], the interpreter's safe
    point; a pending interrupt is raised there.  What the interpreter does
    with the running evaluation afterwards is its own business. *)
Definition R_CheckUserInterrupt : M unit := fun w =>
  if R_interrupts_pending w then emit EvInterrupt w else ret tt w.

Section Engine.
Context `{Interpreter}.

Definition init : M unit := modify (set_runToPositionTarget R_NilValue).

Definition isEnabled (w : World) : bool := _isEnabled w.

Definition clearStack : M unit := modify (set_stack []).

Definition muteBreakpoints (mute : bool) : M unit := modify (set_breakpointsMuted mute).

Definition setBreakpointInfoAttrib (srcref : SEXP) (info : option ptr) : M unit :=
  match info with
  | None => Rf_setAttrib srcref breakpointInfoAttr R_NilValue
  | Some p => Rf_setAttrib srcref breakpointInfoAttr (ExtPtr p)
  end.

Definition getBreakpointInfoAttrib (w : World) (srcref : SEXP) : option ptr :=
  match Rf_getAttrib w srcref breakpointInfoAttr with
  | ExtPtr p => Some p
  | _ => None
  end.

(** [it->second.srcref = srcref] on the node at address [p]. *)
Definition set_node_srcref (p : ptr) (srcref : SEXP) (w : World) : World :=
  set_infoNodes
    (alter (fun e => {| ibi_srcref := srcref; ibi_info := ibi_info e |}) p (infoNodes w)) w.

(** Arms [srcref] and attaches the node [p], when [srcref] was resolved. *)
Definition armTarget (srcref : SEXP) (p : ptr) : M unit :=
  if decide (srcref ≠ R_NilValue) then
    SET_RDEBUG srcref true >>
    setBreakpointInfoAttrib srcref (Some p)
  else ret tt.

(** [breakpoints[file].insert({line, InternalBreakpointInfo()})] allocates a
    node only when the key is absent; the result is the address of the
    [info] of the node found or made. *)
Definition addBreakpoint (file : string) (line : Z) : M ptr :=
  let* w := get in
  match default ∅ (breakpoints w !! file) !! line with
  | Some p => ret p
  | None =>
      let p := nextNode w in
      modify (fun w =>
        set_nextNode (N.succ p)
          (set_infoNodes
             (<[p := {| ibi_srcref := R_NilValue; ibi_info := defaultBreakpointInfo |}]>
                (infoNodes w))
             (set_breakpoints
                (<[file := <[line := p]> (default ∅ (breakpoints w !! file))]> (breakpoints w))
                w))) >>
      let srcref := getStepSrcref file line in
      modify (set_node_srcref p srcref) >>
      armTarget srcref p >>
      ret p
  end.

(** The srcref stored in the node at [p]; a key of the map always has its
    node. *)
Definition node_srcref (w : World) (p : ptr) : SEXP :=
  from_option ibi_srcref R_NilValue (infoNodes w !! p).

Definition removeBreakpoint (file : string) (line : Z) : M unit :=
  let* w := get in
  match breakpoints w !! file with
  | Some lines =>
      match lines !! line with
      | Some p =>
          setBreakpointInfoAttrib (node_srcref w p) None >>
          SET_RDEBUG (node_srcref w p) false >>
          modify (fun w =>
            set_infoNodes (delete p (infoNodes w))
              (set_breakpoints (<[file := delete line lines]> (breakpoints w)) w))
      | None => ret tt
      end
  | None => ret tt
  end.

Definition refreshBreakpoint (file : string) (line : Z) : M unit :=
  let* w := get in
  match breakpoints w !! file with
  | Some lines =>
      match lines !! line with
      | Some p =>
          setBreakpointInfoAttrib (node_srcref w p) None >>
          SET_RDEBUG (node_srcref w p) false >>
          let srcref := getStepSrcref file line in
          modify (set_node_srcref p srcref) >>
          armTarget srcref p
      | None => ret tt
      end
  | None => ret tt
  end.

Definition resetRunToPositionTarget : M unit :=
  let* w := get in
  if decide (runToPositionTarget w ≠ R_NilValue) then
    SET_RDEBUG (runToPositionTarget w) false >>
    let position := srcrefToPosition (runToPositionTarget w) in
    refreshBreakpoint position.1 position.2 >>
    modify (set_runToPositionTarget R_NilValue)
  else ret tt.

(** The walk of [setCommand] along the context chain. *)
Fixpoint setCommand_walk (c : DebuggerCommand) (ctxs : list RContext) (isFirst : bool)
  : M unit :=
  match ctxs with
  | [] => ret tt
  | ctx :: next =>
      if isCallContext ctx then
        let env := getEnvironment ctx in
        match c with
        | CONTINUE | STEP_INTO => Rf_setAttrib env stopHereFlagAttr R_NilValue
        | STEP_OVER => Rf_setAttrib env stopHereFlagAttr (toSEXP true)
        | STEP_OUT =>
            Rf_setAttrib env stopHereFlagAttr (if isFirst then R_NilValue else toSEXP true)
        | _ => ret tt
        end >>
        setCommand_walk c next false
      else setCommand_walk c next isFirst
  end.

Definition setCommand (c : DebuggerCommand) : M unit :=
  modify (set_currentCommand c) >>
  resetRunToPositionTarget >>
  modify (set_runToPositionTarget R_NilValue) >>
  let* w := get in
  setCommand_walk c (R_GlobalContext w) true.

Definition setRunToPositionCommand (fileId : string) (line : Z) : M unit :=
  modify (set_currentCommand CONTINUE) >>
  resetRunToPositionTarget >>
  let srcref := getStepSrcref fileId line in
  if decide (srcref ≠ R_NilValue) then
    modify (set_runToPositionTarget srcref) >>
    SET_RDEBUG srcref true
  else ret tt.

Definition checkCondition (condition : string) (env : SEXP) : M bool :=
  if decide (condition = "") then ret true
  else
    try_catch
      (WithDebuggerEnabled false
         (emit (EvCondition condition env) >>
          let* expr := liftOutcome (parseCode condition) in
          let* w := get in
          let* value := liftOutcome (evalq expr env w) in
          let* result := liftOutcome (asLogical value) in
          ret (asBool result)))
      (fun _ => ret false).

Definition evaluateAndLog (expression : string) (env : SEXP) : M unit :=
  if decide (expression = "") then ret tt
  else
    try_catch
      (WithDebuggerEnabled false
         (emit (EvLog expression env) >>
          let* expr := liftOutcome (parseCode expression) in
          let* w := get in
          let* value := liftOutcome (evalq expr env w) in
          let* printed := liftOutcome (getPrintedValue value) in
          emit (EvMessage printed)))
      (fun e => emit (EvMessage e)).

(** The snapshot of the context chain: the synthetic entry for the current
    call first, then every call context walking outwards, and the whole
    reversed, so that the result is outermost first. *)
Definition dumpOfContext (ctx : RContext) : ContextDump :=
  {| cd_call := getCall ctx;
     cd_function := getFunction ctx;
     cd_srcref := Some (default R_NilValue (ctx_srcref ctx));
     cd_environment := getEnvironment ctx |}.

Definition getContextDump (currentCall : SEXP) (w : World) : list ContextDump :=
  let initial :=
    {| cd_call := currentCall;
       cd_function := R_NilValue;
       cd_srcref := Some (default R_NilValue (R_Srcref w));
       cd_environment := R_NilValue |} in
  rev (initial :: map dumpOfContext (filter (fun ctx => isCallContext ctx = true) (R_GlobalContext w))).

(** The local variables of [buildStack] that live across iterations. *)
Record BuildState : Type := {
  wasStackBottom : bool;
  functionName : string;
  frame : SEXP;
  functionSrcref : SEXP;
  frames : list RDebuggerStackFrame;
}.

Definition buildStack_init : BuildState :=
  {| wasStackBottom := false; functionName := ""; frame := R_NilValue;
     functionSrcref := R_NilValue; frames := [] |}.

(** The source position that an entry of the snapshot stands for: its own,
    else the one attached to its call, else the one of the function called
    last. *)
Definition effectiveSrcref (w : World) (st : BuildState) (ctx : ContextDump) : SEXP :=
  let srcref := default R_NilValue (cd_srcref ctx) in
  if decide (srcref = R_NilValue) then
    let srcref := Rf_getAttrib w (cd_call ctx) srcrefAttr in
    if decide (srcref = R_NilValue) then functionSrcref st else srcref
  else srcref.

(** One iteration of the loop of [buildStack]. *)
Definition buildStack_step (w : World) (st : BuildState) (ctx : ContextDump) : BuildState :=
  let call := cd_call ctx in
  let srcref := effectiveSrcref w st ctx in
  let srcfile := Rf_getAttrib w srcref srcfileAttr in
  let '(bottom, stack) :=
    if decide (Rf_getAttrib w (frame st) stackBottomAttr ≠ R_NilValue
               ∧ cd_environment ctx ≠ R_NilValue) then
      (true, [])
    else
      let bottom :=
        wasStackBottom st
        || bool_decide (Rf_getAttrib w srcfile isPhysicalFileFlag ≠ R_NilValue) in
      if bool_decide (call ≠ R_NilValue) && bottom then
        let position := srcrefToPosition srcref in
        let realFrame := Rf_getAttrib w (frame st) realEnvAttr in
        let frame := if decide (realFrame ≠ R_NilValue) then realFrame else frame st in
        let functionName :=
          match frames st with [] => "" | _ => functionName st end in
        (bottom,
         frames st ++ [ {| sf_fileId := position.1; sf_line := position.2;
                           sf_environment := frame; sf_functionName := functionName |} ])
      else (bottom, frames st) in
  let functionName := getCallFunctionName call in
  {| wasStackBottom := bottom;
     functionName := functionName;
     frame := cd_environment ctx;
     functionSrcref :=
       if decide (cd_function ctx ≠ R_NilValue)
       then getFunctionSrcref (cd_function ctx) functionName
       else functionSrcref st;
     frames := stack |}.

Definition buildStack_loop (w : World) (contexts : list ContextDump) (st : BuildState)
  : BuildState :=
  fold_left (buildStack_step w) contexts st.

Definition buildStack (contexts : list ContextDump) : M (list RDebuggerStackFrame) :=
  match contexts with
  | [] => ret []
  | _ =>
      WithDebuggerEnabled false
        (let* w := get in
         ret (frames (buildStack_loop w contexts buildStack_init)))
  end.

(** The block of [doBreakpoint] guarded by
    [!breakpointsMuted && breakpoint != nullptr]: the value of [suspend]
    after it.  A [BreakpointInfo*] that is not the address of a node cannot
    be dereferenced: the model stops with an error there. *)
Definition doBreakpoint_evaluate (breakpoint : option ptr) (env : SEXP) (suspend : bool)
  : M bool :=
  let* w := get in
  match breakpoint with
  | Some p =>
      if negb (breakpointsMuted w) then
        match infoNodes w !! p with
        | Some node =>
            let* holds := checkCondition (bp_condition (ibi_info node)) env in
            if holds then
              evaluateAndLog (bp_evaluateAndLog (ibi_info node)) env >>
              ret (if bp_suspend (ibi_info node) then true else suspend)
            else ret suspend
        | None => throw "invalid BreakpointInfo pointer"
        end
      else ret suspend
  | None => ret suspend
  end.

(** The tail of [doBreakpoint] once [suspend] holds. *)
Definition doBreakpoint_suspend (currentCall : SEXP) : M unit :=
  setCommand CONTINUE >>
  let* w := get in
  let* built := buildStack (getContextDump currentCall w) in
  modify (set_stack built) >>
  emit (EvSuspend built) >>
  debugPromptHandler.

(** [R_Srcref != R_NilValue && R_Srcref == runToPositionTarget] *)
Definition targetReached (w : World) : bool :=
  bool_decide (R_Srcref w ≠ Some R_NilValue)
  && bool_decide (R_Srcref w = Some (runToPositionTarget w)).

(** The firing logic.  [CPP_BEGIN] and [CPP_END_VOID] hand errors on to the
    interpreter. *)
Definition doBreakpoint (currentCall : SEXP) (breakpoint : option ptr)
    (isStepStop : bool) (env : SEXP) : M unit :=
  let* w := get in
  if negb (isEnabled w) || R_interrupts_pending w then ret tt
  else if decide (currentCommand w = STOP) then
    setCommand CONTINUE >>
    modify (set_R_interrupts_pending true) >>
    R_CheckUserInterrupt
  else
    let suspend := isStepStop || targetReached w in
    let* suspend := doBreakpoint_evaluate breakpoint env suspend in
    if negb suspend then ret tt
    else doBreakpoint_suspend currentCall.

Definition getCurrentCallContext (w : World) : option RContext :=
  find (fun ctx => isCallContext ctx) (R_GlobalContext w).

(** One pass of the loop of [doBegin]: the statement [arg], whose source
    reference is the [i]-th of the block. *)
Definition doBegin_statement (isPhysical : bool) (functionEnv srcrefs : SEXP)
    (i : Z) (arg rho : SEXP) : M SEXP :=
  modify (set_R_Srcref (Some (getSrcref srcrefs i))) >>
  let* w := get in
  let stopHere :=
    match currentCommand w with
    | STEP_INTO => isPhysical
    | FORCE_STEP_INTO | PAUSE | STOP => true
    | STEP_OVER | STEP_OUT =>
        bool_decide (Rf_getAttrib w functionEnv stopHereFlagAttr ≠ R_NilValue)
    | _ => false
    end in
  let rDebugFlag := RDEBUG w (getSrcref srcrefs i) in
  (if stopHere || rDebugFlag then
     doBreakpoint arg
       (if rDebugFlag then getBreakpointInfoAttrib w (getSrcref srcrefs i) else None)
       stopHere rho
   else ret tt) >>
  Rf_eval arg rho.

Fixpoint doBegin_loop (isPhysical : bool) (functionEnv srcrefs : SEXP)
    (i : Z) (args : list SEXP) (rho s : SEXP) : M SEXP :=
  match args with
  | [] => ret s
  | arg :: rest =>
      let* s := doBegin_statement isPhysical functionEnv srcrefs i arg rho in
      doBegin_loop isPhysical functionEnv srcrefs (i + 1) rest rho s
  end.

(** Whether the block whose source references are [srcrefs] belongs to a
    file-backed source: read from the first of them. *)
Definition blockIsPhysical (w : World) (srcrefs : SEXP) : bool :=
  let srcfile := Rf_getAttrib w (getSrcref srcrefs 0) srcfileAttr in
  bool_decide (Rf_getAttrib w srcfile isPhysicalFileFlag ≠ R_NilValue).

(** [args] is the pairlist of the statements of the block.  The resolver is
    asked for the source reference of the enclosing function only to have it
    attached; the answer is not used. *)
Definition doBegin (call : SEXP) (args : list SEXP) (rho : SEXP) : M SEXP :=
  let* w := get in
  let ctx := getCurrentCallContext w in
  let function := from_option getFunction R_NilValue ctx in
  let functionEnv := from_option getEnvironment R_NilValue ctx in
  let suggestedFunctionName :=
    from_option (fun ctx => getCallFunctionName (getCall ctx)) "" ctx in
  let _ := getFunctionSrcref function suggestedFunctionName in
  let srcrefs := getBlockSrcrefs call in
  modify (set_R_Srcref (Some (getSrcref srcrefs 0))) >>
  let* w := get in
  let isPhysical := blockIsPhysical w srcrefs in
  (if RDEBUG w (getSrcref srcrefs 0) then
     doBreakpoint (CAR call) (getBreakpointInfoAttrib w (getSrcref srcrefs 0)) false rho
   else ret tt) >>
  match args with
  | [] => ret R_NilValue
  | _ =>
      let* s := doBegin_loop isPhysical functionEnv srcrefs 1 args rho R_NilValue in
      modify (set_R_Srcref (Some R_NilValue)) >>
      ret s
  end.

Definition doHandleException (e : SEXP) : M unit :=
  let* w := get in
  modify (set_lastErrorStackDump (getContextDump R_NilValue w)) >>
  modify (set_lastError (Some e)).

Definition getStack (w : World) : list RDebuggerStackFrame := stack w.

(** [result.pop_back()] on a non-empty vector is [removelast]. *)
Definition getLastErrorStack : M (list RDebuggerStackFrame) :=
  let* w := get in
  let* result := buildStack (lastErrorStackDump w) in
  ret (match result with [] => result | _ => removelast result end).


End Engine.

(** ** Vocabulary of the statements *)

(** The state after a run that touched only the run-to-position target, the
    nodes, the debug bits and the attributes. *)
Definition touch (n : gmap ptr InternalBreakpointInfo) (d : gset SEXP)
    (a : gmap (SEXP * Attr) SEXP) (w : World) : World :=
  set_runToPositionTarget R_NilValue (set_infoNodes n (set_rdebug d (set_attrib a w))).

(** The environments of the call frames of a context chain, innermost first. *)
Definition callEnvironments (ctxs : list RContext) : list SEXP :=
  map getEnvironment (filter (fun ctx => isCallContext ctx = true) ctxs).

(** The number of suspensions among events. *)
Fixpoint suspensions (evs : list Event) : nat :=
  match evs with
  | [] => 0%nat
  | EvSuspend _ :: rest => S (suspensions rest)
  | _ :: rest => suspensions rest
  end.

(** The frames [buildStack] returns for a snapshot. *)
Definition buildStack_frames `{Interpreter} (w : World) (contexts : list ContextDump)
  : list RDebuggerStackFrame :=
  frames (buildStack_loop w contexts buildStack_init).

(** The store holds a breakpoint for [position]. *)
Definition breakpointStored (w : World) (position : string * Z) : Prop :=
  ∃ lines p,
    breakpoints w !! (position.1) = Some lines ∧ lines !! (position.2) = Some p.

(** [R_NilValue] carries neither a debug bit nor an attribute: the engine
    never puts one there. *)
Definition nilPlain (w : World) : Prop :=
  (R_NilValue ∉ rdebug w) ∧ (∀ nm, attrib w !! (R_NilValue, nm) = None).

(** The state a computation leaves. *)
Definition stateAfter {A} (m : M A) (w : World) : World := (m w).1.2.

(** [m] keeps the property [P] of states. *)
Definition preserves {A} (P : World -> Prop) (m : M A) : Prop :=
  ∀ w, P w -> P (stateAfter m w).

(** The fields a command or a suspension leaves alone. *)
Definition sameSession (w w' : World) : Prop :=
  _isEnabled w' = _isEnabled w ∧
  breakpointsMuted w' = breakpointsMuted w ∧
  breakpoints w' = breakpoints w ∧
  R_interrupts_pending w' = R_interrupts_pending w ∧
  R_Srcref w' = R_Srcref w ∧
  R_GlobalContext w' = R_GlobalContext w.

(** *** The snapshot seen by [buildStack] *)

(** The loop variables of [buildStack] on entry to the iteration for entry
    [i] of the snapshot. *)
Definition stateBefore `{Interpreter} (w : World) (contexts : list ContextDump) (i : nat)
  : BuildState :=
  buildStack_loop w (take i contexts) buildStack_init.

(** The source file of a source reference is physical, that is, file-backed. *)
Definition isPhysicalSrcref (w : World) (srcref : SEXP) : bool :=
  bool_decide
    (Rf_getAttrib w (Rf_getAttrib w srcref srcfileAttr) isPhysicalFileFlag ≠ R_NilValue).

(** The entry stands for a position in a physical file. *)
Definition isPhysicalEntry (w : World) (st : BuildState) (ctx : ContextDump) : bool :=
  isPhysicalSrcref w (effectiveSrcref w st ctx).

(** The stack-bottom sentinel: the environment of the entry before carries
    the stack-bottom attribute and the entry has an environment. *)
Definition isSentinelEntry (w : World) (st : BuildState) (ctx : ContextDump) : bool :=
  bool_decide (Rf_getAttrib w (frame st) stackBottomAttr ≠ R_NilValue
               ∧ cd_environment ctx ≠ R_NilValue).

Definition physicalAt `{Interpreter} (w : World) (contexts : list ContextDump) (i : nat)
  : bool :=
  match contexts !! i with
  | Some ctx => isPhysicalEntry w (stateBefore w contexts i) ctx
  | None => false
  end.

Definition sentinelAt `{Interpreter} (w : World) (contexts : list ContextDump) (i : nat)
  : bool :=
  match contexts !! i with
  | Some ctx => isSentinelEntry w (stateBefore w contexts i) ctx
  | None => false
  end.

(** Entry [i] is at or after a physical entry, or after a sentinel. *)
Definition visibleAt `{Interpreter} (w : World) (contexts : list ContextDump) (i : nat)
  : Prop :=
  (∃ p, (p <= i)%nat ∧ physicalAt w contexts p = true)
  ∨ (∃ p, (p < i)%nat ∧ sentinelAt w contexts p = true).

(** The stack frame that stands for an entry: the position of its source
    reference and the environment of the entry before it, or the real
    environment that one redirects to. *)
Definition frameOf `{Interpreter} (w : World) (st : BuildState) (ctx : ContextDump)
    (name : string) : RDebuggerStackFrame :=
  let position := srcrefToPosition (effectiveSrcref w st ctx) in
  let realFrame := Rf_getAttrib w (frame st) realEnvAttr in
  {| sf_fileId := position.1;
     sf_line := position.2;
     sf_environment := if decide (realFrame ≠ R_NilValue) then realFrame else frame st;
     sf_functionName := name |}.

(** What the claim on the stack asks about physical frames, in its weakest
    reading: a stack with a frame in it has a physical entry in its snapshot. *)
Definition onlyAfterPhysical `{Interpreter} (w : World) (contexts : list ContextDump)
  : Prop :=
  buildStack_frames w contexts ≠ [] -> ∃ p, physicalAt w contexts p = true.

(** What the claim on [STEP_OUT] asks of the state [w'] after the command,
    word for word: the marker is cleared on the innermost call frame and set
    on every enclosing call frame of the chain of [w]. *)
Definition stepOutMarkers (w w' : World) : Prop :=
  match callEnvironments (R_GlobalContext w) with
  | [] => True
  | innermost :: enclosing =>
      Rf_getAttrib w' innermost stopHereFlagAttr = R_NilValue ∧
      (∀ e, e ∈ enclosing -> Rf_getAttrib w' e stopHereFlagAttr ≠ R_NilValue)
  end.

(** ** A concrete interpreter and session

    One source file ["a.r"] whose line [l] is the object [Obj l]; objects
    from 1000 on are calls and environments.  Used to run the engine on
    explicit inputs. *)
Module Example.

Definition interp : Interpreter :=
  {| getStepSrcref file line :=
       if decide (file = "a.r") then Obj (Z.to_N line) else R_NilValue;
     getFunctionSrcref _ _ := R_NilValue;
     srcrefToPosition s :=
       match s with Obj i => ("a.r", Z.of_N i) | _ => ("", 0) end;
     getCallFunctionName c :=
       match c with
       | Obj 1001 => "f" | Obj 1002 => "g" | Obj 1003 => "h" | Obj 1004 => "stop"
       | _ => ""
       end;
     getBlockSrcrefs c := c;
     getSrcref _ i := Obj (Z.to_N i);
     CAR c := c;
     parseCode text :=
       if decide (text = "x >") then Throw "unexpected end of input" else Ok (Obj 5000);
     evalq _ _ _ := Throw "error in evaluation";
     asLogical v := Ok v;
     asBool v := match v with Lgl b => b | _ => false end;
     getPrintedValue _ := Ok "[1] 1";
     Rf_eval _ _ := ret R_NilValue;
     debugPromptHandler := ret tt;
     defaultBreakpointInfo :=
       {| bp_suspend := true; bp_evaluateAndLog := ""; bp_condition := "" |} |}.

(** An enabled session with nothing stored and no call in progress. *)
Definition idle : World :=
  {| _isEnabled := true; breakpointsMuted := false; currentCommand := CONTINUE;
     runToPositionTarget := R_NilValue; breakpoints := ∅; infoNodes := ∅; nextNode := 0%N;
     stack := []; lastErrorStackDump := []; lastError := None;
     R_interrupts_pending := false; R_Srcref := Some R_NilValue; R_GlobalContext := [];
     rdebug := ∅; attrib := ∅ |}.

(** Two call frames on one environment, as when a function evaluates an
    expression in its own environment through [eval]: the inner context is
    the one of the evaluation, the outer one the call of the function. *)
Definition shared : World :=
  set_R_GlobalContext
    [ {| isCallContext := true; ctx_call := Obj 1002; ctx_function := Obj 3002;
         ctx_srcref := None; ctx_cloenv := 2000%N |};
      {| isCallContext := true; ctx_call := Obj 1001; ctx_function := Obj 3001;
         ctx_srcref := None; ctx_cloenv := 2000%N |} ]
    idle.

(** The file ["a.r"], object 50, is physical; the console input, object 51,
    is not.  Lines 11 to 14 of the file are statements of [f], [g], [h] and
    of a callee of [h]; object 5 is the line typed at the console. *)
Definition sources : gmap (SEXP * Attr) SEXP :=
  list_to_map
    [ ((Obj 5, srcfileAttr), Obj 51);
      ((Obj 11, srcfileAttr), Obj 50); ((Obj 12, srcfileAttr), Obj 50);
      ((Obj 13, srcfileAttr), Obj 50); ((Obj 14, srcfileAttr), Obj 50);
      ((Obj 50, isPhysicalFileFlag), Lgl true) ].

Definition call_f : RContext :=
  {| isCallContext := true; ctx_call := Obj 1001; ctx_function := Obj 3001;
     ctx_srcref := Some (Obj 5); ctx_cloenv := 2001%N |}.
Definition call_g : RContext :=
  {| isCallContext := true; ctx_call := Obj 1002; ctx_function := Obj 3002;
     ctx_srcref := Some (Obj 11); ctx_cloenv := 2002%N |}.
Definition call_h : RContext :=
  {| isCallContext := true; ctx_call := Obj 1003; ctx_function := Obj 3003;
     ctx_srcref := Some (Obj 12); ctx_cloenv := 2003%N |}.
Definition call_stop : RContext :=
  {| isCallContext := true; ctx_call := Obj 1004; ctx_function := Obj 3004;
     ctx_srcref := Some (Obj 13); ctx_cloenv := 2004%N |}.

(** [f()] typed at the console has called [g], which has called [h]; the
    interpreter is at line 13, inside [h]. *)
Definition inside_h : World :=
  set_R_Srcref (Some (Obj 13))
    (set_R_GlobalContext [call_h; call_g; call_f] (set_attrib sources idle)).

(** The same calls, and [h] has called [stop] on its line 13. *)
Definition failing_in_h : World :=
  set_R_Srcref (Some (Obj 14))
    (set_R_GlobalContext [call_stop; call_h; call_g; call_f] (set_attrib sources idle)).

(** No file is physical; the environment 2000 carries the stack-bottom
    attribute. *)
Definition nested_toplevel : World :=
  set_attrib {[ (Obj 2000, stackBottomAttr) := Lgl true ]} idle.

Definition nested_snapshot : list ContextDump :=
  [ {| cd_call := Obj 1000; cd_function := R_NilValue; cd_srcref := Some R_NilValue;
       cd_environment := Obj 2000 |};
    {| cd_call := Obj 1001; cd_function := Obj 3001; cd_srcref := Some R_NilValue;
       cd_environment := Obj 2001 |};
    {| cd_call := Obj 1010; cd_function := R_NilValue; cd_srcref := Some R_NilValue;
       cd_environment := R_NilValue |} ].

End Example.

(** ** Installing the interceptor *)








(** ** Vocabulary of the store *)

(** [breakpoints.find(file)] followed by [find(line)]: the node of a key. *)
Definition lookupKey (w : World) (file : string) (line : Z) : option ptr :=
  default ∅ (breakpoints w !! file) !! line.

(** The store and the attached pointers agree: an attached pointer is the
    address of a node whose step target is the object it is attached to;
    every node was allocated; every key has its node, and no two keys share
    one. *)
Definition storeConsistent (w : World) : Prop :=
  (∀ s p, attrib w !! (s, breakpointInfoAttr) = Some (ExtPtr p) ->
          ∃ node, infoNodes w !! p = Some node ∧ ibi_srcref node = s) ∧
  (∀ p, is_Some (infoNodes w !! p) -> (p < nextNode w)%N) ∧
  (∀ file line p, lookupKey w file line = Some p -> is_Some (infoNodes w !! p)) ∧
  (∀ file line file' line' p,
     lookupKey w file line = Some p -> lookupKey w file' line' = Some p ->
     file = file' ∧ line = line').

(** The entries of a snapshot that have a call. *)
Definition entriesWithCall (contexts : list ContextDump) : list ContextDump :=
  filter (fun ctx => cd_call ctx ≠ R_NilValue) contexts.


(** Everything but the store, the debug bits and the attributes is as
    before. *)
Definition storeOnly (w w' : World) : Prop :=
  _isEnabled w' = _isEnabled w ∧
  breakpointsMuted w' = breakpointsMuted w ∧
  currentCommand w' = currentCommand w ∧
  runToPositionTarget w' = runToPositionTarget w ∧
  stack w' = stack w ∧
  lastErrorStackDump w' = lastErrorStackDump w ∧
  lastError w' = lastError w ∧
  R_interrupts_pending w' = R_interrupts_pending w ∧
  R_Srcref w' = R_Srcref w ∧
  R_GlobalContext w' = R_GlobalContext w.

(** * Properties *)

Section Properties.
Context `{Interpreter}.

Lemma touch_id (w : World) :
  runToPositionTarget w = R_NilValue ->
  touch (infoNodes w) (rdebug w) (attrib w) w = w.
Proof. intros Ht. destruct w; cbn in *; by subst. Qed.

Lemma bind_ok {A B} (m : M A) (k : A -> M B) w a w1 :
  m w = (Ok a, w1, []) -> bind m k w = k a w1.
Proof. intros Hm. unfold bind. rewrite Hm. by destruct (k a w1) as [[? ?] ?]. Qed.

Lemma bind_ok_events {A B} (m : M A) (k : A -> M B) w a w1 ev :
  m w = (Ok a, w1, ev) ->
  bind m k w = (let '(r, w2, ev2) := k a w1 in (r, w2, ev ++ ev2)).
Proof. intros Hm. unfold bind. rewrite Hm. by destruct (k a w1) as [[? ?] ?]. Qed.

Lemma suspensions_app evs1 evs2 :
  suspensions (evs1 ++ evs2) = (suspensions evs1 + suspensions evs2)%nat.
Proof.
  induction evs1 as [|e evs1 IH]; [done|]. destruct e; cbn; by rewrite ?IH.
Qed.

Lemma set_attrib_id (w : World) : set_attrib (attrib w) w = w.
Proof. by destruct w. Qed.

Lemma callEnvironments_cons_call ctx next :
  isCallContext ctx = true ->
  callEnvironments (ctx :: next) = getEnvironment ctx :: callEnvironments next.
Proof. intros Hc. unfold callEnvironments. by rewrite filter_cons_True. Qed.

Lemma callEnvironments_cons_other ctx next :
  isCallContext ctx = false ->
  callEnvironments (ctx :: next) = callEnvironments next.
Proof.
  intros Hc. unfold callEnvironments. rewrite filter_cons_False; [done|]. by rewrite Hc.
Qed.

(** Setting an attribute on an environment of a context succeeds. *)
Lemma setAttrib_obj id name val w :
  Rf_setAttrib (Obj id) name val w =
    (Ok tt,
     set_attrib (if decide (val = R_NilValue) then delete (Obj id, name) (attrib w)
                 else <[(Obj id, name) := val]> (attrib w)) w,
     []).
Proof. unfold Rf_setAttrib. repeat case_decide; try done. Qed.

Lemma setAttrib_obj_nil id name w :
  Rf_setAttrib (Obj id) name R_NilValue w =
    (Ok tt, set_attrib (delete (Obj id, name) (attrib w)) w, []).
Proof. by rewrite setAttrib_obj. Qed.

Lemma setAttrib_obj_true id name w :
  Rf_setAttrib (Obj id) name (toSEXP true) w =
    (Ok tt, set_attrib (<[(Obj id, name) := toSEXP true]> (attrib w)) w, []).
Proof. by rewrite setAttrib_obj. Qed.

Lemma setCommand_walk_spec c ctxs isFirst w :
  ∃ a, setCommand_walk c ctxs isFirst w = (Ok tt, set_attrib a w, []) ∧
    (∀ x n, n ≠ stopHereFlagAttr -> a !! (x, n) = attrib w !! (x, n)) ∧
    (∀ x, x ∉ callEnvironments ctxs ->
          a !! (x, stopHereFlagAttr) = attrib w !! (x, stopHereFlagAttr)) ∧
    match c with
    | CONTINUE | STEP_INTO =>
        ∀ e, e ∈ callEnvironments ctxs -> a !! (e, stopHereFlagAttr) = None
    | STEP_OVER =>
        ∀ e, e ∈ callEnvironments ctxs -> a !! (e, stopHereFlagAttr) = Some (toSEXP true)
    | STEP_OUT =>
        if isFirst then
          match callEnvironments ctxs with
          | [] => True
          | e0 :: outer =>
              (∀ e, e ∈ outer -> a !! (e, stopHereFlagAttr) = Some (toSEXP true)) ∧
              (e0 ∉ outer -> a !! (e0, stopHereFlagAttr) = None)
          end
        else ∀ e, e ∈ callEnvironments ctxs -> a !! (e, stopHereFlagAttr) = Some (toSEXP true)
    | _ => a = attrib w
    end.
Proof.
  revert isFirst w. induction ctxs as [|ctx next IH]; intros isFirst w.
  - exists (attrib w). rewrite set_attrib_id. cbn.
    repeat split; try done.
    destruct c; try done; try (intros e He; by apply elem_of_nil in He).
    destruct isFirst; try done. intros e He; by apply elem_of_nil in He.
  - cbn [setCommand_walk]. destruct (isCallContext ctx) eqn:Hcall.
    + rewrite (callEnvironments_cons_call _ _ Hcall). unfold getEnvironment.
      set (e0 := Obj (ctx_cloenv ctx)).
      assert (Hne : ∀ x n, n ≠ stopHereFlagAttr -> (e0, stopHereFlagAttr) ≠ (x, n))
        by (intros x n Hn; congruence).
      assert (Hne' : ∀ x, x ∉ e0 :: callEnvironments next ->
                 (e0, stopHereFlagAttr) ≠ (x, stopHereFlagAttr) ∧ x ∉ callEnvironments next).
      { intros x Hx. apply not_elem_of_cons in Hx as [Hx0 Hx]. split; [congruence|done]. }
      destruct c; [| | | |destruct isFirst| |];
        (erewrite bind_ok;
           [|first [apply setAttrib_obj_nil | apply setAttrib_obj_true | reflexivity]]).
      all: match goal with
           | |- context [setCommand_walk ?c ?n false ?w1] =>
               destruct (IH false w1) as (a & Hrun & Hother & Hout & Hin)
           end; exists a; rewrite Hrun; cbn in *.
      all: split; [reflexivity|].
      all: split; [intros x n Hn; rewrite Hother by done;
                   try (rewrite ?lookup_delete_ne, ?lookup_insert_ne by auto; done)|].
      all: split; [intros x Hx; destruct (Hne' x Hx) as [Hx0 Hx1]; rewrite Hout by done;
                   try (rewrite ?lookup_delete_ne, ?lookup_insert_ne by auto; done)|].
      all: try done.
      all: try (intros e He; destruct (decide (e ∈ callEnvironments next)) as [Hi|Hi];
                [by apply Hin|];
                apply elem_of_cons in He as [->|He]; [|done];
                rewrite Hout by done;
                first [apply lookup_delete_eq | apply lookup_insert_eq]).
      split; [done|]. intros Hi. rewrite Hout by done. apply lookup_delete_eq.
    + rewrite (callEnvironments_cons_other _ _ Hcall). apply IH.
Qed.

Lemma detach_run srcref w :
  setBreakpointInfoAttrib srcref None w =
    (Ok tt, set_attrib (delete (srcref, breakpointInfoAttr) (attrib w)) w, []).
Proof. unfold setBreakpointInfoAttrib, Rf_setAttrib. by rewrite decide_True. Qed.

Lemma armTarget_run srcref p w :
  armTarget srcref p w =
    (Ok tt,
     if decide (srcref ≠ R_NilValue) then
       set_attrib (<[(srcref, breakpointInfoAttr) := ExtPtr p]> (attrib w))
         (set_rdebug (rdebug w ∪ {[srcref]}) w)
     else w,
     []).
Proof.
  unfold armTarget. case_decide as Hs; [|done].
  erewrite bind_ok by reflexivity.
  unfold setBreakpointInfoAttrib, Rf_setAttrib.
  rewrite decide_False by done. by rewrite decide_False by done.
Qed.

(** [refreshBreakpoint] never fails; it touches the node of its key, the
    debug bits and the attached pointers, and arms only the resolved target
    of a stored breakpoint. *)
Lemma refreshBreakpoint_spec file line w :
  ∃ n d a,
    refreshBreakpoint file line w = (Ok tt, set_infoNodes n (set_rdebug d (set_attrib a w)), []) ∧
    (∀ x nm, nm ≠ breakpointInfoAttr -> a !! (x, nm) = attrib w !! (x, nm)) ∧
    (∀ p, from_option ibi_info defaultBreakpointInfo (n !! p)
          = from_option ibi_info defaultBreakpointInfo (infoNodes w !! p)) ∧
    (∀ p, is_Some (n !! p) <-> is_Some (infoNodes w !! p)) ∧
    (∀ t, t ∈ d -> t ∈ rdebug w ∨
       ∃ lines p, breakpoints w !! file = Some lines ∧ lines !! line = Some p ∧
                  getStepSrcref file line = t).
Proof.
  unfold refreshBreakpoint.
  erewrite bind_ok by reflexivity.
  destruct (breakpoints w !! file) as [lines|] eqn:Hf; cycle 1.
  { exists (infoNodes w), (rdebug w), (attrib w). split; [by destruct w|]. 
    repeat split; auto. }
  destruct (lines !! line) as [p|] eqn:Hl; cycle 1.
  { exists (infoNodes w), (rdebug w), (attrib w). split; [by destruct w|]. 
    repeat split; auto. }
  erewrite bind_ok by apply detach_run.
  erewrite bind_ok by reflexivity.
  erewrite bind_ok by reflexivity.
  rewrite armTarget_run. cbn.
  set (old := node_srcref w p). set (new := getStepSrcref file line).
  pose (n := infoNodes (set_node_srcref p new w)).
  assert (Hinfo : ∀ q, from_option ibi_info defaultBreakpointInfo (n !! q)
          = from_option ibi_info defaultBreakpointInfo (infoNodes w !! q)).
  { intros q. subst n. cbn. destruct (decide (p = q)) as [->|Hq].
    - rewrite lookup_alter_eq. by destruct (infoNodes w !! q).
    - by rewrite lookup_alter_ne. }
  assert (Hdom : ∀ q, is_Some (n !! q) <-> is_Some (infoNodes w !! q)).
  { intros q. subst n. cbn. destruct (decide (p = q)) as [->|Hq].
    - rewrite lookup_alter_eq. by rewrite fmap_is_Some.
    - by rewrite lookup_alter_ne. }
  case_decide as Hnew.
  - exists n, (rdebug w ∖ {[old]} ∪ {[new]}),
      (<[(new, breakpointInfoAttr) := ExtPtr p]> (delete (old, breakpointInfoAttr) (attrib w))).
    split; [reflexivity|]. split; [|split; [done|split; [done|]]].
    + intros x nm Hnm. rewrite lookup_insert_ne, lookup_delete_ne by congruence. done.
    + intros t Ht. apply elem_of_union in Ht as [Ht|Ht].
      * left. by apply elem_of_difference in Ht as [Ht _].
      * right. apply elem_of_singleton in Ht. by exists lines, p.
  - exists n, (rdebug w ∖ {[old]}), (delete (old, breakpointInfoAttr) (attrib w)).
    split; [reflexivity|]. split; [|split; [done|split; [done|]]].
    + intros x nm Hnm. rewrite lookup_delete_ne by congruence. done.
    + intros t Ht. left. by apply elem_of_difference in Ht as [Ht _].
Qed.

(** [resetRunToPositionTarget] never fails and leaves no target; the old
    target stays armed only when a stored breakpoint at its position resolves
    to it. *)
Lemma resetRunToPositionTarget_spec w :
  ∃ n d a,
    resetRunToPositionTarget w = (Ok tt, touch n d a w, []) ∧
    (∀ x nm, nm ≠ breakpointInfoAttr -> a !! (x, nm) = attrib w !! (x, nm)) ∧
    (∀ p, from_option ibi_info defaultBreakpointInfo (n !! p)
          = from_option ibi_info defaultBreakpointInfo (infoNodes w !! p)) ∧
    (∀ p, is_Some (n !! p) <-> is_Some (infoNodes w !! p)) ∧
    (∀ t, t ∈ d ->
       (t ∈ rdebug w ∧ (runToPositionTarget w ≠ R_NilValue -> t ≠ runToPositionTarget w)) ∨
       ∃ lines p,
         breakpoints w !! (srcrefToPosition (runToPositionTarget w)).1 = Some lines ∧
         lines !! (srcrefToPosition (runToPositionTarget w)).2 = Some p ∧
         getStepSrcref (srcrefToPosition (runToPositionTarget w)).1
                       (srcrefToPosition (runToPositionTarget w)).2 = t).
Proof.
  unfold resetRunToPositionTarget. erewrite bind_ok by reflexivity.
  case_decide as Ht.
  - erewrite bind_ok by reflexivity.
    set (tgt := runToPositionTarget w) in *.
    set (w1 := set_rdebug (rdebug w ∖ {[tgt]}) w).
    destruct (refreshBreakpoint_spec (srcrefToPosition tgt).1 (srcrefToPosition tgt).2 w1)
      as (n & d & a & Hrun & Ha & Hinfo & Hdom & Hd).
    erewrite bind_ok by apply Hrun.
    exists n, d, a. split; [reflexivity|]. repeat split; try done.
    + by apply Hdom.
    + by apply Hdom.
    + intros t Hin. destruct (Hd t Hin) as [Hold|Hnew]; [left|by right].
      cbn in Hold. apply elem_of_difference in Hold as [Hold Hne].
      split; [done|]. intros _ ->. apply Hne. by apply elem_of_singleton.
  - exists (infoNodes w), (rdebug w), (attrib w).
    split; [by rewrite touch_id|]. repeat split; try done.
    intros t Hin. left. split; [done|]. by intros Hn.
Qed.

(** [setCommand] never fails and produces no event. *)
Lemma setCommand_spec c w :
  ∃ n d a,
    setCommand c w = (Ok tt, set_currentCommand c (touch n d a w), []) ∧
    (∀ x nm, nm ≠ breakpointInfoAttr -> nm ≠ stopHereFlagAttr ->
             a !! (x, nm) = attrib w !! (x, nm)) ∧
    (∀ p, from_option ibi_info defaultBreakpointInfo (n !! p)
          = from_option ibi_info defaultBreakpointInfo (infoNodes w !! p)) ∧
    (∀ p, is_Some (n !! p) <-> is_Some (infoNodes w !! p)) ∧
    (∀ t, t ∈ d ->
       (t ∈ rdebug w ∧ (runToPositionTarget w ≠ R_NilValue -> t ≠ runToPositionTarget w)) ∨
       ∃ lines p,
         breakpoints w !! (srcrefToPosition (runToPositionTarget w)).1 = Some lines ∧
         lines !! (srcrefToPosition (runToPositionTarget w)).2 = Some p ∧
         getStepSrcref (srcrefToPosition (runToPositionTarget w)).1
                       (srcrefToPosition (runToPositionTarget w)).2 = t) ∧
    (∀ x, x ∉ callEnvironments (R_GlobalContext w) ->
          a !! (x, stopHereFlagAttr) = attrib w !! (x, stopHereFlagAttr)) ∧
    match c with
    | CONTINUE | STEP_INTO =>
        ∀ e, e ∈ callEnvironments (R_GlobalContext w) -> a !! (e, stopHereFlagAttr) = None
    | STEP_OVER =>
        ∀ e, e ∈ callEnvironments (R_GlobalContext w) ->
             a !! (e, stopHereFlagAttr) = Some (toSEXP true)
    | STEP_OUT =>
        match callEnvironments (R_GlobalContext w) with
        | [] => True
        | e0 :: outer =>
            (∀ e, e ∈ outer -> a !! (e, stopHereFlagAttr) = Some (toSEXP true)) ∧
            (e0 ∉ outer -> a !! (e0, stopHereFlagAttr) = None)
        end
    | _ => ∀ x, a !! (x, stopHereFlagAttr) = attrib w !! (x, stopHereFlagAttr)
    end.
Proof.
  unfold setCommand. erewrite bind_ok by reflexivity.
  destruct (resetRunToPositionTarget_spec (set_currentCommand c w))
    as (n & d & a0 & Hrun & Ha0 & Hinfo & Hdom & Hd).
  erewrite bind_ok by apply Hrun.
  erewrite bind_ok by reflexivity.
  erewrite bind_ok by reflexivity. cbn [R_GlobalContext touch set_runToPositionTarget
    set_infoNodes set_rdebug set_attrib set_currentCommand].
  match goal with
  | |- context [setCommand_walk c ?ctxs true ?w1] =>
      destruct (setCommand_walk_spec c ctxs true w1) as (a & Hwalk & Hother & Hout & Hin)
  end.
  exists n, d, a. rewrite Hwalk. split; [reflexivity|]. cbn in *.
  assert (Hmark : ∀ x, a0 !! (x, stopHereFlagAttr) = attrib w !! (x, stopHereFlagAttr))
    by (intros x; by apply Ha0).
  split; [intros x nm H1 H2; rewrite Hother by done; by apply Ha0|].
  split; [done|]. split; [done|]. split; [done|].
  split; [intros x Hx; rewrite Hout by done; apply Hmark|].
  destruct c; try done; subst a; apply Hmark.
Qed.

Lemma enabled_restored b w : set_isEnabled (_isEnabled w) (set_isEnabled b w) = w.
Proof. by destruct w. Qed.

(** The evaluation of a condition always comes back with a truth value, in the state
    it was entered in. *)
Lemma checkCondition_spec condition env w :
  ∃ b evs,
    checkCondition condition env w = (Ok b, w, evs) ∧
    (evs = [] ∨ evs = [EvCondition condition env]) ∧
    (condition = "" -> b = true ∧ evs = []) ∧
    (condition ≠ "" -> evs = [EvCondition condition env]) ∧
    (condition ≠ "" -> ∀ e, parseCode condition = Throw e -> b = false) ∧
    (condition ≠ "" -> ∀ expr e, parseCode condition = Ok expr ->
        evalq expr env (set_isEnabled false w) = Throw e -> b = false) ∧
    (condition ≠ "" -> ∀ expr value e, parseCode condition = Ok expr ->
        evalq expr env (set_isEnabled false w) = Ok value ->
        asLogical value = Throw e -> b = false) ∧
    (condition ≠ "" -> ∀ expr value result, parseCode condition = Ok expr ->
        evalq expr env (set_isEnabled false w) = Ok value ->
        asLogical value = Ok result -> b = asBool result).
Proof.
  unfold checkCondition. case_decide as Hc.
  { exists true, []. repeat split; try done. by left. }
  unfold try_catch, WithDebuggerEnabled, bind, emit, liftOutcome, get, ret.
  destruct (parseCode condition) as [expr|e1] eqn:Hp; cbn.
  2:{ rewrite enabled_restored. exists false, [EvCondition condition env].
      repeat split; try done; try by right. }
  destruct (evalq expr env (set_isEnabled false w)) as [value|e2] eqn:He; cbn.
  2:{ rewrite enabled_restored. exists false, [EvCondition condition env].
      repeat split; try done; try by right. intros; congruence. }
  destruct (asLogical value) as [result|e3] eqn:Hl; cbn.
  2:{ rewrite enabled_restored. exists false, [EvCondition condition env].
      repeat split; try done; try by right. all: intros; congruence. }
  rewrite enabled_restored. exists (asBool result), [EvCondition condition env].
  repeat split; try done; try by right. all: intros; congruence.
Qed.

(** The evaluation of a log expression never fails and never suspends. *)
Lemma evaluateAndLog_spec expression env w :
  ∃ evs, evaluateAndLog expression env w = (Ok tt, w, evs) ∧ suspensions evs = 0%nat ∧
         (expression = "" -> evs = []).
Proof.
  unfold evaluateAndLog. case_decide as Hc.
  { by exists []. }
  unfold try_catch, WithDebuggerEnabled, bind, emit, liftOutcome, get, ret.
  destruct (parseCode expression) as [expr|e1]; cbn.
  2:{ rewrite enabled_restored. by eexists. }
  destruct (evalq expr env (set_isEnabled false w)) as [value|e2]; cbn.
  2:{ rewrite enabled_restored. by eexists. }
  destruct (getPrintedValue value) as [printed|e3]; cbn.
  2:{ rewrite enabled_restored. by eexists. }
  rewrite enabled_restored. by eexists.
Qed.

(** [buildStack] reads attributes only and leaves the state as it was. *)
Lemma buildStack_run contexts w :
  buildStack contexts w = (Ok (buildStack_frames w contexts), w, []).
Proof.
  destruct contexts as [|c cs]; [done|].
  unfold buildStack, WithDebuggerEnabled, bind, get, ret. cbn -[buildStack_loop].
  by rewrite enabled_restored.
Qed.

Lemma evaluate_muted bp env s w :
  breakpointsMuted w = true -> doBreakpoint_evaluate bp env s w = (Ok s, w, []).
Proof.
  intros Hm. unfold doBreakpoint_evaluate. erewrite bind_ok by reflexivity.
  rewrite Hm. by destruct bp.
Qed.

Lemma evaluate_none env s w : doBreakpoint_evaluate None env s w = (Ok s, w, []).
Proof. reflexivity. Qed.

(** With a live node the breakpoint block always yields a decision, in the
    state it was entered in, and keeps a decision to suspend. *)
Lemma evaluate_spec p node env s w :
  breakpointsMuted w = false -> infoNodes w !! p = Some node ->
  ∃ b evc evl,
    checkCondition (bp_condition (ibi_info node)) env w = (Ok b, w, evc) ∧
    suspensions (evc ++ evl) = 0%nat ∧
    doBreakpoint_evaluate (Some p) env s w =
      (Ok (if b then (if bp_suspend (ibi_info node) then true else s) else s), w,
       evc ++ evl) ∧
    (b = false -> evl = []).
Proof.
  intros Hm Hn. unfold doBreakpoint_evaluate. erewrite bind_ok by reflexivity.
  rewrite Hm, Hn. cbn [negb].
  destruct (checkCondition_spec (bp_condition (ibi_info node)) env w)
    as (b & evc & Hrun & Hevc & _).
  assert (Hs : suspensions evc = 0%nat) by (by destruct Hevc as [-> | ->]).
  unfold bind at 1. rewrite Hrun. destruct b.
  - destruct (evaluateAndLog_spec (bp_evaluateAndLog (ibi_info node)) env w)
      as (evl & Hlog & Hsl & _).
    erewrite bind_ok_events by apply Hlog. cbn.
    exists true, evc, evl. rewrite app_nil_r. repeat split; try done.
    by rewrite suspensions_app, Hs, Hsl.
  - cbn. exists false, evc, []. rewrite app_nil_r. by repeat split.
Qed.

(** A suspension: the command becomes [CONTINUE], the run-to-position target
    is gone, the stack is rebuilt and stored, and then the host is asked. *)
Lemma suspend_spec call w :
  ∃ w2 built,
    doBreakpoint_suspend call w =
      (let '(r, w3, evh) := debugPromptHandler w2 in (r, w3, EvSuspend built :: evh)) ∧
    runToPositionTarget w2 = R_NilValue ∧
    currentCommand w2 = CONTINUE ∧
    stack w2 = built ∧
    sameSession w w2 ∧
    (∀ t, RDEBUG w2 t = true ->
       (RDEBUG w t = true ∧ (runToPositionTarget w ≠ R_NilValue -> t ≠ runToPositionTarget w))
       ∨ breakpointStored w (srcrefToPosition (runToPositionTarget w)) ∧
         getStepSrcref (srcrefToPosition (runToPositionTarget w)).1
                       (srcrefToPosition (runToPositionTarget w)).2 = t).
Proof.
  unfold doBreakpoint_suspend.
  destruct (setCommand_spec CONTINUE w) as (n & d & a & Hrun & _ & _ & _ & Hd & _).
  erewrite bind_ok by apply Hrun.
  erewrite bind_ok by reflexivity.
  erewrite bind_ok by apply buildStack_run.
  erewrite bind_ok by reflexivity.
  set (w1 := set_currentCommand CONTINUE (touch n d a w)).
  set (built := buildStack_frames w1 (getContextDump call w1)).
  exists (set_stack built w1), built. split.
  { unfold bind, emit. by destruct (debugPromptHandler _) as [[r w3] evh]. }
  repeat split; try done.
  intros t Ht. unfold RDEBUG in *. cbn in Ht. apply bool_decide_eq_true in Ht.
  destruct (Hd t Ht) as [[Hin Hne]|(lines & p & H1 & H2 & H3)]; [left|right].
  - split; [by apply bool_decide_eq_true|done].
  - split; [|done]. by exists lines, p.
Qed.

Lemma doBreakpoint_off call bp isStepStop env w :
  isEnabled w = false ∨ R_interrupts_pending w = true ->
  doBreakpoint call bp isStepStop env w = (Ok tt, w, []).
Proof.
  intros Hoff. unfold doBreakpoint. erewrite bind_ok by reflexivity.
  destruct Hoff as [-> | ->]; [done|]. by rewrite orb_true_r.
Qed.

Lemma doBreakpoint_live call bp isStepStop env w :
  isEnabled w = true -> R_interrupts_pending w = false -> currentCommand w ≠ STOP ->
  doBreakpoint call bp isStepStop env w =
    (let* suspend := doBreakpoint_evaluate bp env (isStepStop || targetReached w) in
     if negb suspend then ret tt else doBreakpoint_suspend call) w.
Proof.
  intros He Hp Hc. unfold doBreakpoint. erewrite bind_ok by reflexivity.
  rewrite He, Hp. cbn [negb orb]. by rewrite decide_False.
Qed.

(** A statement that is neither a step stop nor armed goes straight to the
    evaluator. *)
Lemma doBegin_statement_plain isPhysical functionEnv srcrefs i arg rho w :
  RDEBUG w (getSrcref srcrefs i) = false ->
  match currentCommand w with
  | CONTINUE => True
  | STEP_INTO => isPhysical = false
  | STEP_OVER | STEP_OUT => Rf_getAttrib w functionEnv stopHereFlagAttr = R_NilValue
  | _ => False
  end ->
  doBegin_statement isPhysical functionEnv srcrefs i arg rho w =
    Rf_eval arg rho (set_R_Srcref (Some (getSrcref srcrefs i)) w).
Proof.
  intros Hd Hc. unfold doBegin_statement.
  erewrite bind_ok by reflexivity. erewrite bind_ok by reflexivity.
  cbn [currentCommand set_R_Srcref].
  change (RDEBUG (set_R_Srcref _ w) ?s) with (RDEBUG w s). rewrite Hd.
  change (Rf_getAttrib (set_R_Srcref _ w) ?x ?n) with (Rf_getAttrib w x n).
  destruct (currentCommand w); try done; try rewrite Hc; cbn.
  all: try (rewrite bool_decide_eq_false_2 by (by intros ?); cbn).
  all: by destruct (Rf_eval arg rho _) as [[r w2] ev2].
Qed.

Lemma getAttrib_lookup w x nm v :
  attrib w !! (x, nm) = v -> Rf_getAttrib w x nm = default R_NilValue v.
Proof. intros <-. reflexivity. Qed.

(** [setRunToPositionCommand] on a position that resolves. *)
Lemma setRunToPositionCommand_spec file line w :
  getStepSrcref file line ≠ R_NilValue ->
  ∃ w1,
    setRunToPositionCommand file line w = (Ok tt, w1, []) ∧
    runToPositionTarget w1 = getStepSrcref file line ∧
    RDEBUG w1 (getStepSrcref file line) = true ∧
    currentCommand w1 = CONTINUE ∧
    sameSession w w1 ∧
    (∀ p, is_Some (infoNodes w1 !! p) <-> is_Some (infoNodes w !! p)).
Proof.
  intros Ht. unfold setRunToPositionCommand. erewrite bind_ok by reflexivity.
  destruct (resetRunToPositionTarget_spec (set_currentCommand CONTINUE w))
    as (n & d & a & Hrun & _ & _ & Hdom & _).
  erewrite bind_ok by apply Hrun. rewrite decide_True by done.
  erewrite bind_ok by reflexivity.
  eexists. split; [reflexivity|]. cbn. repeat split; try done.
  - unfold RDEBUG. cbn. apply bool_decide_eq_true. apply elem_of_union_r.
    by apply elem_of_singleton.
  - by apply Hdom.
  - by apply Hdom.
Qed.



(** *** [R_NilValue] stays plain *)

Lemma preserves_bind {A B} P (m : M A) (k : A -> M B) :
  preserves P m -> (∀ a, preserves P (k a)) -> preserves P (bind m k).
Proof.
  intros Hm Hk w Hw. specialize (Hm w Hw). unfold stateAfter, bind in *.
  destruct (m w) as [[[a|e] w1] ev1]; [|done].
  specialize (Hk a w1 Hm). unfold stateAfter in Hk.
  by destruct (k a w1) as [[r w2] ev2].
Qed.

Lemma preserves_ret {A} P (a : A) : preserves P (ret a).
Proof. by intros w Hw. Qed.

Lemma preserves_get P : preserves P get.
Proof. by intros w Hw. Qed.

Lemma nilPlain_SET_RDEBUG x v : (v = true -> x ≠ R_NilValue) -> preserves nilPlain (SET_RDEBUG x v).
Proof.
  intros Hx w [Hd Ha]. split; [|done]. cbn. destruct v.
  - intros Hin. apply elem_of_union in Hin as [Hin|Hin]; [done|].
    apply elem_of_singleton in Hin. by apply Hx.
  - intros Hin. by apply elem_of_difference in Hin as [Hin _].
Qed.

Lemma nilPlain_setAttrib x nm val : preserves nilPlain (Rf_setAttrib x nm val).
Proof.
  intros w [Hd Ha]. unfold stateAfter, Rf_setAttrib, modify, throw.
  case_decide as Hv; [|case_decide as Hx]; cbn [fst snd]; [|done|];
    (split; [done|]); intros nm'; cbn [attrib set_attrib].
  - destruct (decide ((x, nm) = (R_NilValue, nm'))) as [Heq|Hne].
    + rewrite Heq. apply lookup_delete_eq.
    + by rewrite lookup_delete_ne.
  - rewrite lookup_insert_ne; [done|]. congruence.
Qed.

Lemma nilPlain_fields w w' :
  rdebug w' = rdebug w -> attrib w' = attrib w -> nilPlain w -> nilPlain w'.
Proof. intros Hd Ha [? ?]. split; by rewrite ?Hd, ?Ha. Qed.

Lemma nilPlain_modify f :
  (∀ w, rdebug (f w) = rdebug w ∧ attrib (f w) = attrib w) -> preserves nilPlain (modify f).
Proof. intros Hf w Hw. destruct (Hf w). by eapply nilPlain_fields. Qed.

Lemma nilPlain_armTarget srcref p : preserves nilPlain (armTarget srcref p).
Proof.
  unfold armTarget. case_decide; [|apply preserves_ret].
  apply preserves_bind; [by apply nilPlain_SET_RDEBUG|].
  intros _. destruct p; apply nilPlain_setAttrib.
Qed.

Lemma nilPlain_refreshBreakpoint file line : preserves nilPlain (refreshBreakpoint file line).
Proof.
  apply preserves_bind; [apply preserves_get|]. intros w0.
  destruct (breakpoints w0 !! file) as [lines|]; [|apply preserves_ret].
  destruct (lines !! line) as [p|]; [|apply preserves_ret].
  apply preserves_bind; [apply nilPlain_setAttrib|]. intros _.
  apply preserves_bind; [by apply nilPlain_SET_RDEBUG|]. intros _.
  apply preserves_bind; [by apply nilPlain_modify|]. intros _.
  apply nilPlain_armTarget.
Qed.

Lemma nilPlain_resetRunToPositionTarget : preserves nilPlain resetRunToPositionTarget.
Proof.
  apply preserves_bind; [apply preserves_get|]. intros w0.
  case_decide; [|apply preserves_ret].
  apply preserves_bind; [by apply nilPlain_SET_RDEBUG|]. intros _.
  apply preserves_bind; [apply nilPlain_refreshBreakpoint|]. intros _.
  by apply nilPlain_modify.
Qed.

Lemma nilPlain_setCommand_walk c ctxs isFirst :
  preserves nilPlain (setCommand_walk c ctxs isFirst).
Proof.
  revert isFirst. induction ctxs as [|ctx next IH]; intros isFirst; [apply preserves_ret|].
  cbn [setCommand_walk]. destruct (isCallContext ctx); [|apply IH].
  apply preserves_bind; [|intros _; apply IH].
  destruct c; first [apply nilPlain_setAttrib | apply preserves_ret].
Qed.

(** Every operation of the host on the store and on the command keeps
    [R_NilValue] plain. *)
Lemma nilPlain_engine file line c :
  preserves nilPlain (addBreakpoint file line) ∧
  preserves nilPlain (removeBreakpoint file line) ∧
  preserves nilPlain (refreshBreakpoint file line) ∧
  preserves nilPlain (setCommand c) ∧
  preserves nilPlain (setRunToPositionCommand file line).
Proof.
  split; [|split; [|split; [apply nilPlain_refreshBreakpoint|split]]].
  - apply preserves_bind; [apply preserves_get|]. intros w0.
    destruct (default ∅ (breakpoints w0 !! file) !! line); [apply preserves_ret|].
    apply preserves_bind; [by apply nilPlain_modify|]. intros _.
    apply preserves_bind; [by apply nilPlain_modify|]. intros _.
    apply preserves_bind; [apply nilPlain_armTarget|]. intros _. apply preserves_ret.
  - apply preserves_bind; [apply preserves_get|]. intros w0.
    destruct (breakpoints w0 !! file) as [lines|]; [|apply preserves_ret].
    destruct (lines !! line) as [p|]; [|apply preserves_ret].
    apply preserves_bind; [apply nilPlain_setAttrib|]. intros _.
    apply preserves_bind; [by apply nilPlain_SET_RDEBUG|]. intros _.
    by apply nilPlain_modify.
  - apply preserves_bind; [by apply nilPlain_modify|]. intros _.
    apply preserves_bind; [apply nilPlain_resetRunToPositionTarget|]. intros _.
    apply preserves_bind; [by apply nilPlain_modify|]. intros _.
    apply preserves_bind; [apply preserves_get|]. intros w0.
    apply nilPlain_setCommand_walk.
  - apply preserves_bind; [by apply nilPlain_modify|]. intros _.
    apply preserves_bind; [apply nilPlain_resetRunToPositionTarget|]. intros _.
    cbv zeta. case_decide; [|apply preserves_ret].
    apply preserves_bind; [by apply nilPlain_modify|]. intros _.
    by apply nilPlain_SET_RDEBUG.
Qed.

(** *** The loop of [buildStack] *)

Lemma buildStack_step_cases w st ctx :
  let st' := buildStack_step w st ctx in
  functionName st' = getCallFunctionName (cd_call ctx) ∧
  frame st' = cd_environment ctx ∧
  if isSentinelEntry w st ctx then
    frames st' = [] ∧ wasStackBottom st' = true
  else if bool_decide (cd_call ctx ≠ R_NilValue)
          && (wasStackBottom st || isPhysicalEntry w st ctx) then
    frames st' =
      frames st ++ [frameOf w st ctx (match frames st with [] => "" | _ => functionName st end)]
    ∧ wasStackBottom st' = true
  else
    frames st' = frames st ∧
    wasStackBottom st' = wasStackBottom st || isPhysicalEntry w st ctx.
Proof.
  unfold buildStack_step, isSentinelEntry, isPhysicalEntry, isPhysicalSrcref, frameOf.
  case_decide as Hs.
  - rewrite (bool_decide_eq_true_2 _ Hs). by repeat split.
  - rewrite (bool_decide_eq_false_2 _ Hs).
    destruct (bool_decide (cd_call ctx ≠ R_NilValue)
              && (wasStackBottom st || bool_decide _)) eqn:Hemit; cbn.
    + apply andb_true_iff in Hemit as [_ ->]. by repeat split.
    + by repeat split.
Qed.

(** An iteration for an entry with a source reference of its own, behind a
    plain environment. *)
Lemma buildStack_step_own w st ctx s :
  cd_srcref ctx = Some s -> s ≠ R_NilValue ->
  Rf_getAttrib w (frame st) stackBottomAttr = R_NilValue ->
  Rf_getAttrib w (frame st) realEnvAttr = R_NilValue ->
  buildStack_step w st ctx =
    {| wasStackBottom := wasStackBottom st || isPhysicalSrcref w s;
       functionName := getCallFunctionName (cd_call ctx);
       frame := cd_environment ctx;
       functionSrcref :=
         if decide (cd_function ctx ≠ R_NilValue)
         then getFunctionSrcref (cd_function ctx) (getCallFunctionName (cd_call ctx))
         else functionSrcref st;
       frames :=
         if bool_decide (cd_call ctx ≠ R_NilValue)
            && (wasStackBottom st || isPhysicalSrcref w s)
         then frames st ++
              [ {| sf_fileId := (srcrefToPosition s).1; sf_line := (srcrefToPosition s).2;
                   sf_environment := frame st;
                   sf_functionName :=
                     match frames st with [] => "" | _ => functionName st end |} ]
         else frames st |}.
Proof.
  intros Hs Hn Hb Hr. unfold buildStack_step, effectiveSrcref, isPhysicalSrcref.
  rewrite Hs, Hb, Hr. cbn [default from_option].
  rewrite (decide_False (P := s = R_NilValue)) by done.
  rewrite (decide_False (P := _ ∧ _)) by (by intros [? _]).
  rewrite (decide_False (P := R_NilValue ≠ R_NilValue)) by (by intros ?).
  by destruct (bool_decide (cd_call ctx ≠ R_NilValue) && _).
Qed.

Lemma stateBefore_S w contexts i ctx :
  contexts !! i = Some ctx ->
  stateBefore w contexts (S i) = buildStack_step w (stateBefore w contexts i) ctx.
Proof.
  intros Hi. unfold stateBefore, buildStack_loop.
  rewrite (take_S_r _ _ _ Hi). by rewrite fold_left_app.
Qed.

Lemma stateBefore_all w contexts :
  stateBefore w contexts (length contexts) = buildStack_loop w contexts buildStack_init.
Proof. unfold stateBefore. by rewrite firstn_all. Qed.

(** The frames gathered before entry [k], with the entries they stand for. *)
Lemma buildStack_prefix w contexts k :
  (k <= length contexts)%nat ->
  ∃ idx : list nat,
    StronglySorted lt idx ∧
    Forall (fun i => (i < k)%nat) idx ∧
    length idx = length (frames (stateBefore w contexts k)) ∧
    (wasStackBottom (stateBefore w contexts k) = true ->
       ∃ p, (p < k)%nat ∧ (physicalAt w contexts p = true ∨ sentinelAt w contexts p = true)) ∧
    (∀ j i, idx !! j = Some i ->
       ∃ ctx, contexts !! i = Some ctx ∧ cd_call ctx ≠ R_NilValue ∧
         visibleAt w contexts i ∧
         ∃ name,
           frames (stateBefore w contexts k) !! j
             = Some (frameOf w (stateBefore w contexts i) ctx name) ∧
           match j with
           | O => name = ""
           | S _ => ∃ i' prev, i = S i' ∧ contexts !! i' = Some prev ∧
                               name = getCallFunctionName (cd_call prev)
           end).
Proof.
  induction k as [|k IH]; intros Hk.
  { exists []. repeat split; try done. constructor. }
  destruct (lookup_lt_is_Some_2 contexts k ltac:(lia)) as [ctx Hctx].
  destruct (IH ltac:(lia)) as (idx & Hsorted & Hlt & Hlen & Hbottom & Hframes).
  rewrite (stateBefore_S _ _ _ _ Hctx).
  set (st := stateBefore w contexts k) in *.
  destruct (buildStack_step_cases w st ctx) as (_ & _ & Hcases).
  assert (Hphys : isPhysicalEntry w st ctx = physicalAt w contexts k)
    by (unfold physicalAt; by rewrite Hctx).
  assert (Hsent : isSentinelEntry w st ctx = sentinelAt w contexts k)
    by (unfold sentinelAt; by rewrite Hctx).
  assert (Hvis : wasStackBottom st || isPhysicalEntry w st ctx = true ->
            ∃ p, (p < S k)%nat ∧
                 (physicalAt w contexts p = true ∨ sentinelAt w contexts p = true)).
  { intros Hor. apply orb_true_iff in Hor as [Hb|Hp].
    - destruct (Hbottom Hb) as (p & Hp & Hor). exists p. split; [lia|done].
    - exists k. split; [lia|]. left. by rewrite <- Hphys. }
  destruct (isSentinelEntry w st ctx) eqn:Hs.
  { destruct Hcases as [Hf Hb]. exists []. rewrite Hf.
    repeat split; try done; [constructor|].
    intros _. exists k. split; [lia|]. right. by rewrite <- Hsent. }
  destruct (bool_decide (cd_call ctx ≠ R_NilValue)
            && (wasStackBottom st || isPhysicalEntry w st ctx)) eqn:Hemit.
  - destruct Hcases as [Hf Hb]. apply andb_true_iff in Hemit as [Hcall Hor].
    apply bool_decide_eq_true in Hcall.
    exists (idx ++ [k]). rewrite Hf. split; [|split; [|split; [|split]]].
    + apply StronglySorted_app_2; [|done|repeat constructor].
      intros i1 i2 Hi1 Hi2. apply list_elem_of_singleton in Hi2 as ->.
      by apply (proj1 (Forall_forall _ _) Hlt).
    + apply Forall_app. split; [|by repeat constructor].
      eapply Forall_impl; [exact Hlt|]. intros; cbn in *; lia.
    + rewrite !length_app. cbn. lia.
    + intros _. by apply Hvis.
    + intros j i Hj. apply lookup_snoc_Some in Hj as [[Hjlt Hj]|[-> <-]].
      * destruct (Hframes j i Hj) as (c & Hc & Hcall' & Hv & name & Hfr & Hname).
        exists c. repeat split; try done. exists name. split; [|done].
        rewrite lookup_app_l; [done|]. by rewrite <- Hlen.
      * exists ctx. split; [done|]. split; [done|]. split.
        { destruct (Hvis Hor) as (p & Hp & [Hphy|Hsen]).
          - left. exists p. split; [lia|done].
          - right. exists p. assert (p ≠ k) by (intros ->; congruence).
            split; [lia|done]. }
        eexists. split.
        { rewrite Hlen. rewrite lookup_app_r by lia. rewrite Nat.sub_diag. reflexivity. }
        destruct idx as [|i0 idx'].
        { cbn. by destruct (frames st). }
        destruct (frames st) as [|f fs] eqn:Hfs; [done|].
        cbn [length]. 
        assert (Hi0 : (i0 < k)%nat) by (by apply Forall_cons in Hlt as [? _]).
        destruct k as [|k']; [lia|].
        destruct (lookup_lt_is_Some_2 contexts k' ltac:(lia)) as [prev Hprev].
        exists k', prev. split; [done|]. split; [done|].
        subst st. rewrite (stateBefore_S _ _ _ _ Hprev).
        by destruct (buildStack_step_cases w (stateBefore w contexts k') prev) as (-> & _).
  - destruct Hcases as [Hf Hb]. exists idx. rewrite Hf, Hb.
    split; [done|]. split; [|split; [done|split; [done|done]]].
    eapply Forall_impl; [exact Hlt|]. intros; cbn in *; lia.
Qed.

End Properties.

(** ** The STOP command *)

(** C6. When the firing logic runs with [STOP] as current command and no
    interrupt pending, the command becomes [CONTINUE], the interrupt flag is
    raised and the interpreter's safe point is entered, which raises the
    interrupt; that is the only event, so the host's prompt is not invoked and
    neither a condition nor a log expression is evaluated.  With an interrupt
    already pending the firing logic returns at once: no event and the state
    as it was. *)
Theorem stop_interrupts_without_suspension `{Interpreter} call bp isStepStop env w :
  isEnabled w = true -> currentCommand w = STOP ->
  (R_interrupts_pending w = false ->
     ∃ w', doBreakpoint call bp isStepStop env w = (Ok tt, w', [EvInterrupt]) ∧
           currentCommand w' = CONTINUE ∧
           R_interrupts_pending w' = true ∧
           runToPositionTarget w' = R_NilValue ∧
           stack w' = stack w) ∧
  (R_interrupts_pending w = true ->
     doBreakpoint call bp isStepStop env w = (Ok tt, w, [])).
Proof.
  intros He Hc. split; intros Hp.
  - unfold doBreakpoint. erewrite bind_ok by reflexivity.
    rewrite He, Hp. cbn [negb orb]. rewrite decide_True by done.
    destruct (setCommand_spec CONTINUE w) as (n & d & a & Hrun & _).
    erewrite bind_ok by apply Hrun.
    erewrite bind_ok by reflexivity.
    eexists. split; [reflexivity|]. by cbn.
  - apply doBreakpoint_off. by right.
Qed.

Lemma stop_interrupts_without_suspension_witness :
  let w := set_currentCommand STOP Example.idle in
  (∃ w', @doBreakpoint Example.interp (Obj 1001) None true R_NilValue w
           = (Ok tt, w', [EvInterrupt]) ∧
         currentCommand w' = CONTINUE ∧ R_interrupts_pending w' = true ∧
         runToPositionTarget w' = R_NilValue ∧ stack w' = stack w).
Proof.
  intros w.
  apply (@stop_interrupts_without_suspension Example.interp (Obj 1001) None true R_NilValue w);
    reflexivity.
Defined.


(** ** Muted breakpoints *)

(** C4. After [muteBreakpoints(true)] the firing logic treats every
    breakpoint as absent: it behaves as if it had been called with a null
    [BreakpointInfo], so neither the condition nor the log expression is
    evaluated and [suspend = true] has no effect.  When the engine is live, a
    step stop or the run-to-position target still suspends, with the
    suspension as the first event, and without either of them the call returns
    with no event and the state as it was. *)
Theorem muted_breakpoints_do_not_fire `{Interpreter} call bp isStepStop env w :
  let wm := set_breakpointsMuted true w in
  muteBreakpoints true w = (Ok tt, wm, []) ∧
  doBreakpoint call bp isStepStop env wm = doBreakpoint call None isStepStop env wm ∧
  (isEnabled w = true -> R_interrupts_pending w = false -> currentCommand w ≠ STOP ->
   if isStepStop || targetReached w then
     ∃ w2 built,
       doBreakpoint call bp isStepStop env wm =
         (let '(r, w3, evh) := debugPromptHandler w2 in (r, w3, EvSuspend built :: evh)) ∧
       stack w2 = built ∧ currentCommand w2 = CONTINUE
   else doBreakpoint call bp isStepStop env wm = (Ok tt, wm, [])).
Proof.
  intros wm. split; [reflexivity|].
  assert (Hm : breakpointsMuted wm = true) by reflexivity.
  split.
  - destruct (isEnabled wm) eqn:He; [|by rewrite !doBreakpoint_off by (by left)].
    destruct (R_interrupts_pending wm) eqn:Hp; [by rewrite !doBreakpoint_off by (by right)|].
    destruct (decide (currentCommand wm = STOP)) as [Hc|Hc].
    + unfold doBreakpoint. erewrite !bind_ok by reflexivity.
      rewrite He, Hp. cbn [negb orb]. by rewrite !decide_True by done.
    + rewrite !doBreakpoint_live by done.
      unfold bind. by rewrite evaluate_muted, evaluate_none by done.
  - intros He Hp Hc.
    assert (Hrun : doBreakpoint call bp isStepStop env wm =
              if isStepStop || targetReached w
              then doBreakpoint_suspend call wm else (Ok tt, wm, [])).
    { rewrite doBreakpoint_live by done. unfold bind.
      rewrite evaluate_muted by done.
      change (targetReached wm) with (targetReached w).
      destruct (isStepStop || targetReached w); cbn [negb]; [|done].
      by destruct (doBreakpoint_suspend call wm) as [[r w3] evh]. }
    rewrite Hrun. destruct (isStepStop || targetReached w); [|done].
    destruct (suspend_spec call wm) as (w2 & built & Hs & _ & Hcmd & Hst & _).
    by exists w2, built.
Qed.

(** The breakpoint of the spec's example: ["a.r"], line 10, empty condition,
    [suspend = true]; once muted, the statement on line 10 is passed without
    an event. *)
Lemma muted_breakpoints_do_not_fire_witness :
  let w := set_R_Srcref (Some (Obj 10))
             (stateAfter (@addBreakpoint Example.interp "a.r" 10) Example.idle) in
  let wm := set_breakpointsMuted true w in
  getBreakpointInfoAttrib w (Obj 10) = Some 0%N ∧
  RDEBUG w (Obj 10) = true ∧
  @doBreakpoint Example.interp (Obj 1001) (Some 0%N) false R_NilValue wm = (Ok tt, wm, []).
Proof.
  intros w wm. split; [reflexivity|]. split; [reflexivity|].
  pose proof (@muted_breakpoints_do_not_fire Example.interp
                (Obj 1001) (Some 0%N) false R_NilValue w) as (_ & _ & Hlive).
  apply Hlive; [reflexivity|reflexivity|discriminate].
Defined.

(** ** Conditions *)

(** C5. [checkCondition] always returns a truth value and leaves the state as
    it found it: it never throws.  The empty condition is true without any
    evaluation; a condition that fails to parse, whose evaluation raises an
    error, or whose value cannot be read as a logical, is false.  A breakpoint
    whose condition comes out false does not suspend: without a step stop and
    away from the run-to-position target the firing logic returns normally
    with the evaluation of the condition as its only event. *)
Theorem condition_failure_is_false `{Interpreter} condition env w :
  ∃ b evs,
    checkCondition condition env w = (Ok b, w, evs) ∧
    suspensions evs = 0%nat ∧
    (condition = "" -> b = true ∧ evs = []) ∧
    (condition ≠ "" ->
       (∀ e, parseCode condition = Throw e -> b = false) ∧
       (∀ expr e, parseCode condition = Ok expr ->
          evalq expr env (set_isEnabled false w) = Throw e -> b = false) ∧
       (∀ expr value e, parseCode condition = Ok expr ->
          evalq expr env (set_isEnabled false w) = Ok value ->
          asLogical value = Throw e -> b = false)) ∧
    (b = false ->
     ∀ call p node,
       isEnabled w = true -> R_interrupts_pending w = false -> currentCommand w ≠ STOP ->
       breakpointsMuted w = false -> infoNodes w !! p = Some node ->
       bp_condition (ibi_info node) = condition -> targetReached w = false ->
       doBreakpoint call (Some p) false env w = (Ok tt, w, evs)).
Proof.
  destruct (checkCondition_spec condition env w)
    as (b & evs & Hrun & Hevs & Hempty & Hnon & Hparse & Heval & Hlgl & _).
  exists b, evs. split; [done|].
  split; [by destruct Hevs as [-> | ->]|].
  split; [done|].
  split; [intros Hne; split; [by apply Hparse|split; [by apply Heval|by apply Hlgl]]|].
  intros -> call p node He Hp Hc Hm Hn <- Ht.
  rewrite doBreakpoint_live by done. rewrite Ht. cbn [orb].
  destruct (evaluate_spec p node env false w Hm Hn) as (b' & evc & evl & Hrun' & _ & Hev & Hl).
  rewrite Hrun in Hrun'. injection Hrun' as <- <-.
  unfold bind. rewrite Hev. cbn. rewrite (Hl eq_refl). by rewrite !app_nil_r.
Qed.

(** A breakpoint on ["a.r"], line 10, whose condition ["1/0 > 1"] fails in
    evaluation. *)
Lemma condition_failure_is_false_witness :
  let w0 := set_R_Srcref (Some (Obj 10))
              (stateAfter (@addBreakpoint Example.interp "a.r" 10) Example.idle) in
  let node := {| ibi_srcref := Obj 10;
                 ibi_info := {| bp_suspend := true; bp_evaluateAndLog := "";
                                bp_condition := "1/0 > 1" |} |} in
  let w := set_infoNodes (<[0%N := node]> (infoNodes w0)) w0 in
  @checkCondition Example.interp "1/0 > 1" (Obj 2001) w
    = (Ok false, w, [EvCondition "1/0 > 1" (Obj 2001)]) ∧
  @doBreakpoint Example.interp (Obj 1001) (Some 0%N) false (Obj 2001) w
    = (Ok tt, w, [EvCondition "1/0 > 1" (Obj 2001)]).
Proof.
  intros w0 node w.
  destruct (@condition_failure_is_false Example.interp "1/0 > 1" (Obj 2001) w)
    as (b & evs & Hrun & _ & _ & Hfail & Hbp).
  assert (Hb : b = false).
  { destruct (Hfail ltac:(discriminate)) as (_ & Heval & _).
    apply (Heval (Obj 5000) "error in evaluation"); reflexivity. }
  assert (Hevs : evs = [EvCondition "1/0 > 1" (Obj 2001)]).
  { assert (Hc : @checkCondition Example.interp "1/0 > 1" (Obj 2001) w
                 = (Ok false, w, [EvCondition "1/0 > 1" (Obj 2001)])).
    { vm_compute. reflexivity. }
    rewrite Hc in Hrun. by injection Hrun as _ <-. }
  subst b evs. split; [exact Hrun|].
  apply (Hbp eq_refl (Obj 1001) 0%N node); try reflexivity. discriminate.
Defined.

(** ** The breakpoint store *)

(** C7. [addBreakpoint] never fails, and adding the key it has just added
    returns the address of the same [BreakpointInfo] and changes nothing: not
    the store, not the nodes, not a debug bit or an attached pointer.  The
    second call gives this answer whatever the resolver would say, so the
    step target is not resolved again. *)
Theorem addBreakpoint_idempotent `{Interpreter} file line w :
  ∃ p w1,
    addBreakpoint file line w = (Ok p, w1, []) ∧
    default ∅ (breakpoints w1 !! file) !! line = Some p ∧
    ∀ other : Interpreter, @addBreakpoint other file line w1 = (Ok p, w1, []).
Proof.
  unfold addBreakpoint at 1. erewrite bind_ok by reflexivity.
  destruct (default ∅ (breakpoints w !! file) !! line) as [p|] eqn:Hl.
  - exists p, w. split; [done|]. split; [done|].
    intros other. unfold addBreakpoint. erewrite bind_ok by reflexivity. by rewrite Hl.
  - erewrite bind_ok by reflexivity. erewrite bind_ok by reflexivity.
    erewrite bind_ok by apply armTarget_run.
    eexists _, _. split; [reflexivity|].
    assert (Hfound : ∀ w', breakpoints w' =
              <[file := <[line := nextNode w]> (default ∅ (breakpoints w !! file))]>
                (breakpoints w) ->
              default ∅ (breakpoints w' !! file) !! line = Some (nextNode w)).
    { intros w' ->. rewrite lookup_insert_eq. cbn. by rewrite lookup_insert_eq. }
    split.
    + apply Hfound. by case_decide.
    + intros other. unfold addBreakpoint. erewrite bind_ok by reflexivity.
      rewrite Hfound; [done|]. by case_decide.
Qed.



(** ** Commands *)

(** C3, counterexample.  Two call frames share one environment.  After
    [setCommand(STEP_OUT)] the walk has first cleared the marker for the
    innermost frame and then set it again for the enclosing one, so the
    innermost call frame carries a set marker. *)
Lemma setCommand_step_out_shared_environment :
  let w := Example.shared in
  let w' := stateAfter (@setCommand Example.interp STEP_OUT) w in
  @setCommand Example.interp STEP_OUT w = (Ok tt, w', []) ∧
  callEnvironments (R_GlobalContext w) = [Obj 2000; Obj 2000] ∧
  Rf_getAttrib w' (Obj 2000) stopHereFlagAttr = toSEXP true ∧
  ¬ stepOutMarkers w w'.
Proof.
  intros w w'. split; [vm_compute; reflexivity|]. split; [reflexivity|].
  assert (Hset : Rf_getAttrib w' (Obj 2000) stopHereFlagAttr = toSEXP true)
    by (vm_compute; reflexivity).
  split; [exact Hset|].
  intros [Hclear _]. vm_compute in Hclear. discriminate.
Qed.

(** C3, amended.  [setCommand(c)] never fails and makes [c] the current
    command.  On the call frames of the chain: for [CONTINUE] and [STEP_INTO]
    every marker is cleared; for [STEP_OVER] every marker is set; for
    [STEP_OUT] the marker of every enclosing call frame is set and the marker
    of the innermost call frame is cleared when no enclosing call frame
    shares its environment; for the other commands no marker of any object
    changes. *)
Theorem setCommand_markers `{Interpreter} c w :
  ∃ w',
    setCommand c w = (Ok tt, w', []) ∧
    currentCommand w' = c ∧
    R_GlobalContext w' = R_GlobalContext w ∧
    match c with
    | CONTINUE | STEP_INTO =>
        ∀ e, e ∈ callEnvironments (R_GlobalContext w) ->
             Rf_getAttrib w' e stopHereFlagAttr = R_NilValue
    | STEP_OVER =>
        ∀ e, e ∈ callEnvironments (R_GlobalContext w) ->
             Rf_getAttrib w' e stopHereFlagAttr = toSEXP true
    | STEP_OUT =>
        match callEnvironments (R_GlobalContext w) with
        | [] => True
        | innermost :: enclosing =>
            (∀ e, e ∈ enclosing -> Rf_getAttrib w' e stopHereFlagAttr = toSEXP true) ∧
            (innermost ∉ enclosing ->
               Rf_getAttrib w' innermost stopHereFlagAttr = R_NilValue)
        end
    | _ => ∀ x, Rf_getAttrib w' x stopHereFlagAttr = Rf_getAttrib w x stopHereFlagAttr
    end.
Proof.
  destruct (setCommand_spec c w) as (n & d & a & Hrun & _ & _ & _ & _ & _ & Hmark).
  eexists. split; [exact Hrun|]. split; [reflexivity|]. split; [reflexivity|].
  destruct c.
  1-2: intros e He; by apply (getAttrib_lookup _ _ _ None), Hmark.
  2: intros e He; by apply (getAttrib_lookup _ _ _ (Some (toSEXP true))), Hmark.
  2: { destruct (callEnvironments (R_GlobalContext w)) as [|e0 outer]; [done|].
       destruct Hmark as [Hset Hclear]. split.
       - intros e He. by apply (getAttrib_lookup _ _ _ (Some (toSEXP true))), Hset.
       - intros Hfresh. by apply (getAttrib_lookup _ _ _ None), Hclear. }
  all: intros x; unfold Rf_getAttrib; cbn; by rewrite Hmark.
Qed.

(** Three nested calls, each with an environment of its own, and [STEP_OUT]. *)
Lemma setCommand_markers_witness :
  let w := set_R_GlobalContext
    [ {| isCallContext := true; ctx_call := Obj 1003; ctx_function := Obj 3003;
         ctx_srcref := None; ctx_cloenv := 2003%N |};
      {| isCallContext := true; ctx_call := Obj 1002; ctx_function := Obj 3002;
         ctx_srcref := None; ctx_cloenv := 2002%N |};
      {| isCallContext := true; ctx_call := Obj 1001; ctx_function := Obj 3001;
         ctx_srcref := None; ctx_cloenv := 2001%N |} ] Example.idle in
  ∃ w', @setCommand Example.interp STEP_OUT w = (Ok tt, w', []) ∧
        currentCommand w' = STEP_OUT ∧
        Rf_getAttrib w' (Obj 2003) stopHereFlagAttr = R_NilValue ∧
        Rf_getAttrib w' (Obj 2002) stopHereFlagAttr = toSEXP true ∧
        Rf_getAttrib w' (Obj 2001) stopHereFlagAttr = toSEXP true.
Proof.
  intros w.
  destruct (@setCommand_markers Example.interp STEP_OUT w)
    as (w' & Hrun & Hcmd & _ & Hset & Hclear).
  exists w'. split; [exact Hrun|]. split; [exact Hcmd|]. split; [|split].
  - apply Hclear. intros Hin. apply elem_of_cons in Hin as [Hin|Hin]; [discriminate|].
    apply elem_of_cons in Hin as [Hin|Hin]; [discriminate|]. by apply elem_of_nil in Hin.
  - apply Hset. apply elem_of_cons. by left.
  - apply Hset. apply elem_of_cons. right. apply elem_of_cons. by left.
Defined.



(** ** Stepping into blocks *)



(** ** The stack *)

(** C1, counterexample.  No entry of the snapshot is physical, but the
    second entry follows the stack-bottom sentinel: the third entry is
    emitted, so the stack has a frame that is not at or after any physical
    frame. *)
Lemma buildStack_after_sentinel_without_physical :
  let w := Example.nested_toplevel in
  let contexts := Example.nested_snapshot in
  @buildStack Example.interp contexts w
    = (Ok [ {| sf_fileId := ""; sf_line := 0; sf_environment := Obj 2001;
               sf_functionName := "" |} ], w, []) ∧
  (∀ p, @physicalAt Example.interp w contexts p = false) ∧
  @sentinelAt Example.interp w contexts 1 = true ∧
  ¬ @onlyAfterPhysical Example.interp w contexts.
Proof.
  intros w contexts.
  assert (Hnone : ∀ p, @physicalAt Example.interp w contexts p = false).
  { intros [|[|[|p]]]; reflexivity. }
  split; [vm_compute; reflexivity|]. split; [exact Hnone|]. split; [reflexivity|].
  intros Hclaim. destruct Hclaim as [p Hp].
  - vm_compute. discriminate.
  - by rewrite Hnone in Hp.
Qed.

(** C1, amended.  [buildStack] returns, for every snapshot, frames that stand
    for entries of the snapshot in the order of the snapshot, which is
    outermost first.  Every frame stands for an entry with a call that is at
    or after the first entry whose source file is physical, or after an entry
    that followed the stack-bottom sentinel.  The first frame has the empty
    function name, and every later frame has the name used in the call of
    the entry just before its own.  In particular, for an entry that is not
    physical (the call of [f] from a synthetic top level) followed by three
    entries in a physical file with calls (the call of [g] inside [f], of [h]
    inside [g], and the current statement inside [h]; once the first of them
    is physical the bottom is reached for good), with no sentinel and no
    redirected environment, the stack is exactly the three frames in the
    environments of [f], [g] and [h], in that order. *)
Theorem buildStack_outermost_first `{Interpreter} w contexts :
  (∃ idx : list nat,
     buildStack contexts w = (Ok (buildStack_frames w contexts), w, []) ∧
     length idx = length (buildStack_frames w contexts) ∧
     StronglySorted lt idx ∧
     ∀ j i, idx !! j = Some i ->
       ∃ ctx, contexts !! i = Some ctx ∧ cd_call ctx ≠ R_NilValue ∧
         visibleAt w contexts i ∧
         ∃ name,
           buildStack_frames w contexts !! j
             = Some (frameOf w (stateBefore w contexts i) ctx name) ∧
           match j with
           | O => name = ""
           | S _ => ∃ i' prev, i = S i' ∧ contexts !! i' = Some prev ∧
                               name = getCallFunctionName (cd_call prev)
           end) ∧
  (∀ c0 c1 c2 c3 s0 s1 s2 s3,
     contexts = [c0; c1; c2; c3] ->
     cd_srcref c0 = Some s0 -> cd_srcref c1 = Some s1 ->
     cd_srcref c2 = Some s2 -> cd_srcref c3 = Some s3 ->
     s0 ≠ R_NilValue -> s1 ≠ R_NilValue -> s2 ≠ R_NilValue -> s3 ≠ R_NilValue ->
     isPhysicalSrcref w s0 = false -> isPhysicalSrcref w s1 = true ->
     cd_call c1 ≠ R_NilValue -> cd_call c2 ≠ R_NilValue -> cd_call c3 ≠ R_NilValue ->
     (∀ e, e ∈ [R_NilValue; cd_environment c0; cd_environment c1; cd_environment c2] ->
           Rf_getAttrib w e stackBottomAttr = R_NilValue ∧
           Rf_getAttrib w e realEnvAttr = R_NilValue) ->
     buildStack contexts w =
       (Ok [ {| sf_fileId := (srcrefToPosition s1).1; sf_line := (srcrefToPosition s1).2;
                sf_environment := cd_environment c0; sf_functionName := "" |};
             {| sf_fileId := (srcrefToPosition s2).1; sf_line := (srcrefToPosition s2).2;
                sf_environment := cd_environment c1;
                sf_functionName := getCallFunctionName (cd_call c1) |};
             {| sf_fileId := (srcrefToPosition s3).1; sf_line := (srcrefToPosition s3).2;
                sf_environment := cd_environment c2;
                sf_functionName := getCallFunctionName (cd_call c2) |} ],
        w, [])).
Proof.
  split.
  - destruct (buildStack_prefix w contexts (length contexts) ltac:(lia))
      as (idx & Hsorted & _ & Hlen & _ & Hframes).
    rewrite stateBefore_all in *. fold (buildStack_frames w contexts) in *.
    exists idx. split; [apply buildStack_run|]. by repeat split.
  - intros c0 c1 c2 c3 s0 s1 s2 s3 -> H0 H1 H2 H3 N0 N1 N2 N3 P0 P1 C1 C2 C3 Hplain.
    rewrite buildStack_run. f_equal. f_equal.
    assert (Hb : ∀ e, e ∈ [R_NilValue; cd_environment c0; cd_environment c1; cd_environment c2]
               -> Rf_getAttrib w e stackBottomAttr = R_NilValue)
      by (intros e He; by apply Hplain).
    assert (Hr : ∀ e, e ∈ [R_NilValue; cd_environment c0; cd_environment c1; cd_environment c2]
               -> Rf_getAttrib w e realEnvAttr = R_NilValue)
      by (intros e He; by apply Hplain).
    unfold buildStack_frames, buildStack_loop. cbn [fold_left].
    rewrite (buildStack_step_own w _ c0 s0 H0 N0)
      by (cbn; first [apply Hb | apply Hr]; apply list_elem_of_here).
    cbn [wasStackBottom frames functionName frame buildStack_init orb].
    rewrite P0, andb_false_r.
    rewrite (buildStack_step_own w _ c1 s1 H1 N1)
      by (cbn; first [apply Hb | apply Hr]; apply list_elem_of_further, list_elem_of_here).
    cbn [wasStackBottom frames functionName frame orb].
    rewrite P1, (bool_decide_eq_true_2 _ C1). cbn [andb app].
    rewrite (buildStack_step_own w _ c2 s2 H2 N2)
      by (cbn; first [apply Hb | apply Hr];
          do 2 apply list_elem_of_further; apply list_elem_of_here).
    cbn [wasStackBottom frames functionName frame orb].
    rewrite (bool_decide_eq_true_2 _ C2). cbn [andb app].
    rewrite (buildStack_step_own w _ c3 s3 H3 N3)
      by (cbn; first [apply Hb | apply Hr];
          do 3 apply list_elem_of_further; apply list_elem_of_here).
    cbn [wasStackBottom frames functionName frame orb].
    rewrite (bool_decide_eq_true_2 _ C3). cbn [andb app]. reflexivity.
Qed.

(** Suspended at line 13 inside [h], which [g] called, which [f] called from
    the console: the frames of [f], [g] and [h]. *)
Lemma buildStack_outermost_first_witness :
  let w := Example.inside_h in
  @buildStack Example.interp (getContextDump (Obj 1010) w) w =
    (Ok [ {| sf_fileId := "a.r"; sf_line := 11; sf_environment := Obj 2001;
             sf_functionName := "" |};
          {| sf_fileId := "a.r"; sf_line := 12; sf_environment := Obj 2002;
             sf_functionName := "g" |};
          {| sf_fileId := "a.r"; sf_line := 13; sf_environment := Obj 2003;
             sf_functionName := "h" |} ],
     w, []).
Proof.
  intros w.
  destruct (@buildStack_outermost_first Example.interp w (getContextDump (Obj 1010) w))
    as [_ Hexample].
  apply (Hexample (dumpOfContext Example.call_f) (dumpOfContext Example.call_g)
           (dumpOfContext Example.call_h)
           {| cd_call := Obj 1010; cd_function := R_NilValue; cd_srcref := Some (Obj 13);
              cd_environment := R_NilValue |}
           (Obj 5) (Obj 11) (Obj 12) (Obj 13));
    try reflexivity; try discriminate.
  intros e He. cbn in He.
  repeat (apply elem_of_cons in He as [-> | He]); try (split; reflexivity).
  by apply elem_of_nil in He.
Defined.



(** * Further properties of the engine *)

(** ** Installing and removing the interceptor *)



(** ** The breakpoint store *)

Section Store.
Context `{Interpreter}.

Lemma lookupKey_insert w w1 file line p f l :
  breakpoints w1 =
    <[file := <[line := p]> (default ∅ (breakpoints w !! file))]> (breakpoints w) ->
  lookupKey w1 f l =
    if decide (f = file ∧ l = line) then Some p else lookupKey w f l.
Proof.
  intros Hb. unfold lookupKey. rewrite Hb.
  destruct (decide (f = file)) as [->|Hf].
  - rewrite lookup_insert_eq. simpl.
    destruct (decide (l = line)) as [->|Hl].
    + rewrite lookup_insert_eq. by rewrite decide_True.
    + rewrite lookup_insert_ne by done. rewrite decide_False; [done|]. by intros [_ ?].
  - rewrite lookup_insert_ne by done. rewrite decide_False; [done|]. by intros [? _].
Qed.

Lemma lookupKey_delete w w1 file line lines f l :
  breakpoints w !! file = Some lines ->
  breakpoints w1 = <[file := delete line lines]> (breakpoints w) ->
  lookupKey w1 f l =
    if decide (f = file ∧ l = line) then None else lookupKey w f l.
Proof.
  intros Hf Hb. unfold lookupKey. rewrite Hb.
  destruct (decide (f = file)) as [->|Hne].
  - rewrite lookup_insert_eq, Hf. simpl.
    destruct (decide (l = line)) as [->|Hl].
    + rewrite lookup_delete_eq. by rewrite decide_True.
    + rewrite lookup_delete_ne by done. rewrite decide_False; [done|]. by intros [_ ?].
  - rewrite lookup_insert_ne by done. rewrite decide_False; [done|]. by intros [? _].
Qed.

Lemma lookupKey_Some w file line p :
  lookupKey w file line = Some p ->
  ∃ lines, breakpoints w !! file = Some lines ∧ lines !! line = Some p.
Proof.
  unfold lookupKey. destruct (breakpoints w !! file) as [lines|]; cbn; [by eauto|].
  by rewrite lookup_empty.
Qed.

Lemma lookupKey_None w file line :
  lookupKey w file line = None ->
  match breakpoints w !! file with
  | Some lines => lines !! line = None
  | None => True
  end.
Proof. unfold lookupKey. by destruct (breakpoints w !! file). Qed.

(** The state [addBreakpoint] leaves for a key that was not stored. *)
Lemma addBreakpoint_fresh_run file line w :
  lookupKey w file line = None ->
  ∃ w1,
    addBreakpoint file line w = (Ok (nextNode w), w1, []) ∧
    breakpoints w1 =
      <[file := <[line := nextNode w]> (default ∅ (breakpoints w !! file))]> (breakpoints w) ∧
    infoNodes w1 =
      <[nextNode w := {| ibi_srcref := getStepSrcref file line;
                         ibi_info := defaultBreakpointInfo |}]> (infoNodes w) ∧
    nextNode w1 = N.succ (nextNode w) ∧
    rdebug w1 = (if decide (getStepSrcref file line ≠ R_NilValue)
                 then rdebug w ∪ {[getStepSrcref file line]} else rdebug w) ∧
    attrib w1 = (if decide (getStepSrcref file line ≠ R_NilValue)
                 then <[(getStepSrcref file line, breakpointInfoAttr) := ExtPtr (nextNode w)]>
                        (attrib w)
                 else attrib w) ∧
    storeOnly w w1.
Proof.
  intros Hk. unfold addBreakpoint. erewrite bind_ok by reflexivity.
  unfold lookupKey in Hk. rewrite Hk.
  erewrite bind_ok by reflexivity. erewrite bind_ok by reflexivity.
  erewrite bind_ok by apply armTarget_run.
  eexists. split; [reflexivity|].
  case_decide; cbn; unfold set_node_srcref; cbn; rewrite alter_insert_eq; by repeat split.
Qed.

(** The state [removeBreakpoint] leaves for a stored key. *)
Lemma removeBreakpoint_stored_run file line lines p w :
  breakpoints w !! file = Some lines -> lines !! line = Some p ->
  ∃ w1,
    removeBreakpoint file line w = (Ok tt, w1, []) ∧
    breakpoints w1 = <[file := delete line lines]> (breakpoints w) ∧
    infoNodes w1 = delete p (infoNodes w) ∧
    nextNode w1 = nextNode w ∧
    rdebug w1 = rdebug w ∖ {[node_srcref w p]} ∧
    attrib w1 = delete (node_srcref w p, breakpointInfoAttr) (attrib w) ∧
    storeOnly w w1.
Proof.
  intros Hf Hl. unfold removeBreakpoint. erewrite bind_ok by reflexivity.
  rewrite Hf, Hl. erewrite bind_ok by apply detach_run.
  erewrite bind_ok by reflexivity.
  eexists. split; [reflexivity|]. by repeat split.
Qed.

(** The state [refreshBreakpoint] leaves for a stored key. *)
Lemma refreshBreakpoint_stored_run file line lines p w :
  breakpoints w !! file = Some lines -> lines !! line = Some p ->
  ∃ w1,
    refreshBreakpoint file line w = (Ok tt, w1, []) ∧
    breakpoints w1 = breakpoints w ∧
    infoNodes w1 =
      alter (fun e => {| ibi_srcref := getStepSrcref file line; ibi_info := ibi_info e |})
        p (infoNodes w) ∧
    nextNode w1 = nextNode w ∧
    rdebug w1 = (if decide (getStepSrcref file line ≠ R_NilValue)
                 then rdebug w ∖ {[node_srcref w p]} ∪ {[getStepSrcref file line]}
                 else rdebug w ∖ {[node_srcref w p]}) ∧
    attrib w1 = (if decide (getStepSrcref file line ≠ R_NilValue)
                 then <[(getStepSrcref file line, breakpointInfoAttr) := ExtPtr p]>
                        (delete (node_srcref w p, breakpointInfoAttr) (attrib w))
                 else delete (node_srcref w p, breakpointInfoAttr) (attrib w)) ∧
    storeOnly w w1.
Proof.
  intros Hf Hl. unfold refreshBreakpoint. erewrite bind_ok by reflexivity.
  rewrite Hf, Hl. erewrite bind_ok by apply detach_run.
  erewrite bind_ok by reflexivity. erewrite bind_ok by reflexivity.
  rewrite armTarget_run.
  eexists. split; [reflexivity|].
  case_decide; cbn; by repeat split.
Qed.

Lemma refreshBreakpoint_missing_run file line w :
  lookupKey w file line = None -> refreshBreakpoint file line w = (Ok tt, w, []).
Proof.
  intros Hk. apply lookupKey_None in Hk.
  unfold refreshBreakpoint. erewrite bind_ok by reflexivity.
  destruct (breakpoints w !! file) as [lines|]; [|done]. by rewrite Hk.
Qed.

Lemma removeBreakpoint_missing_run file line w :
  lookupKey w file line = None -> removeBreakpoint file line w = (Ok tt, w, []).
Proof.
  intros Hk. apply lookupKey_None in Hk.
  unfold removeBreakpoint. erewrite bind_ok by reflexivity.
  destruct (breakpoints w !! file) as [lines|]; [|done]. by rewrite Hk.
Qed.

(** What [resetRunToPositionTarget] leaves of a target: it is armed exactly
    when a stored breakpoint at its position resolves to it, and then it
    carries that breakpoint's pointer. *)
Lemma resetRunToPositionTarget_target w :
  runToPositionTarget w ≠ R_NilValue ->
  let t := runToPositionTarget w in
  let file := (srcrefToPosition t).1 in
  let line := (srcrefToPosition t).2 in
  ∃ w1,
    resetRunToPositionTarget w = (Ok tt, w1, []) ∧
    runToPositionTarget w1 = R_NilValue ∧
    currentCommand w1 = currentCommand w ∧
    R_GlobalContext w1 = R_GlobalContext w ∧
    (∀ x, attrib w1 !! (x, stopHereFlagAttr) = attrib w !! (x, stopHereFlagAttr)) ∧
    match lookupKey w file line with
    | Some p =>
        if decide (getStepSrcref file line = t)
        then t ∈ rdebug w1 ∧ attrib w1 !! (t, breakpointInfoAttr) = Some (ExtPtr p)
        else t ∉ rdebug w1
    | None => t ∉ rdebug w1
    end.
Proof.
  intros Ht t file line. unfold resetRunToPositionTarget.
  erewrite bind_ok by reflexivity. rewrite decide_True by done.
  erewrite bind_ok by reflexivity. subst line file t.
  remember (runToPositionTarget w) as t eqn:Et.
  remember ((srcrefToPosition t).1) as file eqn:Ef.
  remember ((srcrefToPosition t).2) as line eqn:El.
  set (w0 := set_rdebug (rdebug w ∖ {[t]}) w).
  assert (Hgone : t ∉ rdebug w0).
  { cbn. rewrite elem_of_difference, elem_of_singleton. tauto. }
  destruct (lookupKey w file line) as [p|] eqn:Hk.
  - destruct (lookupKey_Some w0 file line p Hk) as (lines & Hf & Hl).
    destruct (refreshBreakpoint_stored_run file line lines p w0 Hf Hl)
      as (w1 & Hrun & _ & _ & _ & Hd & Ha & Hsame).
    erewrite bind_ok by apply Hrun.
    destruct Hsame as (_ & _ & Hcmd & _ & _ & _ & _ & _ & _ & Hctx).
    eexists. split; [reflexivity|]. cbn.
    split; [done|]. split; [done|]. split; [done|]. split.
    { intros x. rewrite Ha. case_decide.
      - rewrite lookup_insert_ne by congruence. rewrite lookup_delete_ne by congruence. done.
      - rewrite lookup_delete_ne by congruence. done. }
    destruct (decide (getStepSrcref file line = t)) as [Hres|Hres].
    + assert (Hnn : getStepSrcref file line ≠ R_NilValue) by congruence.
      rewrite decide_True in Hd by done. rewrite decide_True in Ha by done. split.
      * rewrite Hd. apply elem_of_union_r. by apply elem_of_singleton.
      * rewrite Ha. apply lookup_insert_Some. left. split; [|done]. by f_equal.
    + rewrite Hd. case_decide.
      * rewrite elem_of_union, elem_of_difference, !elem_of_singleton.
        intros [[? _]|?]; [done|congruence].
      * rewrite elem_of_difference. tauto.
  - erewrite bind_ok by (by apply refreshBreakpoint_missing_run).
    eexists. split; [reflexivity|]. by cbn.
Qed.

End Store.

Section StoreInvariant.
Context `{Interpreter}.

Lemma consistent_fields w w' :
  (∀ s, attrib w' !! (s, breakpointInfoAttr) = attrib w !! (s, breakpointInfoAttr)) ->
  infoNodes w' = infoNodes w -> nextNode w' = nextNode w ->
  breakpoints w' = breakpoints w ->
  storeConsistent w -> storeConsistent w'.
Proof.
  intros Ha Hn Hx Hb (I1 & I2 & I3 & I4). unfold storeConsistent, lookupKey in *.
  rewrite Hn, Hx, Hb. split; [|split; [exact I2|split; [exact I3|exact I4]]].
  intros s p Hs. rewrite Ha in Hs. by apply I1.
Qed.

Lemma consistent_modify f :
  (∀ w, attrib (f w) = attrib w ∧ infoNodes (f w) = infoNodes w ∧
        nextNode (f w) = nextNode w ∧ breakpoints (f w) = breakpoints w) ->
  preserves storeConsistent (modify f).
Proof.
  intros Hf w Hw. destruct (Hf w) as (Ha & Hn & Hx & Hb).
  unfold stateAfter, modify. cbn [fst snd].
  apply (consistent_fields w); try done. intros s. by rewrite Ha.
Qed.

Lemma consistent_SET_RDEBUG x v : preserves storeConsistent (SET_RDEBUG x v).
Proof. by apply consistent_modify. Qed.

Lemma consistent_setAttrib_other x nm val :
  nm ≠ breakpointInfoAttr -> preserves storeConsistent (Rf_setAttrib x nm val).
Proof.
  intros Hnm w Hw. unfold stateAfter, Rf_setAttrib, modify, throw.
  case_decide; [|case_decide]; cbn [fst snd]; [|done|].
  - apply (consistent_fields w); try done. intros s. cbn.
    rewrite lookup_delete_ne; [done|]. congruence.
  - apply (consistent_fields w); try done. intros s. cbn.
    rewrite lookup_insert_ne; [done|]. congruence.
Qed.

Lemma consistent_addBreakpoint file line :
  preserves storeConsistent (addBreakpoint file line).
Proof.
  intros w Hw. destruct (lookupKey w file line) as [p|] eqn:Hk.
  { unfold stateAfter, addBreakpoint. erewrite bind_ok by reflexivity.
    unfold lookupKey in Hk. by rewrite Hk. }
  destruct (addBreakpoint_fresh_run file line w Hk)
    as (w1 & Hrun & Hb & Hn & Hx & _ & Ha & _).
  unfold stateAfter. rewrite Hrun. cbn [fst snd].
  destruct Hw as (I1 & I2 & I3 & I4).
  assert (Hfresh : infoNodes w !! nextNode w = None).
  { destruct (infoNodes w !! nextNode w) eqn:Hl; [|done].
    specialize (I2 (nextNode w) ltac:(by eexists)). lia. }
  assert (Hold : ∀ f l q, lookupKey w f l = Some q -> q ≠ nextNode w).
  { intros f l q Hq ->. destruct (I3 f l _ Hq) as [e He]. congruence. }
  split; [|split; [|split]].
  - intros s p Hs. rewrite Hn, Ha in *. case_decide as Hres.
    + apply lookup_insert_Some in Hs as [[[= <-] [= <-]]|[Hne Hs]].
      * eexists. by rewrite lookup_insert_eq.
      * destruct (I1 s p Hs) as (node & Hnode & Hsrc). exists node. split; [|done].
        rewrite lookup_insert_ne; [done|]. intros <-. congruence.
    + destruct (I1 s p Hs) as (node & Hnode & Hsrc). exists node. split; [|done].
      rewrite lookup_insert_ne; [done|]. intros <-. congruence.
  - intros p Hp. rewrite Hn, Hx in *. apply lookup_insert_is_Some in Hp as [<-|[_ Hp]].
    + lia.
    + specialize (I2 p Hp). lia.
  - intros f l p Hp. rewrite (lookupKey_insert w w1 file line (nextNode w) f l Hb) in Hp.
    rewrite Hn. case_decide.
    + injection Hp as <-. rewrite lookup_insert_eq. by eexists.
    + rewrite lookup_insert_ne; [by eapply I3|]. intros <-. by eapply Hold.
  - intros f l f' l' p Hp Hp'.
    rewrite (lookupKey_insert w w1 file line (nextNode w) f l Hb) in Hp.
    rewrite (lookupKey_insert w w1 file line (nextNode w) f' l' Hb) in Hp'.
    destruct (decide (f = file ∧ l = line)) as [[-> ->]|K1];
      destruct (decide (f' = file ∧ l' = line)) as [[-> ->]|K2]; [done| | |by eapply I4].
    + injection Hp as <-. exfalso. by eapply (Hold f' l').
    + injection Hp' as <-. exfalso. by eapply (Hold f l).
Qed.

Lemma consistent_removeBreakpoint file line :
  preserves storeConsistent (removeBreakpoint file line).
Proof.
  intros w Hw. destruct (lookupKey w file line) as [p|] eqn:Hk; cycle 1.
  { unfold stateAfter, removeBreakpoint. erewrite bind_ok by reflexivity.
    apply lookupKey_None in Hk. destruct (breakpoints w !! file); [|done]. by rewrite Hk. }
  destruct (lookupKey_Some _ _ _ _ Hk) as (lines & Hf & Hl).
  destruct (removeBreakpoint_stored_run file line lines p w Hf Hl)
    as (w1 & Hrun & Hb & Hn & Hx & _ & Ha & _).
  unfold stateAfter. rewrite Hrun. cbn [fst snd].
  destruct Hw as (I1 & I2 & I3 & I4).
  split; [|split; [|split]].
  - intros s q Hs. rewrite Hn, Ha in *.
    apply lookup_delete_Some in Hs as [Hne Hs].
    destruct (I1 s q Hs) as (node & Hnode & Hsrc). exists node. split; [|done].
    rewrite lookup_delete_ne; [done|]. intros <-.
    apply Hne. unfold node_srcref. rewrite Hnode. cbn. by rewrite Hsrc.
  - intros q Hq. rewrite Hn, Hx in *. apply I2.
    destruct Hq as [e He]. apply lookup_delete_Some in He as [_ He]. by eexists.
  - intros f l q Hq. rewrite (lookupKey_delete w w1 file line lines f l Hf Hb) in Hq.
    rewrite Hn. case_decide as Hkey; [done|].
    rewrite lookup_delete_ne; [by eapply I3|]. intros <-.
    apply Hkey. by eapply I4.
  - intros f l f' l' q Hq Hq'.
    rewrite (lookupKey_delete w w1 file line lines f l Hf Hb) in Hq.
    rewrite (lookupKey_delete w w1 file line lines f' l' Hf Hb) in Hq'.
    destruct (decide (f = file ∧ l = line)); [done|].
    destruct (decide (f' = file ∧ l' = line)); [done|]. by eapply I4.
Qed.

Lemma consistent_refreshBreakpoint file line :
  preserves storeConsistent (refreshBreakpoint file line).
Proof.
  intros w Hw. destruct (lookupKey w file line) as [p|] eqn:Hk; cycle 1.
  { unfold stateAfter, refreshBreakpoint. erewrite bind_ok by reflexivity.
    apply lookupKey_None in Hk. destruct (breakpoints w !! file); [|done]. by rewrite Hk. }
  destruct (lookupKey_Some _ _ _ _ Hk) as (lines & Hf & Hl).
  destruct (refreshBreakpoint_stored_run file line lines p w Hf Hl)
    as (w1 & Hrun & Hb & Hn & Hx & _ & Ha & _).
  unfold stateAfter. rewrite Hrun. cbn [fst snd].
  destruct Hw as (I1 & I2 & I3 & I4).
  destruct (I3 _ _ _ Hk) as [old Hold].
  assert (Hsrc : node_srcref w p = ibi_srcref old) by (unfold node_srcref; by rewrite Hold).
  assert (Hkeep : ∀ s q, delete (node_srcref w p, breakpointInfoAttr) (attrib w)
                           !! (s, breakpointInfoAttr) = Some (ExtPtr q) ->
            ∃ node, infoNodes w1 !! q = Some node ∧ ibi_srcref node = s).
  { intros s q Hs. apply lookup_delete_Some in Hs as [Hne Hs].
    destruct (I1 s q Hs) as (node & Hnode & Hs'). exists node. split; [|done].
    rewrite Hn, lookup_alter_ne; [done|]. intros <-.
    apply Hne. rewrite Hsrc. congruence. }
  split; [|split; [|split]].
  - intros s q Hs. rewrite Ha in Hs. case_decide as Hres; [|by apply Hkeep].
    apply lookup_insert_Some in Hs as [[[= <-] [= <-]]|[Hne Hs]]; [|by apply Hkeep].
    eexists. rewrite Hn, lookup_alter_eq, Hold. by cbn.
  - intros q Hq. rewrite Hx. apply I2. rewrite Hn in Hq.
    destruct (decide (p = q)) as [<-|Hne]; [by eexists|].
    by rewrite lookup_alter_ne in Hq.
  - intros f l q Hq. unfold lookupKey in Hq. rewrite Hb in Hq.
    destruct (I3 f l q Hq) as [e He]. rewrite Hn.
    destruct (decide (p = q)) as [<-|Hne].
    + rewrite lookup_alter_eq, He. by eexists.
    + rewrite lookup_alter_ne by done. by eexists.
  - intros f l f' l' q Hq Hq'. unfold lookupKey in Hq, Hq'. rewrite Hb in Hq, Hq'.
    by eapply I4.
Qed.

Lemma consistent_resetRunToPositionTarget : preserves storeConsistent resetRunToPositionTarget.
Proof.
  apply preserves_bind; [apply preserves_get|]. intros w0.
  case_decide; [|apply preserves_ret].
  apply preserves_bind; [apply consistent_SET_RDEBUG|]. intros _.
  apply preserves_bind; [apply consistent_refreshBreakpoint|]. intros _.
  by apply consistent_modify.
Qed.

Lemma consistent_setCommand_walk c ctxs isFirst :
  preserves storeConsistent (setCommand_walk c ctxs isFirst).
Proof.
  revert isFirst. induction ctxs as [|ctx next IH]; intros isFirst; [apply preserves_ret|].
  cbn [setCommand_walk]. destruct (isCallContext ctx); [|apply IH].
  apply preserves_bind; [|intros _; apply IH].
  destruct c; first [by apply consistent_setAttrib_other | apply preserves_ret].
Qed.

Lemma consistent_setCommand c : preserves storeConsistent (setCommand c).
Proof.
  apply preserves_bind; [by apply consistent_modify|]. intros _.
  apply preserves_bind; [apply consistent_resetRunToPositionTarget|]. intros _.
  apply preserves_bind; [by apply consistent_modify|]. intros _.
  apply preserves_bind; [apply preserves_get|]. intros w0.
  apply consistent_setCommand_walk.
Qed.

Lemma consistent_setRunToPositionCommand file line :
  preserves storeConsistent (setRunToPositionCommand file line).
Proof.
  apply preserves_bind; [by apply consistent_modify|]. intros _.
  apply preserves_bind; [apply consistent_resetRunToPositionTarget|]. intros _.
  cbv zeta. case_decide; [|apply preserves_ret].
  apply preserves_bind; [by apply consistent_modify|]. intros _.
  apply consistent_SET_RDEBUG.
Qed.

Lemma consistent_pointer w s p :
  storeConsistent w -> getBreakpointInfoAttrib w s = Some p ->
  ∃ node, infoNodes w !! p = Some node ∧ ibi_srcref node = s.
Proof.
  intros (I1 & _) Hp. apply I1. unfold getBreakpointInfoAttrib, Rf_getAttrib in Hp.
  destruct (attrib w !! (s, breakpointInfoAttr)) as [[| | |q]|]; cbn in Hp; try done.
  by injection Hp as ->.
Qed.

End StoreInvariant.

(** X2.  Every operation of the host on the store and on the command keeps
    the store and the attached pointers in agreement: a [BreakpointInfo]
    pointer attached to a source reference is always the address of a stored
    node whose step target is that source reference, so no pointer outlives
    its breakpoint; every key has a node of its own.  Hence the pointer that
    the interceptor reads off a source reference can always be followed. *)
Theorem store_stays_consistent `{Interpreter} file line c :
  preserves storeConsistent (addBreakpoint file line) ∧
  preserves storeConsistent (removeBreakpoint file line) ∧
  preserves storeConsistent (refreshBreakpoint file line) ∧
  preserves storeConsistent (setCommand c) ∧
  preserves storeConsistent (setRunToPositionCommand file line) ∧
  preserves storeConsistent (muteBreakpoints true) ∧
  (∀ w s p, storeConsistent w -> getBreakpointInfoAttrib w s = Some p ->
            ∃ node, infoNodes w !! p = Some node ∧ ibi_srcref node = s).
Proof.
  split; [apply consistent_addBreakpoint|]. split; [apply consistent_removeBreakpoint|].
  split; [apply consistent_refreshBreakpoint|]. split; [apply consistent_setCommand|].
  split; [apply consistent_setRunToPositionCommand|].
  split; [by apply consistent_modify|]. intros w s p. apply consistent_pointer.
Qed.

(** The idle session is consistent, and stays so through the adding and the
    removal of a breakpoint. *)
Lemma store_stays_consistent_witness :
  storeConsistent Example.idle ∧
  storeConsistent
    (stateAfter (removeBreakpoint "a.r" 10)
       (stateAfter (@addBreakpoint Example.interp "a.r" 10) Example.idle)).
Proof.
  assert (Hidle : storeConsistent Example.idle).
  { split; [|split; [|split]].
    - intros s p Hs. unfold Example.idle in Hs. cbn [attrib] in Hs.
      by rewrite lookup_empty in Hs.
    - intros p [e He]. unfold Example.idle in He. cbn [infoNodes] in He.
      by rewrite lookup_empty in He.
    - intros f l p Hp. unfold lookupKey, Example.idle in Hp. cbn [breakpoints] in Hp.
      rewrite lookup_empty in Hp. simpl in Hp. by rewrite lookup_empty in Hp.
    - intros f l f' l' p Hp. unfold lookupKey, Example.idle in Hp. cbn [breakpoints] in Hp.
      rewrite lookup_empty in Hp. simpl in Hp. by rewrite lookup_empty in Hp. }
  split; [exact Hidle|].
  destruct (@store_stays_consistent Example.interp "a.r" 10 CONTINUE) as (Hadd & Hrem & _).
  apply Hrem, Hadd, Hidle.
Defined.

(** X3.  [addBreakpoint] on a key that is not stored returns the address of a
    new node, stores the key with it, and gives the node the default
    [BreakpointInfo] and the resolved step target; the other keys keep their
    nodes.  A resolved target is armed and carries the pointer to the new
    node.  When the position does not resolve, the breakpoint is recorded all
    the same and no debug bit or attribute changes.  No other object changes
    its debug bit or its attached pointer. *)
Theorem addBreakpoint_records_key `{Interpreter} file line w :
  lookupKey w file line = None ->
  let target := getStepSrcref file line in
  ∃ w1,
    addBreakpoint file line w = (Ok (nextNode w), w1, []) ∧
    lookupKey w1 file line = Some (nextNode w) ∧
    infoNodes w1 !! nextNode w =
      Some {| ibi_srcref := target; ibi_info := defaultBreakpointInfo |} ∧
    (∀ f l, ¬ (f = file ∧ l = line) -> lookupKey w1 f l = lookupKey w f l) ∧
    (target ≠ R_NilValue ->
       RDEBUG w1 target = true ∧ getBreakpointInfoAttrib w1 target = Some (nextNode w)) ∧
    (target = R_NilValue -> rdebug w1 = rdebug w ∧ attrib w1 = attrib w) ∧
    (∀ x, x ≠ target ->
       RDEBUG w1 x = RDEBUG w x ∧
       getBreakpointInfoAttrib w1 x = getBreakpointInfoAttrib w x) ∧
    storeOnly w w1.
Proof.
  intros Hk target.
  destruct (addBreakpoint_fresh_run file line w Hk)
    as (w1 & Hrun & Hb & Hn & Hx & Hd & Ha & Hsame).
  fold target in Hn, Hd, Ha.
  exists w1. split; [done|].
  split; [by rewrite (lookupKey_insert w w1 file line (nextNode w) file line Hb), decide_True|].
  split; [by rewrite Hn, lookup_insert_eq|].
  split.
  { intros f l Hne. by rewrite (lookupKey_insert w w1 file line (nextNode w) f l Hb),
      decide_False. }
  split.
  { intros Hres. rewrite decide_True in Hd by done. rewrite decide_True in Ha by done. split.
    - unfold RDEBUG. rewrite Hd. apply bool_decide_eq_true.
      apply elem_of_union_r. by apply elem_of_singleton.
    - unfold getBreakpointInfoAttrib, Rf_getAttrib. by rewrite Ha, lookup_insert_eq. }
  split.
  { intros Hres. rewrite decide_False in Hd by (by intros ?).
    rewrite decide_False in Ha by (by intros ?). done. }
  split; [|done].
  intros x Hx'. split.
  - unfold RDEBUG. rewrite Hd. case_decide; [|done].
    apply bool_decide_ext. rewrite elem_of_union, elem_of_singleton. tauto.
  - unfold getBreakpointInfoAttrib, Rf_getAttrib. rewrite Ha. case_decide; [|done].
    rewrite lookup_insert_ne; [done|]. congruence.
Qed.

(** A breakpoint on ["a.r"], line 10, which resolves, and one on ["b.r"],
    line 3, which does not. *)
Lemma addBreakpoint_records_key_witness :
  (∃ w1, @addBreakpoint Example.interp "a.r" 10 Example.idle = (Ok 0%N, w1, []) ∧
         lookupKey w1 "a.r" 10 = Some 0%N ∧ RDEBUG w1 (Obj 10) = true) ∧
  (∃ w1, @addBreakpoint Example.interp "b.r" 3 Example.idle = (Ok 0%N, w1, []) ∧
         lookupKey w1 "b.r" 3 = Some 0%N ∧ rdebug w1 = ∅).
Proof.
  split.
  - destruct (@addBreakpoint_records_key Example.interp "a.r" 10 Example.idle)
      as (w1 & Hrun & Hkey & _ & _ & Harm & _); [reflexivity|].
    exists w1. split; [exact Hrun|]. split; [exact Hkey|]. by apply Harm.
  - destruct (@addBreakpoint_records_key Example.interp "b.r" 3 Example.idle)
      as (w1 & Hrun & Hkey & _ & _ & _ & Hinert & _); [reflexivity|].
    exists w1. split; [exact Hrun|]. split; [exact Hkey|]. by apply Hinert.
Defined.

(** X4.  Adding a breakpoint and removing it again is a round trip on the
    interpreter's objects and on the nodes: when the key was not stored, the
    next node address was free and the step target carried neither a debug
    bit nor a pointer, the debug bits, the attributes and the nodes are as
    before, and every key has the node it had. *)
Theorem add_then_remove_restores `{Interpreter} file line w :
  lookupKey w file line = None ->
  infoNodes w !! nextNode w = None ->
  getStepSrcref file line ∉ rdebug w ->
  attrib w !! (getStepSrcref file line, breakpointInfoAttr) = None ->
  ∃ w2,
    (addBreakpoint file line >> removeBreakpoint file line) w = (Ok tt, w2, []) ∧
    rdebug w2 = rdebug w ∧
    attrib w2 = attrib w ∧
    infoNodes w2 = infoNodes w ∧
    (∀ f l, lookupKey w2 f l = lookupKey w f l) ∧
    storeOnly w w2.
Proof.
  intros Hk Hfree Hbit Hattr.
  destruct (addBreakpoint_fresh_run file line w Hk)
    as (w1 & Hrun & Hb & Hn & Hx & Hd & Ha & Hsame).
  erewrite bind_ok by apply Hrun.
  set (inner := <[line := nextNode w]> (default ∅ (breakpoints w !! file))) in *.
  assert (Hf1 : breakpoints w1 !! file = Some inner) by (by rewrite Hb, lookup_insert_eq).
  assert (Hl1 : inner !! line = Some (nextNode w)) by apply lookup_insert_eq.
  destruct (removeBreakpoint_stored_run file line inner (nextNode w) w1 Hf1 Hl1)
    as (w2 & Hrun2 & Hb2 & Hn2 & Hx2 & Hd2 & Ha2 & Hsame2).
  assert (Hsrc : node_srcref w1 (nextNode w) = getStepSrcref file line).
  { unfold node_srcref. by rewrite Hn, lookup_insert_eq. }
  rewrite Hsrc in Hd2, Ha2.
  exists w2. split; [done|].
  split; [|split; [|split; [|split]]].
  - rewrite Hd2, Hd. apply leibniz_equiv. case_decide.
    + intros x. rewrite elem_of_difference, elem_of_union, elem_of_singleton.
      split; [tauto|]. intros Hx'. split; [by left|]. by intros ->.
    + apply difference_disjoint. by apply disjoint_singleton_r.
  - rewrite Ha2, Ha. case_decide; [by apply delete_insert_id|by apply delete_id].
  - rewrite Hn2, Hn. by apply delete_insert_id.
  - intros f l. rewrite (lookupKey_delete w1 w2 file line inner f l Hf1 Hb2).
    rewrite (lookupKey_insert w w1 file line (nextNode w) f l Hb).
    destruct (decide (f = file ∧ l = line)) as [[-> ->]|K]; [by rewrite Hk|done].
  - destruct Hsame as (?&?&?&?&?&?&?&?&?&?), Hsame2 as (?&?&?&?&?&?&?&?&?&?).
    repeat split; congruence.
Qed.

Lemma add_then_remove_restores_witness :
  ∃ w2,
    (@addBreakpoint Example.interp "a.r" 10 >> removeBreakpoint "a.r" 10) Example.idle
      = (Ok tt, w2, []) ∧
    rdebug w2 = ∅ ∧ attrib w2 = ∅ ∧ infoNodes w2 = ∅.
Proof.
  destruct (@add_then_remove_restores Example.interp "a.r" 10 Example.idle)
    as (w2 & Hrun & Hd & Ha & Hn & _);
    [reflexivity|reflexivity|apply not_elem_of_empty|reflexivity|].
  by exists w2.
Defined.

(** X5.  [removeBreakpoint] and [refreshBreakpoint] on a key that is not
    stored, whether its file has other breakpoints or none, do nothing: the
    state is as it was, and nothing is resolved, disarmed or detached. *)
Theorem missing_key_is_left_alone `{Interpreter} file line w :
  lookupKey w file line = None ->
  removeBreakpoint file line w = (Ok tt, w, []) ∧
  refreshBreakpoint file line w = (Ok tt, w, []).
Proof.
  intros Hk. split.
  - by apply removeBreakpoint_missing_run.
  - by apply refreshBreakpoint_missing_run.
Qed.

(** Line 11 is not stored although line 10 of the same file is. *)
Lemma missing_key_is_left_alone_witness :
  let w := stateAfter (@addBreakpoint Example.interp "a.r" 10) Example.idle in
  removeBreakpoint "a.r" 11 w = (Ok tt, w, []) ∧
  @refreshBreakpoint Example.interp "a.r" 11 w = (Ok tt, w, []).
Proof.
  intros w. apply (@missing_key_is_left_alone Example.interp "a.r" 11 w). reflexivity.
Defined.

(** X6.  [refreshBreakpoint] on a stored key never fails.  The key keeps its
    node, the node keeps its [BreakpointInfo] and takes the newly resolved
    step target, and no other node changes.  The new target, when the
    position resolves, is armed and carries the pointer to the node; the old
    target, when it is another object, is left without debug bit and without
    pointer. *)
Theorem refreshBreakpoint_moves_the_target `{Interpreter} file line p node w :
  lookupKey w file line = Some p -> infoNodes w !! p = Some node ->
  let target := getStepSrcref file line in
  ∃ w1,
    refreshBreakpoint file line w = (Ok tt, w1, []) ∧
    (∀ f l, lookupKey w1 f l = lookupKey w f l) ∧
    infoNodes w1 !! p = Some {| ibi_srcref := target; ibi_info := ibi_info node |} ∧
    (∀ q, q ≠ p -> infoNodes w1 !! q = infoNodes w !! q) ∧
    (target ≠ R_NilValue ->
       RDEBUG w1 target = true ∧ getBreakpointInfoAttrib w1 target = Some p) ∧
    (ibi_srcref node ≠ target ->
       RDEBUG w1 (ibi_srcref node) = false ∧
       getBreakpointInfoAttrib w1 (ibi_srcref node) = None) ∧
    storeOnly w w1.
Proof.
  intros Hk Hnode target.
  destruct (lookupKey_Some _ _ _ _ Hk) as (lines & Hf & Hl).
  destruct (refreshBreakpoint_stored_run file line lines p w Hf Hl)
    as (w1 & Hrun & Hb & Hn & Hx & Hd & Ha & Hsame).
  fold target in Hn, Hd, Ha.
  assert (Hsrc : node_srcref w p = ibi_srcref node)
    by (unfold node_srcref; by rewrite Hnode).
  rewrite Hsrc in Hd, Ha.
  exists w1. split; [done|].
  split; [intros f l; unfold lookupKey; by rewrite Hb|].
  split; [by rewrite Hn, lookup_alter_eq, Hnode|].
  split; [intros q Hq; by rewrite Hn, lookup_alter_ne|].
  split.
  { intros Hres. rewrite decide_True in Hd by done. rewrite decide_True in Ha by done. split.
    - unfold RDEBUG. rewrite Hd. apply bool_decide_eq_true.
      apply elem_of_union_r. by apply elem_of_singleton.
    - unfold getBreakpointInfoAttrib, Rf_getAttrib. by rewrite Ha, lookup_insert_eq. }
  split; [|done].
  intros Hmoved. split.
  - unfold RDEBUG. rewrite Hd. apply bool_decide_eq_false. case_decide.
    + rewrite elem_of_union, elem_of_difference, !elem_of_singleton. tauto.
    + rewrite elem_of_difference, elem_of_singleton. tauto.
  - unfold getBreakpointInfoAttrib, Rf_getAttrib. rewrite Ha. case_decide.
    + rewrite lookup_insert_ne by congruence. by rewrite lookup_delete_eq.
    + by rewrite lookup_delete_eq.
Qed.

(** The breakpoint on ["a.r"], line 10, is refreshed with its
    [BreakpointInfo] changed by the host in between. *)
Lemma refreshBreakpoint_moves_the_target_witness :
  let w0 := stateAfter (@addBreakpoint Example.interp "a.r" 10) Example.idle in
  let node := {| ibi_srcref := Obj 10;
                 ibi_info := {| bp_suspend := false; bp_evaluateAndLog := "x";
                                bp_condition := "" |} |} in
  let w := set_infoNodes (<[0%N := node]> (infoNodes w0)) w0 in
  ∃ w1, @refreshBreakpoint Example.interp "a.r" 10 w = (Ok tt, w1, []) ∧
        infoNodes w1 !! 0%N = Some node ∧
        RDEBUG w1 (Obj 10) = true ∧ getBreakpointInfoAttrib w1 (Obj 10) = Some 0%N.
Proof.
  intros w0 node w.
  destruct (@refreshBreakpoint_moves_the_target Example.interp "a.r" 10 0%N node w)
    as (w1 & Hrun & _ & Hnode & _ & Harm & _); [reflexivity|reflexivity|].
  exists w1. split; [exact Hrun|]. split; [exact Hnode|]. by apply Harm.
Defined.

(** ** Commands and the run-to-position target *)

(** X7.  A command that clears a run-to-position target spares the
    breakpoint of the same place: when a breakpoint is stored at the position
    of the target and its key resolves to the target, the target is armed
    after [setCommand] and carries the pointer to that breakpoint.  In every
    other case the target is left without debug bit. *)
Theorem setCommand_spares_the_breakpoint `{Interpreter} c w :
  runToPositionTarget w ≠ R_NilValue ->
  let t := runToPositionTarget w in
  let file := (srcrefToPosition t).1 in
  let line := (srcrefToPosition t).2 in
  ∃ w',
    setCommand c w = (Ok tt, w', []) ∧
    runToPositionTarget w' = R_NilValue ∧
    match lookupKey w file line with
    | Some p =>
        if decide (getStepSrcref file line = t)
        then RDEBUG w' t = true ∧ getBreakpointInfoAttrib w' t = Some p
        else RDEBUG w' t = false
    | None => RDEBUG w' t = false
    end.
Proof.
  intros Ht t file line. unfold setCommand. erewrite bind_ok by reflexivity.
  destruct (resetRunToPositionTarget_target (set_currentCommand c w) Ht)
    as (w1 & Hrun & _ & _ & Hctx & _ & Hkey).
  erewrite bind_ok by apply Hrun.
  erewrite bind_ok by reflexivity. erewrite bind_ok by reflexivity.
  match goal with
  | |- context [setCommand_walk c ?ctxs true ?w2] =>
      destruct (setCommand_walk_spec c ctxs true w2) as (a & Hwalk & Hother & _)
  end.
  eexists. split; [exact Hwalk|]. split; [reflexivity|].
  change (runToPositionTarget (set_currentCommand c w)) with t in Hkey.
  change (lookupKey (set_currentCommand c w)) with (lookupKey w) in Hkey.
  fold file line in Hkey.
  assert (Hbit : ∀ b : bool, (if b then t ∈ rdebug w1 else t ∉ rdebug w1) ->
            RDEBUG (set_attrib a (set_runToPositionTarget R_NilValue w1)) t = b).
  { intros [] Hb; unfold RDEBUG; cbn;
      [by apply bool_decide_eq_true|by apply bool_decide_eq_false]. }
  destruct (lookupKey w file line) as [p|]; [|by apply (Hbit false)].
  case_decide; [|by apply (Hbit false)].
  destruct Hkey as [Hin Hattr]. split; [by apply (Hbit true)|].
  unfold getBreakpointInfoAttrib, Rf_getAttrib. cbn.
  rewrite Hother by done. cbn. by rewrite Hattr.
Qed.

(** Run to line 10 of ["a.r"], where a breakpoint is stored, and continue. *)
Lemma setCommand_spares_the_breakpoint_witness :
  let w := stateAfter (@setRunToPositionCommand Example.interp "a.r" 10)
             (stateAfter (@addBreakpoint Example.interp "a.r" 10) Example.idle) in
  ∃ w', @setCommand Example.interp CONTINUE w = (Ok tt, w', []) ∧
        runToPositionTarget w' = R_NilValue ∧
        RDEBUG w' (Obj 10) = true ∧ getBreakpointInfoAttrib w' (Obj 10) = Some 0%N.
Proof.
  intros w.
  destruct (@setCommand_spares_the_breakpoint Example.interp CONTINUE w)
    as (w' & Hrun & Hclr & Hkey); [discriminate|].
  exists w'. split; [exact Hrun|]. split; [exact Hclr|]. exact Hkey.
Defined.

(** X8.  [setRunToPositionCommand] never fails; it makes [CONTINUE] the
    command and changes no stop-here marker.  The target it records is what
    the position resolves to: for a position that does not resolve there is
    no target afterwards and no statement counts as reached.  A target that
    was outstanding before, when it is another object than the new one, is
    left armed only if a stored breakpoint at its position resolves to it. *)
Theorem setRunToPositionCommand_replaces_the_target `{Interpreter} file line w :
  ∃ w1,
    setRunToPositionCommand file line w = (Ok tt, w1, []) ∧
    currentCommand w1 = CONTINUE ∧
    runToPositionTarget w1 = getStepSrcref file line ∧
    (∀ x, Rf_getAttrib w1 x stopHereFlagAttr = Rf_getAttrib w x stopHereFlagAttr) ∧
    (getStepSrcref file line = R_NilValue ->
       ∀ srcref, targetReached (set_R_Srcref srcref w1) = false) ∧
    (runToPositionTarget w ≠ getStepSrcref file line ->
     RDEBUG w1 (runToPositionTarget w) = true ->
     runToPositionTarget w = R_NilValue
     ∨ breakpointStored w (srcrefToPosition (runToPositionTarget w)) ∧
       getStepSrcref (srcrefToPosition (runToPositionTarget w)).1
                     (srcrefToPosition (runToPositionTarget w)).2
         = runToPositionTarget w).
Proof.
  unfold setRunToPositionCommand. erewrite bind_ok by reflexivity.
  set (w0 := set_currentCommand CONTINUE w).
  set (old := runToPositionTarget w).
  assert (Hreset : ∃ w1,
            resetRunToPositionTarget w0 = (Ok tt, w1, []) ∧
            runToPositionTarget w1 = R_NilValue ∧
            currentCommand w1 = CONTINUE ∧
            (∀ x, attrib w1 !! (x, stopHereFlagAttr) = attrib w !! (x, stopHereFlagAttr)) ∧
            (old ∈ rdebug w1 ->
               old = R_NilValue
               ∨ breakpointStored w (srcrefToPosition old) ∧
                 getStepSrcref (srcrefToPosition old).1 (srcrefToPosition old).2 = old)).
  { destruct (decide (old = R_NilValue)) as [Hnil|Hold].
    - exists w0. unfold resetRunToPositionTarget. erewrite bind_ok by reflexivity.
      rewrite decide_False by (intros Hne; by apply Hne).
      split; [done|]. split; [done|]. split; [done|]. split; [done|]. by left.
    - destruct (resetRunToPositionTarget_target w0 Hold)
        as (w1 & Hrun & Hclr & Hcmd & _ & Hmark & Hkey).
      exists w1. split; [done|]. split; [done|]. split; [done|]. split; [done|].
      intros Hin. right.
      change (runToPositionTarget w0) with old in Hkey.
      change (lookupKey w0) with (lookupKey w) in Hkey.
      destruct (lookupKey w _ _) as [p|] eqn:Hk; [|done].
      case_decide; [|done].
      destruct (lookupKey_Some _ _ _ _ Hk) as (lines & Hf & Hl).
      split; [by exists lines, p|done]. }
  destruct Hreset as (w1 & Hrun & Hclr & Hcmd & Hmark & Hold).
  erewrite bind_ok by apply Hrun.
  assert (Hread : ∀ u, attrib u = attrib w1 -> ∀ x,
            Rf_getAttrib u x stopHereFlagAttr = Rf_getAttrib w x stopHereFlagAttr).
  { intros u Hu x. unfold Rf_getAttrib. by rewrite Hu, Hmark. }
  case_decide as Hres.
  - erewrite bind_ok by reflexivity.
    eexists. split; [reflexivity|]. split; [done|]. split; [done|].
    split; [by apply Hread|]. split; [done|].
    intros Hne Hin. apply Hold. unfold RDEBUG in Hin. apply bool_decide_eq_true in Hin.
    cbn in Hin. apply elem_of_union in Hin as [Hin|Hin]; [done|].
    apply elem_of_singleton in Hin. done.
  - exists w1. split; [done|]. split; [done|]. split; [congruence|].
    split; [by apply Hread|]. split.
    + intros _ srcref. unfold targetReached. cbn. rewrite Hclr.
      destruct (bool_decide (srcref ≠ Some R_NilValue)) eqn:Hb; [|done].
      apply bool_decide_eq_true in Hb. cbn. by apply bool_decide_eq_false.
    + intros Hne Hin. apply Hold. unfold RDEBUG in Hin. by apply bool_decide_eq_true in Hin.
Qed.

(** ** Suspension and stepping *)

Section Stepping.
Context `{Interpreter}.

(** A suspension with the state it hands to the host. *)
Lemma suspend_markers call w :
  ∃ w2,
    doBreakpoint_suspend call w =
      (let '(r, w3, evh) := debugPromptHandler w2 in
       (r, w3, EvSuspend (getStack w2) :: evh)) ∧
    getStack w2 = buildStack_frames w2 (getContextDump call w2) ∧
    currentCommand w2 = CONTINUE ∧
    runToPositionTarget w2 = R_NilValue ∧
    R_GlobalContext w2 = R_GlobalContext w ∧
    (∀ e, e ∈ callEnvironments (R_GlobalContext w) ->
          Rf_getAttrib w2 e stopHereFlagAttr = R_NilValue).
Proof.
  unfold doBreakpoint_suspend.
  destruct (setCommand_spec CONTINUE w) as (n & d & a & Hrun & _ & _ & _ & _ & _ & Hmark).
  erewrite bind_ok by apply Hrun.
  erewrite bind_ok by reflexivity.
  erewrite bind_ok by apply buildStack_run.
  erewrite bind_ok by reflexivity.
  set (w1 := set_currentCommand CONTINUE (touch n d a w)).
  set (built := buildStack_frames w1 (getContextDump call w1)).
  exists (set_stack built w1). split.
  { unfold bind, emit. by destruct (debugPromptHandler _) as [[r w3] evh]. }
  repeat split; try done.
  intros e He. apply (getAttrib_lookup _ _ _ None). by apply Hmark.
Qed.

(** What the breakpoint's expressions do before a suspension that is certain. *)
Lemma evaluate_keeps_suspend bp env w :
  (breakpointsMuted w = false -> ∀ p, bp = Some p -> is_Some (infoNodes w !! p)) ->
  ∃ pre, suspensions pre = 0%nat ∧
         doBreakpoint_evaluate bp env true w = (Ok true, w, pre).
Proof.
  intros Hvalid. destruct (breakpointsMuted w) eqn:Hm.
  { exists []. by rewrite evaluate_muted. }
  destruct bp as [p|]; [|by exists []].
  destruct (Hvalid eq_refl p eq_refl) as [node Hn].
  destruct (evaluate_spec p node env true w Hm Hn) as (b & evc & evl & _ & Hsus & Hev & _).
  exists (evc ++ evl). split; [done|]. rewrite Hev.
  by destruct b, (bp_suspend (ibi_info node)).
Qed.

(** A statement for which the switch of [doBegin] answers [stopHere = true]
    suspends before it is evaluated, when the engine is live. *)
Lemma doBegin_statement_step_stop isPhysical functionEnv srcrefs i arg rho w :
  isEnabled w = true -> R_interrupts_pending w = false ->
  (breakpointsMuted w = false ->
     ∀ p, getBreakpointInfoAttrib w (getSrcref srcrefs i) = Some p ->
          is_Some (infoNodes w !! p)) ->
  match currentCommand w with
  | STEP_INTO => isPhysical = true
  | FORCE_STEP_INTO | PAUSE => True
  | STEP_OVER | STEP_OUT => Rf_getAttrib w functionEnv stopHereFlagAttr ≠ R_NilValue
  | _ => False
  end ->
  ∃ pre w2,
    doBegin_statement isPhysical functionEnv srcrefs i arg rho w =
      (let '(r, w3, evh) := (debugPromptHandler >> Rf_eval arg rho) w2 in
       (r, w3, pre ++ EvSuspend (getStack w2) :: evh)) ∧
    suspensions pre = 0%nat ∧
    currentCommand w2 = CONTINUE ∧
    (∀ e, e ∈ callEnvironments (R_GlobalContext w) ->
          Rf_getAttrib w2 e stopHereFlagAttr = R_NilValue).
Proof.
  intros He Hp Hvalid Hstop. unfold doBegin_statement.
  erewrite !bind_ok by reflexivity. cbn [currentCommand set_R_Srcref].
  set (s := getSrcref srcrefs i) in *. set (w0 := set_R_Srcref (Some s) w).
  change (Rf_getAttrib w0 functionEnv stopHereFlagAttr)
    with (Rf_getAttrib w functionEnv stopHereFlagAttr).
  assert (Hhere : match currentCommand w with
                  | STEP_INTO => isPhysical
                  | FORCE_STEP_INTO | PAUSE | STOP => true
                  | STEP_OVER | STEP_OUT =>
                      bool_decide (Rf_getAttrib w functionEnv stopHereFlagAttr ≠ R_NilValue)
                  | _ => false
                  end = true).
  { destruct (currentCommand w); try done; by apply bool_decide_eq_true. }
  rewrite Hhere. cbn [orb].
  assert (Hcmd : currentCommand w0 ≠ STOP).
  { cbn. intros Hc. by rewrite Hc in Hstop. }
  set (bp := if RDEBUG w0 s then getBreakpointInfoAttrib w0 s else None).
  unfold bind at 1.
  rewrite (doBreakpoint_live arg bp true rho w0 He Hp Hcmd). cbn [orb].
  destruct (evaluate_keeps_suspend bp rho w0) as (pre & Hpre & Hev).
  { intros Hm p Hbp. subst bp. destruct (RDEBUG w0 s); [|done]. by apply Hvalid. }
  destruct (suspend_markers arg w0) as (w2 & Hsus & _ & Hc2 & _ & _ & Hmark).
  exists pre, w2. split; [|done].
  unfold bind at 1. rewrite Hev. cbn [negb]. rewrite Hsus.
  unfold bind.
  destruct (debugPromptHandler w2) as [[[[]|e] w3] evh]; [|done].
  destruct (Rf_eval arg rho w3) as [[r w4] ev4].
  by rewrite <- app_assoc.
Qed.

End Stepping.

(** X9.  Every suspension starts the host from a clean slate.  When a live
    call of the firing logic is a step stop or has reached the
    run-to-position target, the host is asked in a state where the command is
    [CONTINUE], no run-to-position target is outstanding and the stop-here
    marker of every call frame is cleared; the stack delivered with the
    suspension is the one [getStack] answers, and it is the stack of the
    context chain as it stands then. *)
Theorem suspension_resets_stepping `{Interpreter} call bp isStepStop env w :
  isEnabled w = true -> R_interrupts_pending w = false -> currentCommand w ≠ STOP ->
  (breakpointsMuted w = false -> ∀ p, bp = Some p -> is_Some (infoNodes w !! p)) ->
  isStepStop || targetReached w = true ->
  ∃ pre w2,
    doBreakpoint call bp isStepStop env w =
      (let '(r, w3, evh) := debugPromptHandler w2 in
       (r, w3, pre ++ EvSuspend (getStack w2) :: evh)) ∧
    suspensions pre = 0%nat ∧
    getStack w2 = buildStack_frames w2 (getContextDump call w2) ∧
    currentCommand w2 = CONTINUE ∧
    runToPositionTarget w2 = R_NilValue ∧
    (∀ e, e ∈ callEnvironments (R_GlobalContext w2) ->
          Rf_getAttrib w2 e stopHereFlagAttr = R_NilValue).
Proof.
  intros He Hp Hc Hvalid Hs. rewrite doBreakpoint_live by done. rewrite Hs.
  destruct (evaluate_keeps_suspend bp env w Hvalid) as (pre & Hpre & Hev).
  destruct (suspend_markers call w) as (w2 & Hsus & Hstack & Hcmd & Hclr & Hctx & Hmark).
  exists pre, w2. split; [|split; [done|split; [done|split; [done|split; [done|]]]]].
  - erewrite bind_ok_events by apply Hev. cbn [negb]. rewrite Hsus.
    by destruct (debugPromptHandler w2) as [[r w3] evh].
  - rewrite Hctx. exact Hmark.
Qed.

(** A step stop inside [h] after a step over: the markers that [STEP_OVER]
    had set are gone when the host is asked. *)
Lemma suspension_resets_stepping_witness :
  let w := stateAfter (@setCommand Example.interp STEP_OVER) Example.inside_h in
  Rf_getAttrib w (Obj 2003) stopHereFlagAttr = toSEXP true ∧
  ∃ pre w2,
    @doBreakpoint Example.interp (Obj 1010) None true (Obj 2003) w
      = (let '(r, w3, evh) := @debugPromptHandler Example.interp w2 in
         (r, w3, pre ++ EvSuspend (getStack w2) :: evh)) ∧
    currentCommand w2 = CONTINUE ∧
    runToPositionTarget w2 = R_NilValue.
Proof.
  intros w. split; [reflexivity|].
  destruct (@suspension_resets_stepping Example.interp (Obj 1010) None true (Obj 2003) w)
    as (pre & w2 & Hrun & _ & _ & Hcmd & Hclr & _);
    [reflexivity|reflexivity|discriminate|intros _ p Hp; discriminate Hp|reflexivity|].
  exists pre, w2. split; [exact Hrun|]. split; [exact Hcmd|exact Hclr].
Defined.

(** ** Stepping over and out *)

Section StepCommands.
Context `{Interpreter}.

(** The frame whose marker [doBegin] consults is the first one that the walk
    of [setCommand] visits. *)
Lemma getCurrentCallContext_head w :
  getEnvironment <$> getCurrentCallContext w = head (callEnvironments (R_GlobalContext w)).
Proof.
  unfold getCurrentCallContext, callEnvironments.
  induction (R_GlobalContext w) as [|ctx next IH]; [done|].
  cbn [find]. destruct (isCallContext ctx) eqn:Hc.
  - rewrite filter_cons_True by done. reflexivity.
  - rewrite filter_cons_False by (by rewrite Hc). exact IH.
Qed.

(** A store without nodes and without attached pointers is consistent. *)
Lemma consistent_empty w :
  breakpoints w = ∅ -> infoNodes w = ∅ ->
  (∀ s p, attrib w !! (s, breakpointInfoAttr) ≠ Some (ExtPtr p)) ->
  storeConsistent w.
Proof.
  intros Hb Hn Ha. split; [|split; [|split]].
  - intros s p Hs. by destruct (Ha s p).
  - intros p [e He]. rewrite Hn in He. by rewrite lookup_empty in He.
  - intros f l p Hp. unfold lookupKey in Hp. rewrite Hb in Hp.
    rewrite lookup_empty in Hp. simpl in Hp. by rewrite lookup_empty in Hp.
  - intros f l f' l' p Hp. unfold lookupKey in Hp. rewrite Hb in Hp.
    rewrite lookup_empty in Hp. simpl in Hp. by rewrite lookup_empty in Hp.
Qed.

(** The state a stepping command leaves, as far as the interceptor reads it. *)
Lemma setCommand_session c w :
  let w1 := stateAfter (setCommand c) w in
  setCommand c w = (Ok tt, w1, []) ∧
  currentCommand w1 = c ∧
  isEnabled w1 = isEnabled w ∧
  R_interrupts_pending w1 = R_interrupts_pending w ∧
  R_GlobalContext w1 = R_GlobalContext w ∧
  runToPositionTarget w1 = R_NilValue ∧
  (∀ x, x ∉ callEnvironments (R_GlobalContext w) ->
        Rf_getAttrib w1 x stopHereFlagAttr = Rf_getAttrib w x stopHereFlagAttr) ∧
  match c with
  | CONTINUE | STEP_INTO =>
      ∀ e, e ∈ callEnvironments (R_GlobalContext w) ->
           Rf_getAttrib w1 e stopHereFlagAttr = R_NilValue
  | STEP_OVER =>
      ∀ e, e ∈ callEnvironments (R_GlobalContext w) ->
           Rf_getAttrib w1 e stopHereFlagAttr = toSEXP true
  | STEP_OUT =>
      match callEnvironments (R_GlobalContext w) with
      | [] => True
      | e0 :: outer =>
          (∀ e, e ∈ outer -> Rf_getAttrib w1 e stopHereFlagAttr = toSEXP true) ∧
          (e0 ∉ outer -> Rf_getAttrib w1 e0 stopHereFlagAttr = R_NilValue)
      end
  | _ => ∀ x, Rf_getAttrib w1 x stopHereFlagAttr = Rf_getAttrib w x stopHereFlagAttr
  end.
Proof.
  intros w1.
  destruct (setCommand_spec c w) as (n & d & a & Hrun & _ & _ & _ & _ & Hout & Hin).
  assert (Hw1 : w1 = set_currentCommand c (touch n d a w))
    by (subst w1; unfold stateAfter; by rewrite Hrun).
  rewrite Hrun, Hw1. do 6 (split; [done|]). split.
  - intros x Hx. unfold Rf_getAttrib. cbn. by rewrite Hout.
  - unfold Rf_getAttrib. cbn [attrib set_currentCommand touch set_runToPositionTarget
      set_infoNodes set_rdebug set_attrib].
    destruct c; try (intros e He; by rewrite Hin); try (intros x; by rewrite Hin).
    destruct (callEnvironments (R_GlobalContext w)) as [|e0 outer]; [done|].
    destruct Hin as [Hin0 Hin1]. split.
    + intros e He. by rewrite Hin0.
    + intros He. by rewrite Hin1.
Qed.

Lemma bind_assoc {A B C} (m : M A) (k : A -> M B) (f : B -> M C) w :
  bind (bind m k) f w = bind m (fun a => bind (k a) f) w.
Proof.
  unfold bind. destruct (m w) as [[[a|e] w1] ev1]; [|done].
  destruct (k a w1) as [[[b|e] w2] ev2]; [|done].
  destruct (f b w2) as [[r w3] ev3]. by rewrite app_assoc.
Qed.

(** What [doBegin] does with a block whose opening brace is not armed. *)
Lemma doBegin_unarmed call first rest rho w :
  RDEBUG w (getSrcref (getBlockSrcrefs call) 0) = false ->
  doBegin call (first :: rest) rho w =
    (let* s :=
       doBegin_statement (blockIsPhysical w (getBlockSrcrefs call))
         (from_option getEnvironment R_NilValue (getCurrentCallContext w))
         (getBlockSrcrefs call) 1 first rho in
     let* s :=
       doBegin_loop (blockIsPhysical w (getBlockSrcrefs call))
         (from_option getEnvironment R_NilValue (getCurrentCallContext w))
         (getBlockSrcrefs call) 2 rest rho s in
     modify (set_R_Srcref (Some R_NilValue)) >> ret s)
      (set_R_Srcref (Some (getSrcref (getBlockSrcrefs call) 0)) w).
Proof.
  intros Hd. unfold doBegin.
  erewrite !bind_ok by reflexivity.
  change (RDEBUG (set_R_Srcref _ w) ?x) with (RDEBUG w x). rewrite Hd.
  erewrite bind_ok by reflexivity.
  cbn [doBegin_loop]. change (1 + 1)%Z with 2%Z.
  change (blockIsPhysical (set_R_Srcref _ w) ?x) with (blockIsPhysical w x).
  by rewrite bind_assoc.
Qed.

End StepCommands.



(** X11.  Stepping out.  After [setCommand(STEP_OUT)] on a live engine with
    a call in progress, the next statement of every enclosing call frame
    suspends before it is evaluated, while the statements of the innermost
    frame, the function being left, go straight to the evaluator unless
    their source reference is armed, provided no enclosing frame runs in
    the same environment. *)
Theorem step_out_runs_to_the_caller `{Interpreter}
    isPhysical functionEnv srcrefs i arg rho innermost enclosing w :
  isEnabled w = true -> R_interrupts_pending w = false -> storeConsistent w ->
  callEnvironments (R_GlobalContext w) = innermost :: enclosing ->
  let w1 := stateAfter (setCommand STEP_OUT) w in
  setCommand STEP_OUT w = (Ok tt, w1, []) ∧
  (functionEnv ∈ enclosing ->
   ∃ pre w2,
     doBegin_statement isPhysical functionEnv srcrefs i arg rho w1 =
       (let '(r, w3, evh) := (debugPromptHandler >> Rf_eval arg rho) w2 in
        (r, w3, pre ++ EvSuspend (getStack w2) :: evh)) ∧
     suspensions pre = 0%nat ∧
     currentCommand w2 = CONTINUE ∧
     (∀ e, e ∈ innermost :: enclosing ->
           Rf_getAttrib w2 e stopHereFlagAttr = R_NilValue)) ∧
  (functionEnv = innermost -> innermost ∉ enclosing ->
   RDEBUG w1 (getSrcref srcrefs i) = false ->
   doBegin_statement isPhysical functionEnv srcrefs i arg rho w1 =
     Rf_eval arg rho (set_R_Srcref (Some (getSrcref srcrefs i)) w1)).
Proof.
  intros He Hp Hcons Hchain w1.
  pose proof (consistent_setCommand STEP_OUT w Hcons) as Hcons1. fold w1 in Hcons1.
  destruct (setCommand_session STEP_OUT w)
    as (Hrun & Hc & He1 & Hp1 & Hctx & _ & _ & Hin).
  fold w1 in Hrun, Hc, He1, Hp1, Hctx, Hin. rewrite Hchain in Hin.
  destruct Hin as [Houter Hinner].
  split; [exact Hrun|]. split.
  - intros Hmem.
    destruct (doBegin_statement_step_stop isPhysical functionEnv srcrefs i arg rho w1)
      as (pre & w2 & Hst & Hpre & Hc2 & Hmark).
    + by rewrite He1.
    + by rewrite Hp1.
    + intros _ p Hptr.
      destruct (consistent_pointer w1 _ p Hcons1 Hptr) as (node & Hn & _). by exists node.
    + rewrite Hc. by rewrite (Houter _ Hmem).
    + exists pre, w2. rewrite Hctx, Hchain in Hmark. by repeat split.
  - intros -> Hnot Hd. apply doBegin_statement_plain; [done|].
    rewrite Hc. by apply Hinner.
Qed.

(** Inside [h], called by [g], called by [f]: after a step out, a statement
    of [h] is evaluated at once and a statement of [g] suspends. *)
Lemma step_out_runs_to_the_caller_witness :
  let w1 := stateAfter (@setCommand Example.interp STEP_OUT) Example.inside_h in
  (∃ pre w2,
     @doBegin_statement Example.interp true (Obj 2002) (Obj 1) 12 (Obj 1003) (Obj 2002) w1
       = (let '(r, w3, evh) :=
            (@debugPromptHandler Example.interp >> @Rf_eval Example.interp (Obj 1003) (Obj 2002))
              w2 in
          (r, w3, pre ++ EvSuspend (getStack w2) :: evh)) ∧
     currentCommand w2 = CONTINUE) ∧
  @doBegin_statement Example.interp true (Obj 2003) (Obj 1) 14 (Obj 1009) (Obj 2003) w1
    = (Ok R_NilValue, set_R_Srcref (Some (Obj 14)) w1, []).
Proof.
  intros w1.
  assert (Hcons : storeConsistent Example.inside_h).
  { apply consistent_empty; [reflexivity|reflexivity|].
    intros s p Hs. unfold Example.inside_h in Hs.
    cbn [attrib set_R_Srcref set_R_GlobalContext set_attrib] in Hs.
    unfold Example.sources in Hs.
    apply elem_of_list_to_map_2 in Hs.
    repeat (apply elem_of_cons in Hs as [Hs|Hs]; [discriminate Hs|]).
    by apply elem_of_nil in Hs. }
  split.
  - destruct (@step_out_runs_to_the_caller Example.interp
                true (Obj 2002) (Obj 1) 12 (Obj 1003) (Obj 2002) (Obj 2003)
                [Obj 2002; Obj 2001] Example.inside_h
                eq_refl eq_refl Hcons eq_refl) as (_ & Hstop & _).
    destruct Hstop as (pre & w2 & Hrun & _ & Hcmd & _).
    { apply list_elem_of_here. }
    exists pre, w2. split; [exact Hrun|exact Hcmd].
  - destruct (@step_out_runs_to_the_caller Example.interp
                true (Obj 2003) (Obj 1) 14 (Obj 1009) (Obj 2003) (Obj 2003)
                [Obj 2002; Obj 2001] Example.inside_h
                eq_refl eq_refl Hcons eq_refl) as (_ & _ & Hplain).
    apply Hplain; [reflexivity| |reflexivity].
    intros Hin.
    repeat (apply elem_of_cons in Hin as [Hin|Hin]; [discriminate Hin|]).
    by apply elem_of_nil in Hin.
Defined.

(** X12.  Stepping with no call in progress.  With no call context on the
    chain [doBegin] reads the stop-here marker off [R_NilValue], which never
    carries one: under [STEP_OVER] and [STEP_OUT] the first statement of a
    block at top level goes straight to the evaluator, as under [CONTINUE],
    unless the block or the statement is armed; the remaining statements
    follow in the state the evaluation leaves. *)
Theorem stepping_without_a_call_does_not_stop `{Interpreter} call first rest rho w :
  callEnvironments (R_GlobalContext w) = [] -> nilPlain w ->
  currentCommand w = STEP_OVER ∨ currentCommand w = STEP_OUT ->
  RDEBUG w (getSrcref (getBlockSrcrefs call) 0) = false ->
  RDEBUG w (getSrcref (getBlockSrcrefs call) 1) = false ->
  getCurrentCallContext w = None ∧
  doBegin call (first :: rest) rho w =
    (let* s := Rf_eval first rho in
     let* s :=
       doBegin_loop (blockIsPhysical w (getBlockSrcrefs call)) R_NilValue
         (getBlockSrcrefs call) 2 rest rho s in
     modify (set_R_Srcref (Some R_NilValue)) >> ret s)
      (set_R_Srcref (Some (getSrcref (getBlockSrcrefs call) 1)) w).
Proof.
  intros Hchain [_ Hnil] Hc Hd0 Hd1.
  assert (Hctx : getCurrentCallContext w = None).
  { pose proof (getCurrentCallContext_head w) as Hh. rewrite Hchain in Hh.
    by destruct (getCurrentCallContext w). }
  split; [exact Hctx|].
  rewrite doBegin_unarmed by done. rewrite Hctx. cbn [from_option].
  set (w0 := set_R_Srcref _ w).
  unfold bind at 1.
  rewrite (doBegin_statement_plain _ R_NilValue (getBlockSrcrefs call) 1 first rho w0).
  - reflexivity.
  - exact Hd1.
  - change (currentCommand w0) with (currentCommand w).
    change (Rf_getAttrib w0 ?x ?n) with (Rf_getAttrib w x n).
    assert (Hm : Rf_getAttrib w R_NilValue stopHereFlagAttr = R_NilValue)
      by (unfold Rf_getAttrib; by rewrite Hnil).
    by destruct Hc as [-> | ->].
Qed.

(** A block of one statement typed at the console under [STEP_OVER]. *)
Lemma stepping_without_a_call_does_not_stop_witness :
  let w := set_currentCommand STEP_OVER Example.idle in
  @doBegin Example.interp (Obj 1) [Obj 1001] R_NilValue w
    = (Ok R_NilValue, set_R_Srcref (Some R_NilValue) w, []).
Proof.
  intros w.
  destruct (@stepping_without_a_call_does_not_stop Example.interp
              (Obj 1) (Obj 1001) [] R_NilValue w) as [_ Hrun].
  - reflexivity.
  - split; [|reflexivity]. unfold w, Example.idle. cbn [rdebug set_currentCommand].
    apply not_elem_of_empty.
  - by left.
  - reflexivity.
  - reflexivity.
  - rewrite Hrun. reflexivity.
Defined.

(** ** Logging and firing *)

Section Firing.
Context `{Interpreter}.

(** The run of a log expression that is not empty. *)
Lemma evaluateAndLog_run expression env w :
  expression ≠ "" ->
  evaluateAndLog expression env w =
    (Ok tt, w,
     [EvLog expression env;
      EvMessage
        match parseCode expression with
        | Throw e => e
        | Ok expr =>
            match evalq expr env (set_isEnabled false w) with
            | Throw e => e
            | Ok value =>
                match getPrintedValue value with
                | Throw e => e
                | Ok printed => printed
                end
            end
        end]).
Proof.
  intros Hne. unfold evaluateAndLog. rewrite decide_False by done.
  unfold try_catch, WithDebuggerEnabled, bind, emit, liftOutcome, get, ret.
  destruct (parseCode expression) as [expr|e1]; cbn.
  2:{ by rewrite enabled_restored. }
  destruct (evalq expr env (set_isEnabled false w)) as [value|e2]; cbn.
  2:{ by rewrite enabled_restored. }
  destruct (getPrintedValue value) as [printed|e3]; cbn.
  all: by rewrite enabled_restored.
Qed.

(** The block of a breakpoint that is looked at: the condition decides, and
    only a condition that holds lets the log expression run. *)
Lemma evaluate_run p node env s w :
  breakpointsMuted w = false -> infoNodes w !! p = Some node ->
  ∃ holds evc evl,
    checkCondition (bp_condition (ibi_info node)) env w = (Ok holds, w, evc) ∧
    evaluateAndLog (bp_evaluateAndLog (ibi_info node)) env w = (Ok tt, w, evl) ∧
    suspensions evc = 0%nat ∧ suspensions evl = 0%nat ∧
    doBreakpoint_evaluate (Some p) env s w =
      (Ok (if holds then (if bp_suspend (ibi_info node) then true else s) else s), w,
       evc ++ (if holds then evl else [])).
Proof.
  intros Hm Hn. unfold doBreakpoint_evaluate. erewrite bind_ok by reflexivity.
  rewrite Hm, Hn. cbn [negb].
  destruct (checkCondition_spec (bp_condition (ibi_info node)) env w)
    as (b & evc & Hrun & Hevc & _).
  destruct (evaluateAndLog_spec (bp_evaluateAndLog (ibi_info node)) env w)
    as (evl & Hlog & Hsl & _).
  exists b, evc, evl. split; [done|]. split; [done|].
  split; [by destruct Hevc as [-> | ->]|]. split; [done|].
  unfold bind at 1. rewrite Hrun. destruct b.
  - erewrite bind_ok_events by apply Hlog. cbn. by rewrite app_nil_r.
  - reflexivity.
Qed.

Lemma bind_ext {A B} (m : M A) (f g : A -> M B) w :
  (∀ a w1, f a w1 = g a w1) -> bind m f w = bind m g w.
Proof.
  intros Hfg. unfold bind. destruct (m w) as [[[a|e] w1] ev1]; [|done].
  by rewrite Hfg.
Qed.

(** The loop of [doBegin] over a block that ends in [last]. *)
Lemma doBegin_loop_snoc isPhysical functionEnv srcrefs i args last rho s w :
  doBegin_loop isPhysical functionEnv srcrefs i (args ++ [last]) rho s w =
    (doBegin_loop isPhysical functionEnv srcrefs i args rho s >>
     doBegin_statement isPhysical functionEnv srcrefs (i + Z.of_nat (length args)) last rho) w.
Proof.
  revert i s w. induction args as [|arg rest IH]; intros i s w.
  - cbn [app doBegin_loop length]. replace (i + Z.of_nat 0)%Z with i by lia.
    unfold bind, ret.
    destruct (doBegin_statement _ _ _ i last rho w) as [[[v|e] w1] ev1]; [|done].
    by rewrite app_nil_r.
  - cbn [app doBegin_loop length]. rewrite bind_assoc.
    apply bind_ext. intros v w1. rewrite IH.
    by replace (i + 1 + Z.of_nat (length rest))%Z with (i + Z.of_nat (S (length rest)))%Z by lia.
Qed.

(** A statement ends in the evaluator: what it returns is what the evaluator
    returned, in the state the evaluator left. *)
Lemma doBegin_statement_result isPhysical functionEnv srcrefs i arg rho w v w' evs :
  doBegin_statement isPhysical functionEnv srcrefs i arg rho w = (Ok v, w', evs) ->
  ∃ w0 ev0, Rf_eval arg rho w0 = (Ok v, w', ev0).
Proof.
  unfold doBegin_statement. intros Hrun.
  erewrite !bind_ok in Hrun by reflexivity. unfold bind at 1 in Hrun.
  match type of Hrun with
  | context [match ?m ?u with _ => _ end] => destruct (m u) as [[[[]|e] w0] ev0]; [|done]
  end.
  destruct (Rf_eval arg rho w0) as [[r w2] ev2] eqn:Hev.
  injection Hrun as -> -> _. by exists w0, ev2.
Qed.

End Firing.

(** X13.  A log expression that is not empty is evaluated with the engine
    switched off and always ends in one message: the printed value, or the
    text of the error when parsing, evaluating or printing fails.
    [evaluateAndLog] itself never fails and leaves the state, the enabled
    flag included, as it was. *)
Theorem evaluateAndLog_reports `{Interpreter} expression env w :
  expression ≠ "" ->
  ∃ text,
    evaluateAndLog expression env w =
      (Ok tt, w, [EvLog expression env; EvMessage text]) ∧
    (∀ e, parseCode expression = Throw e -> text = e) ∧
    (∀ expr e, parseCode expression = Ok expr ->
       evalq expr env (set_isEnabled false w) = Throw e -> text = e) ∧
    (∀ expr value e, parseCode expression = Ok expr ->
       evalq expr env (set_isEnabled false w) = Ok value ->
       getPrintedValue value = Throw e -> text = e) ∧
    (∀ expr value printed, parseCode expression = Ok expr ->
       evalq expr env (set_isEnabled false w) = Ok value ->
       getPrintedValue value = Ok printed -> text = printed).
Proof.
  intros Hne. eexists. split; [by apply evaluateAndLog_run|].
  split; [by intros e ->|].
  split; [by intros expr e -> ->|].
  split; [by intros expr value e -> -> ->|].
  by intros expr value printed -> -> ->.
Qed.

(** A log expression that does not parse, and one that fails when it is
    evaluated. *)
Lemma evaluateAndLog_reports_witness :
  @evaluateAndLog Example.interp "x >" (Obj 2003) Example.inside_h
    = (Ok tt, Example.inside_h,
       [EvLog "x >" (Obj 2003); EvMessage "unexpected end of input"]) ∧
  @evaluateAndLog Example.interp "x" (Obj 2003) Example.inside_h
    = (Ok tt, Example.inside_h,
       [EvLog "x" (Obj 2003); EvMessage "error in evaluation"]).
Proof.
  split.
  - destruct (@evaluateAndLog_reports Example.interp "x >" (Obj 2003) Example.inside_h)
      as (text & Hrun & Hparse & _); [discriminate|].
    rewrite Hrun. by rewrite (Hparse "unexpected end of input" eq_refl).
  - destruct (@evaluateAndLog_reports Example.interp "x" (Obj 2003) Example.inside_h)
      as (text & Hrun & _ & Heval & _); [discriminate|].
    rewrite Hrun. by rewrite (Heval (Obj 5000) "error in evaluation" eq_refl eq_refl).
Defined.

(** X14.  A breakpoint that is reached outside of a step stop and of the
    run-to-position target fires by its condition and its flag.  The
    condition is evaluated first; the log expression is evaluated only when
    the condition holds; the host is asked only when the condition holds
    and the breakpoint is a suspending one, with the stack [getStack] then
    answers.  In every other case the call returns in the state it was
    entered in: a log point never suspends, and a breakpoint whose
    condition fails leaves no trace but the evaluation of the condition. *)
Theorem breakpoint_fires_by_condition_and_flag `{Interpreter} call p node env w :
  isEnabled w = true -> R_interrupts_pending w = false -> currentCommand w ≠ STOP ->
  breakpointsMuted w = false -> infoNodes w !! p = Some node ->
  targetReached w = false ->
  ∃ holds evc evl,
    checkCondition (bp_condition (ibi_info node)) env w = (Ok holds, w, evc) ∧
    evaluateAndLog (bp_evaluateAndLog (ibi_info node)) env w = (Ok tt, w, evl) ∧
    suspensions (evc ++ evl) = 0%nat ∧
    if holds && bp_suspend (ibi_info node) then
      ∃ w2,
        doBreakpoint call (Some p) false env w =
          (let '(r, w3, evh) := debugPromptHandler w2 in
           (r, w3, (evc ++ evl) ++ EvSuspend (getStack w2) :: evh)) ∧
        currentCommand w2 = CONTINUE
    else
      doBreakpoint call (Some p) false env w =
        (Ok tt, w, evc ++ (if holds then evl else [])).
Proof.
  intros He Hp Hc Hm Hn Ht.
  destruct (evaluate_run p node env false w Hm Hn)
    as (holds & evc & evl & Hcond & Hlog & Hsc & Hsl & Hev).
  exists holds, evc, evl. split; [done|]. split; [done|].
  split; [by rewrite suspensions_app, Hsc, Hsl|].
  rewrite doBreakpoint_live by done. rewrite Ht. cbn [orb].
  erewrite bind_ok_events by apply Hev.
  destruct holds; cbn [andb]; [destruct (bp_suspend (ibi_info node))|]; cbn [negb].
  - destruct (suspend_markers call w) as (w2 & Hsus & _ & Hcmd & _).
    exists w2. split; [|done]. rewrite Hsus.
    by destruct (debugPromptHandler w2) as [[r w3] evh].
  - unfold ret. by rewrite app_nil_r.
  - unfold ret. by rewrite app_nil_r.
Qed.

(** A log point: a stored breakpoint with no condition that does not
    suspend.  Reaching it returns at once, in the same state. *)
Lemma breakpoint_fires_by_condition_and_flag_witness :
  let node := {| ibi_srcref := Obj 13;
                 ibi_info := {| bp_suspend := false; bp_evaluateAndLog := "";
                                bp_condition := "" |} |} in
  let w := set_R_Srcref (Some (Obj 13)) (set_infoNodes {[ 0%N := node ]} Example.inside_h) in
  @doBreakpoint Example.interp (Obj 1010) (Some 0%N) false (Obj 2003) w = (Ok tt, w, []).
Proof.
  intros node w.
  destruct (@breakpoint_fires_by_condition_and_flag Example.interp
              (Obj 1010) 0%N node (Obj 2003) w)
    as (holds & evc & evl & Hcond & Hlog & _ & Hrun);
    [reflexivity|reflexivity|discriminate|reflexivity|reflexivity|reflexivity|].
  change (@checkCondition Example.interp (bp_condition (ibi_info node)) (Obj 2003) w)
    with (@Ok bool true, w, @nil Event) in Hcond.
  change (@evaluateAndLog Example.interp (bp_evaluateAndLog (ibi_info node)) (Obj 2003) w)
    with (@Ok unit tt, w, @nil Event) in Hlog.
  injection Hcond as <- <-. injection Hlog as <-.
  exact Hrun.
Defined.

(** X15.  An engine that is disabled, or that finds an interrupt pending,
    is transparent: the interceptor sets [R_Srcref] and hands every
    statement to the evaluator, whatever the command, the markers and the
    debug bits say.  A block without statements returns [R_NilValue] and
    leaves [R_Srcref] at the source reference of the block, and a block
    with statements starts with the evaluation of the first. *)
Theorem disabled_engine_is_transparent `{Interpreter}
    isPhysical functionEnv srcrefs i arg rho call w :
  isEnabled w = false ∨ R_interrupts_pending w = true ->
  doBegin_statement isPhysical functionEnv srcrefs i arg rho w =
    Rf_eval arg rho (set_R_Srcref (Some (getSrcref srcrefs i)) w) ∧
  doBegin call [] rho w =
    (Ok R_NilValue, set_R_Srcref (Some (getSrcref (getBlockSrcrefs call) 0)) w, []) ∧
  (∀ first rest,
     doBegin call (first :: rest) rho w =
       (let* s := Rf_eval first rho in
        let* s :=
          doBegin_loop (blockIsPhysical w (getBlockSrcrefs call))
            (from_option getEnvironment R_NilValue (getCurrentCallContext w))
            (getBlockSrcrefs call) 2 rest rho s in
        modify (set_R_Srcref (Some R_NilValue)) >> ret s)
         (set_R_Srcref (Some (getSrcref (getBlockSrcrefs call) 1)) w)).
Proof.
  intros Hoff.
  assert (Hskip : ∀ (b : bool) c bp s u,
            isEnabled u = false ∨ R_interrupts_pending u = true ->
            (if b then doBreakpoint c bp s rho else ret tt) u = (Ok tt, u, [])).
  { intros [] c bp s u Hu; [by apply doBreakpoint_off|done]. }
  assert (Hoff0 : ∀ x, isEnabled (set_R_Srcref x w) = false
                       ∨ R_interrupts_pending (set_R_Srcref x w) = true)
    by (intros x; exact Hoff).
  assert (Hstmt : ∀ isPhysical functionEnv srcrefs i arg u,
            isEnabled u = false ∨ R_interrupts_pending u = true ->
            doBegin_statement isPhysical functionEnv srcrefs i arg rho u =
              Rf_eval arg rho (set_R_Srcref (Some (getSrcref srcrefs i)) u)).
  { intros isPhysical' functionEnv' srcrefs' i' arg' u Hu. unfold doBegin_statement.
    erewrite !bind_ok by reflexivity.
    erewrite bind_ok by (apply Hskip; exact Hu). reflexivity. }
  split; [by apply Hstmt|]. split.
  - unfold doBegin. erewrite !bind_ok by reflexivity. cbv zeta.
    erewrite bind_ok by (apply Hskip, Hoff0). reflexivity.
  - intros first rest. unfold doBegin. erewrite !bind_ok by reflexivity. cbv zeta.
    erewrite bind_ok by (apply Hskip, Hoff0).
    cbn [doBegin_loop]. change (1 + 1)%Z with 2%Z.
    change (blockIsPhysical (set_R_Srcref _ w) ?x) with (blockIsPhysical w x).
    rewrite bind_assoc. unfold bind at 1.
    rewrite Hstmt by apply Hoff0. reflexivity.
Qed.

(** Under [PAUSE], which stops at every statement of a live engine, a
    disabled engine evaluates the statement at once. *)
Lemma disabled_engine_is_transparent_witness :
  let w := set_isEnabled false (set_currentCommand PAUSE Example.inside_h) in
  @doBegin_statement Example.interp true (Obj 2003) (Obj 1) 14 (Obj 1009) (Obj 2003) w
    = (Ok R_NilValue, set_R_Srcref (Some (Obj 14)) w, []).
Proof.
  intros w.
  destruct (@disabled_engine_is_transparent Example.interp
              true (Obj 2003) (Obj 1) 14 (Obj 1009) (Obj 2003) (Obj 1) w) as [Hrun _].
  - by left.
  - rewrite Hrun. reflexivity.
Defined.

(** X16.  The value of a block is the value of its last statement.  The
    loop of [doBegin] over statements that end in [last] is the loop over
    the statements before it followed by the pass for [last], whose source
    reference is the one at its index in the block; and when [doBegin]
    returns from a block that ends in [last], what it returns is what the
    evaluator returned for [last], and [R_Srcref] is [R_NilValue] again. *)
Theorem doBegin_returns_the_last_value `{Interpreter} call args last rho w v w' evs :
  doBegin call (args ++ [last]) rho w = (Ok v, w', evs) ->
  (∀ isPhysical functionEnv srcrefs i s u,
     doBegin_loop isPhysical functionEnv srcrefs i (args ++ [last]) rho s u =
       (doBegin_loop isPhysical functionEnv srcrefs i args rho s >>
        doBegin_statement isPhysical functionEnv srcrefs
          (i + Z.of_nat (length args)) last rho) u) ∧
  R_Srcref w' = Some R_NilValue ∧
  ∃ w0 w1 ev0,
    Rf_eval last rho w0 = (Ok v, w1, ev0) ∧ w' = set_R_Srcref (Some R_NilValue) w1.
Proof.
  intros Hrun. split; [intros; apply doBegin_loop_snoc|].
  unfold doBegin in Hrun.
  erewrite !bind_ok in Hrun by reflexivity. cbv zeta in Hrun.
  unfold bind at 1 in Hrun.
  match type of Hrun with
  | context [match ?m ?u with _ => _ end] => destruct (m u) as [[[[]|e] u0] ev0]; [|done]
  end.
  assert (Hne : ∃ a rest, args ++ [last] = a :: rest)
    by (destruct args; by eexists _, _).
  destruct Hne as (a & rest & Hne). rewrite Hne in Hrun. rewrite <- Hne in Hrun.
  unfold bind at 1 in Hrun. rewrite doBegin_loop_snoc in Hrun.
  unfold bind at 1 in Hrun.
  match type of Hrun with
  | context [match doBegin_loop ?a1 ?a2 ?a3 ?a4 args rho ?a5 u0 with _ => _ end] =>
      destruct (doBegin_loop a1 a2 a3 a4 args rho a5 u0) as [[[s1|e] u1] ev1]; [|done];
      destruct (doBegin_statement a1 a2 a3 (a4 + Z.of_nat (length args)) last rho u1)
        as [[[s2|e] u2] ev2] eqn:Hst; [|done]
  end.
  cbn in Hrun. injection Hrun as <- <- _.
  destruct (doBegin_statement_result _ _ _ _ _ _ _ _ _ _ Hst) as (w0 & ev & Hev).
  split; [done|]. by exists w0, u2, ev.
Qed.

(** A block of two statements at the console. *)
Lemma doBegin_returns_the_last_value_witness :
  ∃ w0 w1 ev0,
    @Rf_eval Example.interp (Obj 1002) R_NilValue w0 = (Ok R_NilValue, w1, ev0) ∧
    set_R_Srcref (Some R_NilValue) Example.idle = set_R_Srcref (Some R_NilValue) w1.
Proof.
  destruct (@doBegin_returns_the_last_value Example.interp
              (Obj 1) [Obj 1001] (Obj 1002) R_NilValue Example.idle
              R_NilValue (set_R_Srcref (Some R_NilValue) Example.idle) [] eq_refl)
    as (_ & _ & Hlast).
  exact Hlast.
Defined.

(** ** The size of the stack *)

Section StackSize.
Context `{Interpreter}.

Lemma buildStack_step_length w st ctx :
  (length (frames (buildStack_step w st ctx))
   <= length (frames st) + length (entriesWithCall [ctx]))%nat.
Proof.
  destruct (buildStack_step_cases w st ctx) as (_ & _ & Hcases).
  destruct (isSentinelEntry w st ctx).
  { destruct Hcases as [-> _]. cbn. lia. }
  destruct (bool_decide (cd_call ctx ≠ R_NilValue)
            && (wasStackBottom st || isPhysicalEntry w st ctx)) eqn:Hemit.
  - destruct Hcases as [-> _]. apply andb_true_iff in Hemit as [Hcall _].
    apply bool_decide_eq_true in Hcall. unfold entriesWithCall.
    rewrite filter_cons_True by done. rewrite length_app. cbn. lia.
  - destruct Hcases as [-> _]. lia.
Qed.

Lemma buildStack_loop_length w contexts st :
  (length (frames (buildStack_loop w contexts st))
   <= length (frames st) + length (entriesWithCall contexts))%nat.
Proof.
  revert st. induction contexts as [|ctx rest IH]; intros st; [cbn; lia|].
  cbn [buildStack_loop fold_left]. fold (buildStack_loop w rest (buildStack_step w st ctx)).
  specialize (IH (buildStack_step w st ctx)).
  pose proof (buildStack_step_length w st ctx) as Hs.
  change (ctx :: rest) with ([ctx] ++ rest). unfold entriesWithCall in *.
  rewrite filter_app, length_app. lia.
Qed.

Lemma snapshot_calls call w :
  (length (entriesWithCall (getContextDump call w))
   <= length (callEnvironments (R_GlobalContext w))
      + (if decide (call ≠ R_NilValue) then 1 else 0))%nat.
Proof.
  unfold getContextDump, entriesWithCall, callEnvironments.
  cbn [rev]. rewrite filter_app, length_app, !length_map.
  set (calls := filter _ (R_GlobalContext w)).
  pose proof (length_filter (fun ctx => cd_call ctx ≠ R_NilValue)
                (rev (map dumpOfContext calls))) as Hle.
  rewrite length_rev, length_map in Hle.
  case_decide as Hc.
  - rewrite filter_cons_True by exact Hc. cbn. lia.
  - rewrite filter_cons_False by (intros Hn; apply Hn; exact Hc). cbn. lia.
Qed.

Lemma length_removelast {A} (l : list A) : length (removelast l) = pred (length l).
Proof.
  induction l as [|x [|y l] IH]; [done|done|].
  change (removelast (x :: y :: l)) with (x :: removelast (y :: l)).
  cbn [length] in *. by rewrite IH.
Qed.

Lemma getLastErrorStack_run w :
  getLastErrorStack w
    = (Ok (removelast (buildStack_frames w (lastErrorStackDump w))), w, []).
Proof.
  unfold getLastErrorStack. erewrite bind_ok by reflexivity.
  erewrite bind_ok by apply buildStack_run.
  by destruct (buildStack_frames w (lastErrorStackDump w)).
Qed.

(** Without a sentinel the loop emits nothing before the first physical
    entry [p] and, from it on, one frame for every entry with a call. *)
Lemma buildStack_complete_prefix w contexts p k :
  (∀ i, sentinelAt w contexts i = false) ->
  (∀ q, (q < p)%nat -> physicalAt w contexts q = false) ->
  physicalAt w contexts p = true ∨ (length contexts <= p)%nat ->
  (k <= length contexts)%nat ->
  (k <= p -> wasStackBottom (stateBefore w contexts k) = false
             ∧ frames (stateBefore w contexts k) = [])%nat ∧
  (p < k -> wasStackBottom (stateBefore w contexts k) = true)%nat ∧
  length (frames (stateBefore w contexts k))
    = length (entriesWithCall (take (k - p) (drop p contexts))).
Proof.
  intros Hsent Hbefore Hat. induction k as [|k IH]; intros Hk.
  { split; [done|]. split; [lia|done]. }
  destruct (lookup_lt_is_Some_2 contexts k ltac:(lia)) as [ctx Hctx].
  destruct (IH ltac:(lia)) as (Hlow & Hhigh & Hlen).
  rewrite (stateBefore_S _ _ _ _ Hctx).
  set (st := stateBefore w contexts k) in *.
  destruct (buildStack_step_cases w st ctx) as (_ & _ & Hcases).
  assert (Hphys : isPhysicalEntry w st ctx = physicalAt w contexts k)
    by (unfold physicalAt; by rewrite Hctx).
  assert (Hs : isSentinelEntry w st ctx = false).
  { specialize (Hsent k). unfold sentinelAt in Hsent. by rewrite Hctx in Hsent. }
  rewrite Hs in Hcases.
  destruct (decide (k < p)%nat) as [Hkp|Hkp].
  - destruct (Hlow ltac:(lia)) as [Hb Hf].
    rewrite Hphys, (Hbefore k Hkp), Hb, andb_false_r in Hcases.
    destruct Hcases as [Hf' Hb']. rewrite Hf', Hb', Hf.
    split; [done|]. split; [lia|].
    by replace (S k - p)%nat with 0%nat by lia.
  - assert (Hbottom : wasStackBottom st || isPhysicalEntry w st ctx = true).
    { destruct (decide (k = p)) as [->|Hne].
      - destruct Hat as [Hat|Hat]; [|lia]. by rewrite Hphys, Hat, orb_true_r.
      - by rewrite (Hhigh ltac:(lia)). }
    rewrite Hbottom, andb_true_r in Hcases.
    replace (S k - p)%nat with (S (k - p)) by lia.
    assert (Hd : drop p contexts !! (k - p)%nat = Some ctx).
    { rewrite lookup_drop. by replace (p + (k - p))%nat with k by lia. }
    rewrite (take_S_r _ _ _ Hd). unfold entriesWithCall in *.
    rewrite filter_app, length_app.
    split; [lia|].
    destruct (bool_decide (cd_call ctx ≠ R_NilValue)) eqn:Hcall.
    + destruct Hcases as [Hf' Hb']. rewrite Hf', Hb', length_app, Hlen.
      apply bool_decide_eq_true in Hcall. rewrite filter_cons_True by done.
      by split.
    + destruct Hcases as [Hf' Hb']. rewrite Hf', Hb', Hlen.
      apply bool_decide_eq_false in Hcall. rewrite filter_cons_False by done.
      split; [done|]. cbn. lia.
Qed.

End StackSize.

(** X17.  [buildStack] emits at most one frame for an entry of the snapshot,
    and only for entries with a call.  So the stack of a suspension has at
    most one frame for every call frame of the chain and one for the
    current call, and a snapshot whose entries all lack a call gives the
    empty stack. *)
Theorem buildStack_one_frame_per_call `{Interpreter} w contexts call :
  (length (buildStack_frames w contexts) <= length (entriesWithCall contexts))%nat ∧
  (length (buildStack_frames w (getContextDump call w))
   <= S (length (callEnvironments (R_GlobalContext w))))%nat ∧
  (Forall (fun ctx => cd_call ctx = R_NilValue) contexts -> buildStack_frames w contexts = []).
Proof.
  assert (Hle : ∀ cs, (length (buildStack_frames w cs) <= length (entriesWithCall cs))%nat).
  { intros cs. pose proof (buildStack_loop_length w cs buildStack_init) as Hl.
    unfold buildStack_frames. cbn in Hl. lia. }
  split; [apply Hle|]. split.
  - pose proof (Hle (getContextDump call w)) as H1.
    pose proof (snapshot_calls call w) as H2.
    destruct (decide (call ≠ R_NilValue)); lia.
  - intros Hall.
    assert (Hnone : entriesWithCall contexts = []).
    { unfold entriesWithCall. induction Hall as [|ctx rest Hc _ IH]; [done|].
      rewrite filter_cons_False by (by intros Hn). exact IH. }
    specialize (Hle contexts). rewrite Hnone in Hle. destruct (buildStack_frames w contexts); [done|].
    cbn in Hle. lia.
Qed.

(** X18.  The stack of the last error is shorter than the chain at the
    failure.  The snapshot [doHandleException] stores has no current call,
    so [buildStack] gives at most one frame for every call frame of the
    chain, whatever the attributes are when the stack is asked for, and
    [getLastErrorStack] drops one: with [n] call frames at the failure the
    answer has at most [n - 1] frames, and with none or one it is empty. *)
Theorem last_error_stack_is_shorter_than_the_chain `{Interpreter} e w w2 :
  lastErrorStackDump w2 = lastErrorStackDump (stateAfter (doHandleException e) w) ->
  ∃ result,
    getLastErrorStack w2 = (Ok result, w2, []) ∧
    (length result <= pred (length (callEnvironments (R_GlobalContext w))))%nat ∧
    ((length (callEnvironments (R_GlobalContext w)) <= 1)%nat -> result = []).
Proof.
  intros Hdump. eexists. split; [apply getLastErrorStack_run|].
  assert (Hle : (length (removelast (buildStack_frames w2 (lastErrorStackDump w2)))
                 <= pred (length (callEnvironments (R_GlobalContext w))))%nat).
  { rewrite length_removelast, Hdump.
    change (lastErrorStackDump (stateAfter (doHandleException e) w))
      with (getContextDump R_NilValue w).
    pose proof (buildStack_loop_length w2 (getContextDump R_NilValue w) buildStack_init) as H1.
    pose proof (snapshot_calls R_NilValue w) as H2.
    rewrite decide_False in H2 by (by intros Hn).
    unfold buildStack_frames. cbn [frames buildStack_init length] in H1. lia. }
  split; [exact Hle|]. intros Hone.
  destruct (removelast _); [done|]. cbn in Hle. lia.
Qed.

(** [stop()] has failed inside [h]: four call frames, and at most three
    frames in the answer. *)
Lemma last_error_stack_is_shorter_than_the_chain_witness :
  let w1 := stateAfter (doHandleException (Obj 9000)) Example.failing_in_h in
  ∃ result,
    @getLastErrorStack Example.interp w1 = (Ok result, w1, []) ∧
    (length result <= 3)%nat.
Proof.
  intros w1.
  destruct (@last_error_stack_is_shorter_than_the_chain Example.interp
              (Obj 9000) Example.failing_in_h w1 eq_refl) as (result & Hrun & Hle & _).
  exists result. split; [exact Hrun|exact Hle].
Defined.

(** X19.  Once the bottom is reached [buildStack] drops nothing.  For a
    snapshot without a stack-bottom sentinel: when no entry is physical
    the stack is empty; and when [p] is the first physical entry, the
    stack has exactly one frame for every entry with a call from [p] on. *)
Theorem buildStack_keeps_every_call_after_the_bottom `{Interpreter} w contexts :
  (∀ i, sentinelAt w contexts i = false) ->
  ((∀ i, physicalAt w contexts i = false) -> buildStack_frames w contexts = []) ∧
  (∀ p, physicalAt w contexts p = true ->
        (∀ q, (q < p)%nat -> physicalAt w contexts q = false) ->
        length (buildStack_frames w contexts) = length (entriesWithCall (drop p contexts))).
Proof.
  intros Hsent. unfold buildStack_frames. rewrite <- stateBefore_all. split.
  - intros Hnone.
    destruct (buildStack_complete_prefix w contexts (length contexts) (length contexts))
      as (Hlow & _); [done|by intros|by right|done|].
    by destruct (Hlow ltac:(lia)).
  - intros p Hp Hfirst.
    destruct (buildStack_complete_prefix w contexts p (length contexts))
      as (_ & _ & Hlen); [done|done|by left|done|].
    rewrite Hlen. f_equal. f_equal. apply take_ge. rewrite length_drop. lia.
Qed.

(** The call of [f] from the console and the calls of [g] and [h] in the
    file: the first physical entry is the second, and the three entries
    from it on give the three frames of the stack. *)
Lemma buildStack_keeps_every_call_after_the_bottom_witness :
  length (@buildStack_frames Example.interp Example.inside_h
            (getContextDump (Obj 1010) Example.inside_h)) = 3%nat.
Proof.
  destruct (@buildStack_keeps_every_call_after_the_bottom Example.interp
              Example.inside_h (getContextDump (Obj 1010) Example.inside_h)) as [_ Hlen].
  - intros i. do 4 (destruct i as [|i]; [reflexivity|]). reflexivity.
  - rewrite (Hlen 1%nat); [reflexivity|reflexivity|].
    intros q Hq. destruct q as [|q]; [reflexivity|lia].
Defined.

(** ** The operations of the host as a whole *)

Section Host.
Context `{Interpreter}.

Lemma addBreakpoint_runs file line w :
  ∃ p w', addBreakpoint file line w = (Ok p, w', []) ∧ lookupKey w' file line = Some p.
Proof.
  destruct (lookupKey w file line) as [p|] eqn:Hk.
  - exists p, w. split; [|done]. unfold addBreakpoint. erewrite bind_ok by reflexivity.
    unfold lookupKey in Hk. by rewrite Hk.
  - destruct (addBreakpoint_fresh_run file line w Hk) as (w1 & Hrun & Hb & _).
    exists (nextNode w), w1. split; [done|].
    rewrite (lookupKey_insert w w1 file line (nextNode w) file line Hb).
    by rewrite decide_True.
Qed.

Lemma removeBreakpoint_runs file line w :
  ∃ w', removeBreakpoint file line w = (Ok tt, w', []) ∧ lookupKey w' file line = None.
Proof.
  destruct (lookupKey w file line) as [p|] eqn:Hk.
  - destruct (lookupKey_Some w file line p Hk) as (lines & Hf & Hl).
    destruct (removeBreakpoint_stored_run file line lines p w Hf Hl) as (w1 & Hrun & Hb & _).
    exists w1. split; [done|].
    rewrite (lookupKey_delete w w1 file line lines file line Hf Hb).
    by rewrite decide_True.
  - exists w. split; [by apply removeBreakpoint_missing_run|done].
Qed.

Lemma setRunToPositionCommand_runs file line w :
  ∃ w', setRunToPositionCommand file line w = (Ok tt, w', []) ∧
        runToPositionTarget w' = getStepSrcref file line.
Proof.
  destruct (decide (getStepSrcref file line ≠ R_NilValue)) as [Ht|Ht].
  - destruct (setRunToPositionCommand_spec file line w Ht) as (w1 & Hrun & Htgt & _).
    by exists w1.
  - unfold setRunToPositionCommand. erewrite bind_ok by reflexivity.
    destruct (resetRunToPositionTarget_spec (set_currentCommand CONTINUE w))
      as (n & d & a & Hrun & _).
    erewrite bind_ok by apply Hrun. rewrite decide_False by done.
    eexists. split; [reflexivity|]. cbn.
    destruct (decide (getStepSrcref file line = R_NilValue)) as [->|Hne]; [done|].
    by destruct Ht.
Qed.

(** In a state without a run-to-position target where the markers of the
    chain are as the walk of [setCommand] sets them, the command changes
    nothing. *)
Lemma setCommand_again c n d a w :
  match c with
  | CONTINUE | STEP_INTO =>
      ∀ e, e ∈ callEnvironments (R_GlobalContext w) -> a !! (e, stopHereFlagAttr) = None
  | STEP_OVER =>
      ∀ e, e ∈ callEnvironments (R_GlobalContext w) ->
           a !! (e, stopHereFlagAttr) = Some (toSEXP true)
  | STEP_OUT =>
      match callEnvironments (R_GlobalContext w) with
      | [] => True
      | e0 :: outer =>
          (∀ e, e ∈ outer -> a !! (e, stopHereFlagAttr) = Some (toSEXP true)) ∧
          (e0 ∉ outer -> a !! (e0, stopHereFlagAttr) = None)
      end
  | _ => True
  end ->
  setCommand c (set_currentCommand c (touch n d a w))
    = (Ok tt, set_currentCommand c (touch n d a w), []).
Proof.
  intros Hin. set (w1 := set_currentCommand c (touch n d a w)).
  unfold setCommand. erewrite bind_ok by reflexivity.
  erewrite bind_ok by reflexivity.
  erewrite bind_ok by reflexivity.
  erewrite bind_ok by reflexivity.
  cbn [R_GlobalContext set_runToPositionTarget set_currentCommand touch set_infoNodes
       set_rdebug set_attrib].
  match goal with
  | |- setCommand_walk c ?ctxs true ?u = _ =>
      destruct (setCommand_walk_spec c ctxs true u) as (a2 & Hwalk & Hother & Hout & Hin2);
      change u with w1 in *
  end.
  rewrite Hwalk. f_equal. f_equal.
  assert (Ha : a2 = attrib w1).
  { destruct c; try exact Hin2; apply map_eq; intros [x nm];
      (destruct (decide (nm = stopHereFlagAttr)) as [->|Hnm]; [|by apply Hother]);
      (destruct (decide (x ∈ callEnvironments (R_GlobalContext w))) as [Hx|Hx];
         [|by apply Hout]).
    - rewrite (Hin2 _ Hx). symmetry. by apply Hin.
    - rewrite (Hin2 _ Hx). symmetry. by apply Hin.
    - rewrite (Hin2 _ Hx). symmetry. by apply Hin.
    - change (R_GlobalContext w1) with (R_GlobalContext w) in Hin2.
      destruct (callEnvironments (R_GlobalContext w)) as [|e0 outer];
        [by apply elem_of_nil in Hx|].
      destruct Hin as [Hin0 Hin1]. destruct Hin2 as [Hin20 Hin21].
      destruct (decide (x ∈ outer)) as [Ho|Ho].
      + rewrite (Hin20 _ Ho). symmetry. by apply Hin0.
      + apply elem_of_cons in Hx as [->|Hx]; [|done].
        rewrite (Hin21 Ho). symmetry. by apply Hin1. }
  rewrite Ha. apply set_attrib_id.
Qed.

End Host.

(** X20.  No operation of the host on the store or on the command fails.
    The interpreter refuses an attribute on [R_NilValue], and a position
    need not resolve; the engine arms and tags a step target only when it
    is not [R_NilValue], and the environments it marks are those of call
    frames.  So each of these operations returns, with no event, whatever
    the state: afterwards the key added is stored under the node returned,
    the key removed is not stored, and the run-to-position target is what
    the position resolved to. *)
Theorem host_operations_never_fail `{Interpreter} file line c w :
  (∃ p w', addBreakpoint file line w = (Ok p, w', []) ∧ lookupKey w' file line = Some p) ∧
  (∃ w', removeBreakpoint file line w = (Ok tt, w', []) ∧ lookupKey w' file line = None) ∧
  (∃ w', refreshBreakpoint file line w = (Ok tt, w', [])) ∧
  (∃ w', setCommand c w = (Ok tt, w', []) ∧ currentCommand w' = c) ∧
  (∃ w', setRunToPositionCommand file line w = (Ok tt, w', []) ∧
         runToPositionTarget w' = getStepSrcref file line).
Proof.
  split; [apply addBreakpoint_runs|]. split; [apply removeBreakpoint_runs|].
  split.
  { destruct (refreshBreakpoint_spec file line w) as (n & d & a & Hrun & _). by eexists. }
  split; [|apply setRunToPositionCommand_runs].
  destruct (setCommand_spec c w) as (n & d & a & Hrun & _). by eexists.
Qed.

(** X21.  [R_NilValue] stays plain.  The engine never sets the debug bit of
    [R_NilValue] and never leaves an attribute on it: every operation of
    the host on the store and on the command keeps it that way, also for a
    position that does not resolve. *)
Theorem nil_stays_plain `{Interpreter} file line c :
  preserves nilPlain (addBreakpoint file line) ∧
  preserves nilPlain (removeBreakpoint file line) ∧
  preserves nilPlain (refreshBreakpoint file line) ∧
  preserves nilPlain (setCommand c) ∧
  preserves nilPlain (setRunToPositionCommand file line) ∧
  (∀ w, nilPlain w ->
        RDEBUG w R_NilValue = false ∧ getBreakpointInfoAttrib w R_NilValue = None ∧
        Rf_getAttrib w R_NilValue stopHereFlagAttr = R_NilValue).
Proof.
  destruct (nilPlain_engine file line c) as (H1 & H2 & H3 & H4 & H5).
  do 5 (split; [done|]). intros w [Hd Ha]. split; [|split].
  - by apply bool_decide_eq_false.
  - unfold getBreakpointInfoAttrib, Rf_getAttrib. by rewrite Ha.
  - unfold Rf_getAttrib. by rewrite Ha.
Qed.

(** A breakpoint on line 0 of an unknown file, which does not resolve. *)
Lemma nil_stays_plain_witness :
  nilPlain Example.idle ∧
  nilPlain (stateAfter (@addBreakpoint Example.interp "b.r" 0) Example.idle) ∧
  RDEBUG (stateAfter (@addBreakpoint Example.interp "b.r" 0) Example.idle) R_NilValue = false.
Proof.
  assert (Hidle : nilPlain Example.idle).
  { split; [|reflexivity]. unfold Example.idle. cbn [rdebug]. apply not_elem_of_empty. }
  destruct (@nil_stays_plain Example.interp "b.r" 0 CONTINUE) as (Hadd & _ & _ & _ & _ & Hread).
  split; [exact Hidle|]. split; [apply Hadd, Hidle|].
  apply Hread, Hadd, Hidle.
Defined.

(** X22.  A command given twice is given once.  In the state [setCommand]
    leaves, the same command changes nothing: the run-to-position target is
    already gone, and the walk along the chain finds every marker as it
    would set it, also under [STEP_OUT] when frames share an environment. *)
Theorem setCommand_is_idempotent `{Interpreter} c w :
  setCommand c (stateAfter (setCommand c) w)
    = (Ok tt, stateAfter (setCommand c) w, []).
Proof.
  destruct (setCommand_spec c w) as (n & d & a & Hrun & _ & _ & _ & _ & _ & Hin).
  unfold stateAfter at 1 2. rewrite Hrun. cbn [fst snd].
  apply setCommand_again. destruct c; done.
Qed.

(** ** The snapshot and the sentinel *)

Section Snapshot.
Context `{Interpreter}.

Lemma buildStack_loop_drop w contexts k :
  buildStack_loop w contexts buildStack_init
    = buildStack_loop w (drop k contexts) (stateBefore w contexts k).
Proof.
  unfold stateBefore, buildStack_loop. rewrite <- fold_left_app. by rewrite take_drop.
Qed.

(** Once the bottom is reached and no sentinel follows, every entry with a
    call adds a frame. *)
Lemma buildStack_after_bottom w contexts k0 k :
  wasStackBottom (stateBefore w contexts k0) = true ->
  (∀ i, (k0 <= i)%nat -> sentinelAt w contexts i = false) ->
  (k0 <= k)%nat -> (k <= length contexts)%nat ->
  wasStackBottom (stateBefore w contexts k) = true ∧
  length (frames (stateBefore w contexts k))
    = (length (frames (stateBefore w contexts k0))
       + length (entriesWithCall (take (k - k0) (drop k0 contexts))))%nat.
Proof.
  intros Hb0 Hsent. induction k as [|k IH]; intros Hk0 Hk.
  { assert (k0 = 0%nat) as -> by lia. split; [done|].
    change (0 - 0)%nat with 0%nat. rewrite take_0. unfold entriesWithCall.
    rewrite filter_nil. cbn [length]. lia. }
  destruct (decide (k0 = S k)) as [->|Hne].
  { split; [done|]. rewrite Nat.sub_diag, take_0. unfold entriesWithCall.
    rewrite filter_nil. cbn [length]. lia. }
  destruct (IH ltac:(lia) ltac:(lia)) as [Hb Hlen].
  destruct (lookup_lt_is_Some_2 contexts k ltac:(lia)) as [ctx Hctx].
  rewrite (stateBefore_S _ _ _ _ Hctx).
  set (st := stateBefore w contexts k) in *.
  destruct (buildStack_step_cases w st ctx) as (_ & _ & Hcases).
  assert (Hs : isSentinelEntry w st ctx = false).
  { specialize (Hsent k ltac:(lia)). unfold sentinelAt in Hsent. by rewrite Hctx in Hsent. }
  rewrite Hs, Hb in Hcases. cbn [orb] in Hcases. rewrite andb_true_r in Hcases.
  replace (S k - k0)%nat with (S (k - k0)) by lia.
  assert (Hd : drop k0 contexts !! (k - k0)%nat = Some ctx).
  { rewrite lookup_drop. by replace (k0 + (k - k0))%nat with k by lia. }
  rewrite (take_S_r _ _ _ Hd). unfold entriesWithCall in *.
  rewrite filter_app, length_app.
  destruct (bool_decide (cd_call ctx ≠ R_NilValue)) eqn:Hcall.
  - destruct Hcases as [Hf' Hb']. rewrite Hf', Hb', length_app, Hlen.
    apply bool_decide_eq_true in Hcall. rewrite filter_cons_True by done.
    split; [done|]. cbn. lia.
  - destruct Hcases as [Hf' Hb']. rewrite Hf', Hb', Hlen.
    apply bool_decide_eq_false in Hcall. rewrite filter_cons_False by done.
    split; [done|]. cbn. lia.
Qed.

End Snapshot.

(** X23.  The pointer attached to a source reference reads back.  After
    [setBreakpointInfoAttrib] on a source reference that is not
    [R_NilValue], [getBreakpointInfoAttrib] answers the pointer that was
    attached, or the null pointer after a detach; the pointers of other
    source references, the other attributes and the debug bits are as
    before. *)
Theorem breakpoint_pointer_reads_back srcref info w :
  srcref ≠ R_NilValue ->
  ∃ w',
    setBreakpointInfoAttrib srcref info w = (Ok tt, w', []) ∧
    getBreakpointInfoAttrib w' srcref = info ∧
    (∀ other, other ≠ srcref ->
       getBreakpointInfoAttrib w' other = getBreakpointInfoAttrib w other) ∧
    (∀ x nm, nm ≠ breakpointInfoAttr -> Rf_getAttrib w' x nm = Rf_getAttrib w x nm) ∧
    rdebug w' = rdebug w ∧ infoNodes w' = infoNodes w ∧ breakpoints w' = breakpoints w.
Proof.
  intros Hs. destruct info as [p|]; unfold setBreakpointInfoAttrib, Rf_setAttrib.
  - rewrite decide_False by done. rewrite decide_False by done.
    eexists. split; [reflexivity|].
    unfold getBreakpointInfoAttrib, Rf_getAttrib. cbn. split; [|split; [|split]].
    + by rewrite lookup_insert_eq.
    + intros other Ho. rewrite lookup_insert_ne; [done|]. congruence.
    + intros x nm Hn. rewrite lookup_insert_ne; [done|]. congruence.
    + done.
  - rewrite decide_True by done.
    eexists. split; [reflexivity|].
    unfold getBreakpointInfoAttrib, Rf_getAttrib. cbn. split; [|split; [|split]].
    + by rewrite lookup_delete_eq.
    + intros other Ho. rewrite lookup_delete_ne; [done|]. congruence.
    + intros x nm Hn. rewrite lookup_delete_ne; [done|]. congruence.
    + done.
Qed.

(** Line 13 of the file is tagged with the node 7 and untagged again. *)
Lemma breakpoint_pointer_reads_back_witness :
  getBreakpointInfoAttrib
    (stateAfter (setBreakpointInfoAttrib (Obj 13) (Some 7%N)) Example.inside_h) (Obj 13)
    = Some 7%N ∧
  getBreakpointInfoAttrib
    (stateAfter (setBreakpointInfoAttrib (Obj 13) None)
       (stateAfter (setBreakpointInfoAttrib (Obj 13) (Some 7%N)) Example.inside_h)) (Obj 13)
    = None.
Proof.
  split.
  - destruct (breakpoint_pointer_reads_back (Obj 13) (Some 7%N) Example.inside_h)
      as (w' & Hrun & Hget & _); [discriminate|].
    unfold stateAfter. rewrite Hrun. exact Hget.
  - destruct (breakpoint_pointer_reads_back (Obj 13) None
                (stateAfter (setBreakpointInfoAttrib (Obj 13) (Some 7%N)) Example.inside_h))
      as (w' & Hrun & Hget & _); [discriminate|].
    unfold stateAfter at 1. rewrite Hrun. exact Hget.
Defined.

(** X24.  The snapshot of the chain is outermost first.  [getContextDump]
    lists one entry for every call context, in the reverse of the order of
    the chain, which is innermost first, and ends with the entry of the
    current call, which has neither function nor environment and carries
    [R_Srcref].  Contexts that are not calls are left out, and no entry has
    a null source reference. *)
Theorem getContextDump_is_outermost_first call w :
  map cd_environment (getContextDump call w)
    = rev (callEnvironments (R_GlobalContext w)) ++ [R_NilValue] ∧
  map cd_call (getContextDump call w)
    = rev (map getCall
             (filter (fun ctx => isCallContext ctx = true) (R_GlobalContext w))) ++ [call] ∧
  last (getContextDump call w)
    = Some {| cd_call := call; cd_function := R_NilValue;
              cd_srcref := Some (default R_NilValue (R_Srcref w));
              cd_environment := R_NilValue |} ∧
  Forall (fun ctx => is_Some (cd_srcref ctx)) (getContextDump call w) ∧
  length (getContextDump call w) = S (length (callEnvironments (R_GlobalContext w))).
Proof.
  unfold getContextDump, callEnvironments. cbn [rev].
  set (calls := filter _ (R_GlobalContext w)).
  split; [|split; [|split; [|split]]].
  - rewrite map_app, map_rev, map_map. reflexivity.
  - rewrite map_app, map_rev, map_map. reflexivity.
  - apply last_snoc.
  - apply Forall_app. split; [|by repeat constructor].
    apply Forall_rev, Forall_map. apply Forall_forall. intros ctx _. by eexists.
  - rewrite length_app, length_rev, !length_map. cbn. lia.
Qed.

(** X25.  The stack restarts at the stack-bottom sentinel.  When an entry
    of the snapshot is a sentinel, the environment before it carrying the
    stack-bottom attribute, the frames gathered so far are dropped and the
    bottom counts as reached, whether or not any file is physical.  So the
    stack has no more frames than there are entries with a call after that
    sentinel, and when no further sentinel follows it has exactly one frame
    for each of them. *)
Theorem buildStack_restarts_at_the_sentinel `{Interpreter} w contexts s :
  sentinelAt w contexts s = true ->
  frames (stateBefore w contexts (S s)) = [] ∧
  wasStackBottom (stateBefore w contexts (S s)) = true ∧
  (length (buildStack_frames w contexts)
   <= length (entriesWithCall (drop (S s) contexts)))%nat ∧
  ((∀ i, (s < i)%nat -> sentinelAt w contexts i = false) ->
   length (buildStack_frames w contexts)
     = length (entriesWithCall (drop (S s) contexts))).
Proof.
  intros Hs. unfold sentinelAt in Hs.
  destruct (contexts !! s) as [ctx|] eqn:Hctx; [|done].
  assert (Hlt : (s < length contexts)%nat) by (by eapply lookup_lt_Some).
  rewrite (stateBefore_S _ _ _ _ Hctx).
  destruct (buildStack_step_cases w (stateBefore w contexts s) ctx) as (_ & _ & Hcases).
  rewrite Hs in Hcases. destruct Hcases as [Hf Hb].
  split; [done|]. split; [done|]. split.
  - unfold buildStack_frames. rewrite (buildStack_loop_drop w contexts (S s)).
    pose proof (buildStack_loop_length w (drop (S s) contexts)
                  (stateBefore w contexts (S s))) as Hle.
    rewrite (stateBefore_S _ _ _ _ Hctx), Hf in Hle. cbn [length] in Hle.
    rewrite (stateBefore_S _ _ _ _ Hctx). lia.
  - intros Hafter.
    destruct (buildStack_after_bottom w contexts (S s) (length contexts))
      as [_ Hlen]; [|intros i Hi; apply Hafter; lia|lia|done|].
    { rewrite (stateBefore_S _ _ _ _ Hctx). exact Hb. }
    unfold buildStack_frames. rewrite <- stateBefore_all. rewrite Hlen.
    rewrite (stateBefore_S _ _ _ _ Hctx), Hf. cbn [length].
    rewrite take_ge by (rewrite length_drop; lia). lia.
Qed.

(** The evaluation nested in the environment that carries the stack-bottom
    attribute: the entry after it is the sentinel, and the one entry with a
    call that follows gives the one frame of the stack. *)
Lemma buildStack_restarts_at_the_sentinel_witness :
  sentinelAt (H := Example.interp) Example.nested_toplevel Example.nested_snapshot 1 = true ∧
  length (@buildStack_frames Example.interp Example.nested_toplevel Example.nested_snapshot)
    = 1%nat.
Proof.
  split; [reflexivity|].
  destruct (@buildStack_restarts_at_the_sentinel Example.interp
              Example.nested_toplevel Example.nested_snapshot 1 eq_refl)
    as (_ & _ & _ & Hexact).
  rewrite Hexact; [reflexivity|].
  intros i Hi. do 3 (destruct i as [|i]; [try lia; reflexivity|]). reflexivity.
Defined.

(** ** From the store to the interceptor *)

(** X26.  A breakpoint that was added is found when its statement is
    reached.  After [addBreakpoint] on a new key whose position resolves,
    with no stepping in progress, the pass of [doBegin] for a statement
    whose source reference is the step target enters the firing logic with
    the pointer to the new node, not as a step stop.  When the default
    [BreakpointInfo] has no condition and suspends, a live engine with
    breakpoints not muted suspends there, once, before the statement is
    evaluated. *)
Theorem added_breakpoint_is_found_when_reached `{Interpreter}
    file line isPhysical functionEnv srcrefs i arg rho w :
  lookupKey w file line = None ->
  getStepSrcref file line ≠ R_NilValue ->
  getSrcref srcrefs i = getStepSrcref file line ->
  currentCommand w = CONTINUE ->
  let w1 := stateAfter (addBreakpoint file line) w in
  doBegin_statement isPhysical functionEnv srcrefs i arg rho w1 =
    (doBreakpoint arg (Some (nextNode w)) false rho >> Rf_eval arg rho)
      (set_R_Srcref (Some (getStepSrcref file line)) w1) ∧
  (isEnabled w = true -> R_interrupts_pending w = false -> breakpointsMuted w = false ->
   bp_condition defaultBreakpointInfo = "" -> bp_suspend defaultBreakpointInfo = true ->
   ∃ pre w2,
     doBegin_statement isPhysical functionEnv srcrefs i arg rho w1 =
       (let '(r, w3, evh) := (debugPromptHandler >> Rf_eval arg rho) w2 in
        (r, w3, pre ++ EvSuspend (getStack w2) :: evh)) ∧
     suspensions pre = 0%nat ∧ currentCommand w2 = CONTINUE).
Proof.
  intros Hk Hres Hi Hc w1.
  destruct (addBreakpoint_fresh_run file line w Hk)
    as (u & Hrun & _ & Hn & _ & Hd & Ha & Hsame).
  assert (Hw1 : w1 = u) by (subst w1; unfold stateAfter; by rewrite Hrun).
  clearbody w1. subst u.
  rewrite decide_True in Hd by done. rewrite decide_True in Ha by done.
  destruct Hsame as (He1 & Hm1 & Hc1 & _ & _ & _ & _ & Hp1 & _ & _).
  set (s := getStepSrcref file line) in *.
  assert (Hbit : RDEBUG w1 s = true).
  { unfold RDEBUG. apply bool_decide_eq_true. rewrite Hd.
    apply elem_of_union_r. by apply elem_of_singleton. }
  assert (Hptr : getBreakpointInfoAttrib w1 s = Some (nextNode w)).
  { unfold getBreakpointInfoAttrib, Rf_getAttrib. by rewrite Ha, lookup_insert_eq. }
  assert (Hstmt : doBegin_statement isPhysical functionEnv srcrefs i arg rho w1 =
            (doBreakpoint arg (Some (nextNode w)) false rho >> Rf_eval arg rho)
              (set_R_Srcref (Some s) w1)).
  { unfold doBegin_statement. erewrite !bind_ok by reflexivity. rewrite Hi.
    cbn [currentCommand set_R_Srcref].
    change (RDEBUG (set_R_Srcref _ w1) s) with (RDEBUG w1 s).
    change (getBreakpointInfoAttrib (set_R_Srcref _ w1) s)
      with (getBreakpointInfoAttrib w1 s).
    rewrite Hbit, Hptr, Hc1, Hc. reflexivity. }
  split; [exact Hstmt|]. intros He Hp Hm Hcond Hsusp. rewrite Hstmt.
  set (w0 := set_R_Srcref (Some s) w1).
  set (node := {| ibi_srcref := s; ibi_info := defaultBreakpointInfo |}).
  assert (Hn0 : infoNodes w0 !! nextNode w = Some node)
    by (cbn; rewrite Hn; apply lookup_insert_eq).
  assert (Hm0 : breakpointsMuted w0 = false) by (cbn; by rewrite Hm1).
  destruct (evaluate_run (nextNode w) node rho (false || targetReached w0) w0 Hm0 Hn0)
    as (holds & evc & evl & Hcondrun & _ & _ & Hsl & Hev).
  cbn [ibi_info node] in Hcondrun, Hev. rewrite Hcond in Hcondrun.
  change (checkCondition "" rho w0) with (@Ok bool true, w0, @nil Event) in Hcondrun.
  injection Hcondrun as <- <-. rewrite Hsusp in Hev.
  destruct (suspend_markers arg w0) as (w2 & Hsus & _ & Hcmd & _).
  exists evl, w2. split; [|done].
  unfold bind at 1. rewrite doBreakpoint_live; cycle 1.
  { cbn. by rewrite He1. }
  { cbn. by rewrite Hp1. }
  { cbn. by rewrite Hc1, Hc. }
  unfold bind at 1. rewrite Hev. cbn [negb app]. rewrite Hsus.
  unfold bind.
  destruct (debugPromptHandler w2) as [[[[]|e] w3] evh]; [|done].
  destruct (Rf_eval arg rho w3) as [[r w4] ev4].
  by rewrite <- app_assoc.
Qed.

(** The breakpoint on ["a.r"], line 10, and the statement on that line. *)
Lemma added_breakpoint_is_found_when_reached_witness :
  let w1 := stateAfter (@addBreakpoint Example.interp "a.r" 10) Example.idle in
  ∃ pre w2,
    @doBegin_statement Example.interp true R_NilValue (Obj 1) 10 (Obj 1001) R_NilValue w1
      = (let '(r, w3, evh) :=
           (@debugPromptHandler Example.interp
            >> @Rf_eval Example.interp (Obj 1001) R_NilValue) w2 in
         (r, w3, pre ++ EvSuspend (getStack w2) :: evh)) ∧
    suspensions pre = 0%nat ∧ currentCommand w2 = CONTINUE.
Proof.
  intros w1.
  destruct (@added_breakpoint_is_found_when_reached Example.interp
              "a.r" 10 true R_NilValue (Obj 1) 10 (Obj 1001) R_NilValue Example.idle)
    as [_ Hfire]; [reflexivity|discriminate|reflexivity|reflexivity|].
  apply Hfire; reflexivity.
Defined.
